(** * fps_game.py: the simulation core of the first-person shooter

    A shallow embedding of [src/fps_game.py]: the vector type, the camera,
    enemies, particles, the weapon table and the [Game] controller with
    the event handling of [main], followed by the properties of the
    weapon state machine, of the ray cast and of wave spawning.

    Conventions of the embedding.
    - Python floats are read as real numbers ([R]); ints are [Z].
      [math.sqrt], [math.sin], [math.cos] and [math.pi] are [sqrt], [sin],
      [cos] and [PI].  Float division raises [ZeroDivisionError] on a zero
      divisor: [py_div] returns [None] there.
    - The module [random] is an oracle: the state [Env] holds the stream
      of values that [random.random()] will return and the stream of
      indices that [random.choice] will pick, with a cursor.  [Env] also
      counts the calls of [spawn_wave]: a ghost counter, which no
      computation reads.
    - Methods that mutate [self] are functions from the old object to the
      new one; those that draw random numbers or may raise live in the
      monad [M].  An enemy handed out by [raycast] is named by its index
      in [Game.enemies], so that [hit] updates the object of the list.
    - Rendering (OpenGL) is left out. *)

From Stdlib Require Import Reals ZArith List String Bool Lra Lia Psatz.
From Stdlib Require Import DecimalString.
Import ListNotations.
Open Scope R_scope.

(** ** Partial primitives and the random oracle *)

(** [a / b] on Python floats. *)
Definition py_div (a b : R) : option R :=
  if Req_dec_T b 0 then None else Some (a / b).

(** [str(n)] for an int. *)
Definition str (n : Z) : string := NilZero.string_of_int (Z.to_int n).

Record Env := mkEnv {
  floats : nat -> R;        (* what random.random() returns, call by call *)
  picks : nat -> nat;       (* what random.choice draws, call by call *)
  cursor : nat;             (* number of draws made so far *)
  waves_spawned : nat       (* ghost: number of calls of Game.spawn_wave *)
}.

Definition advance (s : Env) : Env :=
  mkEnv (floats s) (picks s) (S (cursor s)) (waves_spawned s).

(** Computations that may raise and that read the oracle. *)
Definition M (A : Type) : Type := Env -> option (A * Env).

Definition ret {A : Type} (a : A) : M A := fun s => Some (a, s).

Definition bind {A B : Type} (m : M A) (k : A -> M B) : M B :=
  fun s => match m s with
           | Some (a, s') => k a s'
           | None => None
           end.

Definition lift {A : Type} (o : option A) : M A :=
  fun s => match o with
           | Some a => Some (a, s)
           | None => None
           end.

Notation "x <- m ;; k" := (bind m (fun x => k))
  (at level 61, m at next level, right associativity).

Notation "'let?' x := o 'in' k" :=
  (match o with Some x => k | None => None end)
  (at level 10, x name, o at level 100, k at level 200).

(** [random.uniform(a, b)] is [a + (b - a) * random()]. *)
Definition uniform (a b : R) : M R :=
  fun s => Some (a + (b - a) * floats s (cursor s), advance s).

(** [random.choice(seq)] for a non-empty [seq], [d] being any element. *)
Definition choice {A : Type} (d : A) (seq : list A) : M A :=
  fun s => Some (nth (Nat.modulo (picks s (cursor s)) (List.length seq)) seq d,
                 advance s).

(** Ghost step: one more wave was spawned. *)
Definition note_wave : M unit :=
  fun s => Some (tt, mkEnv (floats s) (picks s) (cursor s) (S (waves_spawned s))).

(** ** Constants, states and the weapon table *)

Definition MOUSE_SENSITIVITY : R := 2 / 10.
Definition MOVE_SPEED : R := 5.

Inductive GameState := MENU | PLAYING | PAUSED | GAME_OVER.

Inductive WeaponKind := Pistol | Rifle | Shotgun.

Definition WeaponKind_eq_dec (a b : WeaponKind) : {a = b} + {a <> b}.
Proof. decide equality. Defined.

Inductive Mode := Target | Survival.

(** The strings ['normal'], ['fast'] and ['tank']. *)
Inductive EnemyType := Normal | Fast | Tank.

Record WeaponConfig := mkConfig {
  name : string;
  damage : Z;
  fire_rate : R;
  max_ammo : Z;
  reload_time : R;
  spread : R;
  pellets : Z
}.

Definition WEAPONS (k : WeaponKind) : WeaponConfig :=
  match k with
  | Pistol => mkConfig "Pistol" 35 (3 / 10) 12 (15 / 10) (1 / 100) 1
  | Rifle => mkConfig "Rifle" 25 (15 / 100) 30 2 (5 / 1000) 1
  | Shotgun => mkConfig "Shotgun" 20 (8 / 10) 8 (25 / 10) (5 / 100) 6
  end.

(** ** Vector3 *)

Module Vector3.

Record t := mk { x : R; y : R; z : R }.

Definition add (a b : t) : t := mk (x a + x b) (y a + y b) (z a + z b).

Definition sub (a b : t) : t := mk (x a - x b) (y a - y b) (z a - z b).

Definition mul (a : t) (scalar : R) : t :=
  mk (x a * scalar) (y a * scalar) (z a * scalar).

Definition length (a : t) : R := sqrt (x a ^ 2 + y a ^ 2 + z a ^ 2).

Definition normalize (a : t) : option t :=
  let l := length a in
  if Rgt_dec l 0 then
    let? nx := py_div (x a) l in
    let? ny := py_div (y a) l in
    let? nz := py_div (z a) l in
    Some (mk nx ny nz)
  else Some (mk 0 0 0).

Definition dot (a b : t) : R := x a * x b + y a * y b + z a * z b.

End Vector3.

(** ** Camera *)

Definition radians (deg : R) : R := deg * PI / 180.

Module Camera.

Record t := mk { position : Vector3.t; yaw : R; pitch : R }.

Definition init : t := mk (Vector3.mk 0 2 0) 0 0.

Definition get_forward (c : t) : option Vector3.t :=
  let x := sin (radians (yaw c)) * cos (radians (pitch c)) in
  let y := sin (radians (pitch c)) in
  let z := - cos (radians (yaw c)) * cos (radians (pitch c)) in
  Vector3.normalize (Vector3.mk x y z).

Definition get_right (c : t) : option Vector3.t :=
  let? forward := get_forward c in
  let up := Vector3.mk 0 1 0 in
  Vector3.normalize
    (Vector3.mk
       (Vector3.z forward * Vector3.y up - Vector3.y forward * Vector3.z up)
       (Vector3.x forward * Vector3.z up - Vector3.z forward * Vector3.x up)
       (Vector3.y forward * Vector3.x up - Vector3.x forward * Vector3.y up)).

Definition set_position (p : Vector3.t) (c : t) : t := mk p (yaw c) (pitch c).

End Camera.

(** ** Enemy *)

Definition Color : Type := R * R * R.

Module Enemy.

Record t := mk {
  position : Vector3.t;
  enemy_type : EnemyType;
  alive : bool;
  health : Z;
  max_health : Z;
  speed : R;
  size : R;
  color : Color;
  score : Z;
  move_timer : R;
  move_target : option Vector3.t
}.

(** [Enemy(position, enemy_type)]. *)
Definition new (pos : Vector3.t) (ty : EnemyType) : t :=
  match ty with
  | Fast => mk pos ty true 50 50 2 (8 / 10) (1, 5 / 10, 0) 5 0 None
  | Tank => mk pos ty true 150 150 (5 / 10) (15 / 10) (5 / 10, 0, 1) 15 0 None
  | Normal => mk pos ty true 100 100 1 1 (1, 0, 0) 10 0 None
  end.

Definition set_position (p : Vector3.t) (e : t) : t :=
  mk p (enemy_type e) (alive e) (health e) (max_health e) (speed e) (size e)
     (color e) (score e) (move_timer e) (move_target e).

Definition set_timer (tm : R) (tg : option Vector3.t) (e : t) : t :=
  mk (position e) (enemy_type e) (alive e) (health e) (max_health e) (speed e)
     (size e) (color e) (score e) tm tg.

(** [hit]: the enemy after the hit, and the returned flag. *)
Definition hit (dmg : Z) (e : t) : t * bool :=
  let h := (health e - dmg)%Z in
  if (h <=? 0)%Z then
    (mk (position e) (enemy_type e) false h (max_health e) (speed e) (size e)
        (color e) (score e) (move_timer e) (move_target e), true)
  else
    (mk (position e) (enemy_type e) (alive e) h (max_health e) (speed e) (size e)
        (color e) (score e) (move_timer e) (move_target e), false).

Definition update (dt : R) (player_pos : Vector3.t) (e : t) : M t :=
  if negb (alive e) then ret e
  else
    let e := set_timer (move_timer e + dt) (move_target e) e in
    e <- (if Rgt_dec (move_timer e) 2 then
            ox <- uniform (-5) 5 ;;
            oz <- uniform (-5) 5 ;;
            ret (set_timer 0 (Some (Vector3.add player_pos (Vector3.mk ox 0 oz))) e)
          else ret e) ;;
    match move_target e with
    | Some target =>
        let direction := Vector3.sub target (position e) in
        let direction := Vector3.mk (Vector3.x direction) 0 (Vector3.z direction) in
        let dist := Vector3.length direction in
        if Rgt_dec dist (5 / 10) then
          n <- lift (Vector3.normalize direction) ;;
          let move := Vector3.mul (Vector3.mul n (speed e)) dt in
          ret (set_position (Vector3.add (position e) move) e)
        else ret e
    | None => ret e
    end.

End Enemy.

(** ** Particle *)

Module Particle.

Record t := mk {
  position : Vector3.t;
  velocity : Vector3.t;
  color : Color;
  lifetime : R;
  max_lifetime : R;
  alive : bool
}.

Definition new (pos vel : Vector3.t) (col : Color) (life : R) : t :=
  mk pos vel col life life true.

Definition update (dt : R) (p : t) : t :=
  let life := lifetime p - dt in
  if Rle_dec life 0 then
    mk (position p) (velocity p) (color p) life (max_lifetime p) false
  else
    let pos := Vector3.add (position p) (Vector3.mul (velocity p) dt) in
    let vel := Vector3.mk (Vector3.x (velocity p))
                          (Vector3.y (velocity p) - 10 * dt)
                          (Vector3.z (velocity p)) in
    mk pos vel (color p) life (max_lifetime p) (alive p).

End Particle.

(** ** Weapon state and kill feed *)

(** One of the dicts [{'ammo': .., 'reserve': .., 'cooldown': .., 'reloading': ..}]. *)
Record WeaponData := mkData {
  ammo : Z;
  reserve : Z;
  cooldown : R;
  reloading : R
}.

(** The dict [Game.weapons]; its keys are the three weapon kinds, in this
    order (the order in which [values()] iterates). *)
Record Weapons := mkWeapons {
  at_pistol : WeaponData;
  at_rifle : WeaponData;
  at_shotgun : WeaponData
}.

Definition weapon_keys : list WeaponKind := [Pistol; Rifle; Shotgun].

Definition lookup (ws : Weapons) (k : WeaponKind) : WeaponData :=
  match k with
  | Pistol => at_pistol ws
  | Rifle => at_rifle ws
  | Shotgun => at_shotgun ws
  end.

Definition store (k : WeaponKind) (d : WeaponData) (ws : Weapons) : Weapons :=
  match k with
  | Pistol => mkWeapons d (at_rifle ws) (at_shotgun ws)
  | Rifle => mkWeapons (at_pistol ws) d (at_shotgun ws)
  | Shotgun => mkWeapons (at_pistol ws) (at_rifle ws) d
  end.

Definition initial_weapons : Weapons :=
  mkWeapons (mkData 12 36 0 0) (mkData 30 90 0 0) (mkData 8 24 0 0).

(** One of the dicts [{'message': .., 'time': ..}] of the kill feed. *)
Record FeedItem := mkItem { message : string; time : R }.

(** [enemy_type.title()] on ['normal'], ['fast'] and ['tank']. *)
Definition title (ty : EnemyType) : string :=
  match ty with
  | Normal => "Normal"
  | Fast => "Fast"
  | Tank => "Tank"
  end.

(** [l[i] = v] seen from the list: the object at index [i] is now [v]. *)
Fixpoint set_nth {A : Type} (i : nat) (v : A) (l : list A) {struct l} : list A :=
  match l, i with
  | [], _ => []
  | _ :: rest, O => v :: rest
  | a :: rest, S j => a :: set_nth j v rest
  end.

(** [for a in l: a = f(a)] in the monad, front to back. *)
Fixpoint mapM {A B : Type} (f : A -> M B) (l : list A) : M (list B) :=
  match l with
  | [] => ret []
  | a :: rest =>
      b <- f a ;;
      bs <- mapM f rest ;;
      ret (b :: bs)
  end.

(** [for _ in range(n): g = body(g)]. *)
Fixpoint repeatM {A : Type} (n : nat) (body : A -> M A) (a : A) : M A :=
  match n with
  | O => ret a
  | S m => a' <- body a ;; repeatM m body a'
  end.

(** ** Game *)

Module Game.

Record t := mk {
  state : GameState;
  camera : Camera.t;
  enemies : list Enemy.t;
  particles : list Particle.t;
  score : Z;
  kills : Z;
  wave : Z;
  player_health : Z;
  max_health : Z;
  current_weapon : WeaponKind;
  weapons : Weapons;
  game_mode : option Mode;
  enemies_per_wave : Z;
  shake_amount : R;
  shake_timer : R;
  kill_feed : list FeedItem
}.

(** [Game()]. *)
Definition init : t :=
  mk MENU Camera.init [] [] 0 0 0 100 100 Pistol initial_weapons None 5 0 0 [].

(** Assignments to one attribute. *)
Definition set_state (v : GameState) (g : t) : t :=
  mk v (camera g) (enemies g) (particles g) (score g) (kills g) (wave g)
     (player_health g) (max_health g) (current_weapon g) (weapons g) (game_mode g)
     (enemies_per_wave g) (shake_amount g) (shake_timer g) (kill_feed g).

Definition set_camera (v : Camera.t) (g : t) : t :=
  mk (state g) v (enemies g) (particles g) (score g) (kills g) (wave g)
     (player_health g) (max_health g) (current_weapon g) (weapons g) (game_mode g)
     (enemies_per_wave g) (shake_amount g) (shake_timer g) (kill_feed g).

Definition set_enemies (v : list Enemy.t) (g : t) : t :=
  mk (state g) (camera g) v (particles g) (score g) (kills g) (wave g)
     (player_health g) (max_health g) (current_weapon g) (weapons g) (game_mode g)
     (enemies_per_wave g) (shake_amount g) (shake_timer g) (kill_feed g).

Definition set_particles (v : list Particle.t) (g : t) : t :=
  mk (state g) (camera g) (enemies g) v (score g) (kills g) (wave g)
     (player_health g) (max_health g) (current_weapon g) (weapons g) (game_mode g)
     (enemies_per_wave g) (shake_amount g) (shake_timer g) (kill_feed g).

Definition set_score (v : Z) (g : t) : t :=
  mk (state g) (camera g) (enemies g) (particles g) v (kills g) (wave g)
     (player_health g) (max_health g) (current_weapon g) (weapons g) (game_mode g)
     (enemies_per_wave g) (shake_amount g) (shake_timer g) (kill_feed g).

Definition set_kills (v : Z) (g : t) : t :=
  mk (state g) (camera g) (enemies g) (particles g) (score g) v (wave g)
     (player_health g) (max_health g) (current_weapon g) (weapons g) (game_mode g)
     (enemies_per_wave g) (shake_amount g) (shake_timer g) (kill_feed g).

Definition set_wave (v : Z) (g : t) : t :=
  mk (state g) (camera g) (enemies g) (particles g) (score g) (kills g) v
     (player_health g) (max_health g) (current_weapon g) (weapons g) (game_mode g)
     (enemies_per_wave g) (shake_amount g) (shake_timer g) (kill_feed g).

Definition set_current_weapon (v : WeaponKind) (g : t) : t :=
  mk (state g) (camera g) (enemies g) (particles g) (score g) (kills g) (wave g)
     (player_health g) (max_health g) v (weapons g) (game_mode g)
     (enemies_per_wave g) (shake_amount g) (shake_timer g) (kill_feed g).

Definition set_weapons (v : Weapons) (g : t) : t :=
  mk (state g) (camera g) (enemies g) (particles g) (score g) (kills g) (wave g)
     (player_health g) (max_health g) (current_weapon g) v (game_mode g)
     (enemies_per_wave g) (shake_amount g) (shake_timer g) (kill_feed g).

Definition set_enemies_per_wave (v : Z) (g : t) : t :=
  mk (state g) (camera g) (enemies g) (particles g) (score g) (kills g) (wave g)
     (player_health g) (max_health g) (current_weapon g) (weapons g) (game_mode g)
     v (shake_amount g) (shake_timer g) (kill_feed g).

Definition set_player_health (v : Z) (g : t) : t :=
  mk (state g) (camera g) (enemies g) (particles g) (score g) (kills g) (wave g)
     v (max_health g) (current_weapon g) (weapons g) (game_mode g)
     (enemies_per_wave g) (shake_amount g) (shake_timer g) (kill_feed g).

Definition set_game_mode (v : option Mode) (g : t) : t :=
  mk (state g) (camera g) (enemies g) (particles g) (score g) (kills g) (wave g)
     (player_health g) (max_health g) (current_weapon g) (weapons g) v
     (enemies_per_wave g) (shake_amount g) (shake_timer g) (kill_feed g).

Definition set_shake_timer (v : R) (g : t) : t :=
  mk (state g) (camera g) (enemies g) (particles g) (score g) (kills g) (wave g)
     (player_health g) (max_health g) (current_weapon g) (weapons g) (game_mode g)
     (enemies_per_wave g) (shake_amount g) v (kill_feed g).

Definition set_shake (amount timer : R) (g : t) : t :=
  mk (state g) (camera g) (enemies g) (particles g) (score g) (kills g) (wave g)
     (player_health g) (max_health g) (current_weapon g) (weapons g) (game_mode g)
     (enemies_per_wave g) amount timer (kill_feed g).

Definition set_kill_feed (v : list FeedItem) (g : t) : t :=
  mk (state g) (camera g) (enemies g) (particles g) (score g) (kills g) (wave g)
     (player_health g) (max_health g) (current_weapon g) (weapons g) (game_mode g)
     (enemies_per_wave g) (shake_amount g) (shake_timer g) v.

(** [self.weapons[k][..] = ..]: the dict of weapon [k] becomes [d]. *)
Definition set_weapon (k : WeaponKind) (d : WeaponData) (g : t) : t :=
  set_weapons (store k d (weapons g)) g.

Definition screen_shake (amount : R) (g : t) : t :=
  set_shake amount (2 / 10) g.

Definition add_kill_feed (msg : string) (g : t) : t :=
  set_kill_feed (kill_feed g ++ [mkItem msg 3]) g.

Definition target_positions : list Vector3.t :=
  [ Vector3.mk 0 1 10; Vector3.mk (-5) 1 8; Vector3.mk 5 1 8;
    Vector3.mk (-3) 1 12; Vector3.mk 3 1 12; Vector3.mk 0 1 15;
    Vector3.mk (-7) 1 10; Vector3.mk 7 1 10 ].

Definition spawn_targets (g : t) : t :=
  fold_left (fun g pos => set_enemies (enemies g ++ [Enemy.new pos Normal]) g)
            target_positions g.

(** One turn of the loop of [spawn_wave]. *)
Definition spawn_enemy (g : t) : M t :=
  angle <- uniform 0 (2 * PI) ;;
  distance <- uniform 10 20 ;;
  let x := distance * cos angle in
  let z := distance * sin angle in
  enemy_type <- choice Normal [Normal; Fast; Tank] ;;
  ret (set_enemies (enemies g ++ [Enemy.new (Vector3.mk x 1 z) enemy_type]) g).

Definition spawn_wave (g : t) : M t :=
  _ <- note_wave ;;                       (* ghost: counts this call *)
  let g := add_kill_feed ("Wave " ++ str (wave g) ++ " Starting!") g in
  g <- repeatM (Z.to_nat (enemies_per_wave g)) spawn_enemy g ;;
  ret (set_enemies_per_wave (enemies_per_wave g + 2) g).

Definition explosion_colors : list Color :=
  [ (1, 5 / 10, 0); (1, 0, 0); (1, 1, 0) ].

(** One turn of the loop of [create_explosion]. *)
Definition spawn_particle (position : Vector3.t) (g : t) : M t :=
  vx <- uniform (-3) 3 ;;
  vy <- uniform 0 3 ;;
  vz <- uniform (-3) 3 ;;
  color <- choice (1, 0, 0) explosion_colors ;;
  lifetime <- uniform (3 / 10) (7 / 10) ;;
  ret (set_particles
         (particles g ++ [Particle.new position (Vector3.mk vx vy vz) color lifetime])
         g).

Definition create_explosion (position : Vector3.t) (g : t) : M t :=
  repeatM 15 (spawn_particle position) g.

Definition start_game (mode : Mode) (g : t) : M t :=
  let g := set_game_mode (Some mode) g in
  let g := set_state PLAYING g in
  let g := set_score 0 g in
  let g := set_kills 0 g in
  let g := set_wave 0 g in
  let g := set_player_health 100 g in
  let g := set_enemies [] g in
  let g := set_particles [] g in
  let g := set_kill_feed [] g in
  let g := set_weapon Pistol (mkData 12 36 0 0) g in
  let g := set_weapon Rifle (mkData 30 90 0 0) g in
  let g := set_weapon Shotgun (mkData 8 24 0 0) g in
  let g := set_current_weapon Pistol g in
  let g := set_camera (Camera.mk (Vector3.mk 0 2 0) 0 0) g in
  match mode with
  | Target => ret (spawn_targets g)
  | Survival => spawn_wave (set_wave 1 g)
  end.

(** The loop of [raycast] over [self.enemies] from index [i] on;
    [closest_dist] is [None] while it is [float('inf')]. *)
Fixpoint raycast_from (origin direction : Vector3.t) (es : list Enemy.t) (i : nat)
         (closest_enemy : option (nat * Enemy.t)) (closest_dist : option R)
  : option (nat * Enemy.t) :=
  match es with
  | [] => closest_enemy
  | enemy :: rest =>
      if negb (Enemy.alive enemy) then
        raycast_from origin direction rest (S i) closest_enemy closest_dist
      else
        let to_enemy := Vector3.sub (Enemy.position enemy) origin in
        let proj := Vector3.dot to_enemy direction in
        if Rlt_dec proj 0 then
          raycast_from origin direction rest (S i) closest_enemy closest_dist
        else
          let closest_point := Vector3.add origin (Vector3.mul direction proj) in
          let dist_to_enemy :=
            Vector3.length (Vector3.sub closest_point (Enemy.position enemy)) in
          if Rlt_dec dist_to_enemy (Enemy.size enemy) then
            match closest_dist with
            | None =>
                raycast_from origin direction rest (S i) (Some (i, enemy)) (Some proj)
            | Some d =>
                if Rlt_dec proj d then
                  raycast_from origin direction rest (S i) (Some (i, enemy)) (Some proj)
                else
                  raycast_from origin direction rest (S i) closest_enemy closest_dist
            end
          else
            raycast_from origin direction rest (S i) closest_enemy closest_dist
  end.

Definition raycast (g : t) (origin direction : Vector3.t) : option (nat * Enemy.t) :=
  raycast_from origin direction (enemies g) 0 None None.

(** One turn of the pellet loop of [shoot]. *)
Definition shoot_pellet (config : WeaponConfig) (g : t) : M t :=
  forward <- lift (Camera.get_forward (camera g)) ;;
  spread_x <- uniform (- spread config) (spread config) ;;
  spread_y <- uniform (- spread config) (spread config) ;;
  direction <- lift (Vector3.normalize
                       (Vector3.mk (Vector3.x forward + spread_x)
                                   (Vector3.y forward + spread_y)
                                   (Vector3.z forward))) ;;
  match raycast g (Camera.position (camera g)) direction with
  | Some (i, hit_enemy) =>
      let (hit_enemy, killed) := Enemy.hit (damage config) hit_enemy in
      let g := set_enemies (set_nth i hit_enemy (enemies g)) g in
      if killed then
        let g := set_score (score g + Enemy.score hit_enemy) g in
        let g := set_kills (kills g + 1) g in
        let g := add_kill_feed
                   ("Eliminated " ++ title (Enemy.enemy_type hit_enemy) ++ " Enemy") g in
        create_explosion (Enemy.position hit_enemy) g
      else ret g
  | None => ret g
  end.

Definition shoot (g : t) : M t :=
  let weapon_data := lookup (weapons g) (current_weapon g) in
  let config := WEAPONS (current_weapon g) in
  if Rgt_dec (cooldown weapon_data) 0 then ret g
  else if Rgt_dec (reloading weapon_data) 0 then ret g
  else if (ammo weapon_data <=? 0)%Z then ret g
  else
    let g := set_weapon (current_weapon g)
               (mkData (ammo weapon_data - 1) (reserve weapon_data)
                       (fire_rate config) (reloading weapon_data)) g in
    let g := screen_shake (15 / 100) g in
    repeatM (Z.to_nat (pellets config)) (shoot_pellet config) g.

Definition reload (g : t) : t :=
  let weapon_data := lookup (weapons g) (current_weapon g) in
  let config := WEAPONS (current_weapon g) in
  if Rgt_dec (reloading weapon_data) 0 then g
  else if (ammo weapon_data =? max_ammo config)%Z then g
  else if (reserve weapon_data <=? 0)%Z then g
  else
    set_weapon (current_weapon g)
      (mkData (ammo weapon_data) (reserve weapon_data) (cooldown weapon_data)
              (reload_time config)) g.

Definition finish_reload (g : t) : t :=
  let weapon_data := lookup (weapons g) (current_weapon g) in
  let config := WEAPONS (current_weapon g) in
  let ammo_needed := (max_ammo config - ammo weapon_data)%Z in
  let ammo_to_reload := Z.min ammo_needed (reserve weapon_data) in
  set_weapon (current_weapon g)
    (mkData (ammo weapon_data + ammo_to_reload) (reserve weapon_data - ammo_to_reload)
            (cooldown weapon_data) 0) g.

(** One turn of the loop of [update] over [self.weapons.values()]: the
    dict visited is the one stored under [k]. *)
Definition tick_weapon (dt : R) (g : t) (k : WeaponKind) : t :=
  let g :=
    let weapon_data := lookup (weapons g) k in
    if Rgt_dec (cooldown weapon_data) 0 then
      set_weapon k (mkData (ammo weapon_data) (reserve weapon_data)
                           (cooldown weapon_data - dt) (reloading weapon_data)) g
    else g in
  let weapon_data := lookup (weapons g) k in
  if Rgt_dec (reloading weapon_data) 0 then
    let g := set_weapon k (mkData (ammo weapon_data) (reserve weapon_data)
                                  (cooldown weapon_data) (reloading weapon_data - dt)) g in
    if Rle_dec (reloading (lookup (weapons g) k)) 0 then finish_reload g else g
  else g.

(** The check of the selected weapon that follows the loop. *)
Definition auto_reload (g : t) : t :=
  let weapon_data := lookup (weapons g) (current_weapon g) in
  if (ammo weapon_data =? 0)%Z then
    if Req_dec_T (reloading weapon_data) 0 then
      if (reserve weapon_data >? 0)%Z then reload g else g
    else g
  else g.

Definition update (dt : R) (g : t) : M t :=
  match state g with
  | PLAYING =>
      let g := fold_left (tick_weapon dt) weapon_keys g in
      let g := auto_reload g in
      es <- mapM (Enemy.update dt (Camera.position (camera g))) (enemies g) ;;
      let g := set_enemies (filter Enemy.alive es) g in
      let g := set_particles
                 (filter Particle.alive (map (Particle.update dt) (particles g))) g in
      let g := set_kill_feed
                 (filter (fun item => if Rgt_dec (time item) 0 then true else false)
                    (map (fun item => mkItem (message item) (time item - dt))
                         (kill_feed g))) g in
      let g := if Rgt_dec (shake_timer g) 0
               then set_shake_timer (shake_timer g - dt) g else g in
      match game_mode g, enemies g with
      | Some Survival, [] => spawn_wave (set_wave (wave g + 1) g)
      | Some Target, [] => ret (spawn_targets g)
      | _, _ => ret g
      end
  | _ => ret g
  end.

End Game.

(** ** The loop of [main]

    One pass of the [while running] loop reads [dt], handles the pending
    events one by one, then calls [game.update(dt)] and moves the player.
    The input of the program is read here as the flat sequence of what
    is handled: the events, and [TICK dt] for the end of a pass. *)

Inductive Key :=
  K_r | K_1 | K_2 | K_3 | K_p | K_ESCAPE | K_m | K_w | K_s | K_a | K_d | K_other.

Definition Key_eq_dec (a b : Key) : {a = b} + {a <> b}.
Proof. decide equality. Defined.

Inductive Input :=
| KEYDOWN (key : Key)
| KEYUP (key : Key)
| MOUSEBUTTONDOWN (button : Z) (mx my : Z)   (* with the mouse at (mx, my) *)
| MOUSEMOTION (dx dy : Z)
| TICK (dt : R).

Record Loop := mkLoop {
  game : Game.t;
  mouse_locked : bool;
  keys_down : list Key       (* the set keys_down *)
}.

Definition main_init : Loop := mkLoop Game.init false [].

Definition holds (key : Key) (keys : list Key) : bool :=
  if in_dec Key_eq_dec key keys then true else false.

Definition keys_add (key : Key) (keys : list Key) : list Key :=
  if holds key keys then keys else key :: keys.

Definition keys_discard (key : Key) (keys : list Key) : list Key :=
  remove Key_eq_dec key keys.

Definition on_keydown (key : Key) (l : Loop) : Loop :=
  let keys := keys_add key (keys_down l) in
  let g := game l in
  match Game.state g with
  | PLAYING =>
      match key with
      | K_r => mkLoop (Game.reload g) (mouse_locked l) keys
      | K_1 => mkLoop (Game.set_current_weapon Pistol g) (mouse_locked l) keys
      | K_2 => mkLoop (Game.set_current_weapon Rifle g) (mouse_locked l) keys
      | K_3 => mkLoop (Game.set_current_weapon Shotgun g) (mouse_locked l) keys
      | K_p | K_ESCAPE => mkLoop (Game.set_state PAUSED g) false keys
      | _ => mkLoop g (mouse_locked l) keys
      end
  | PAUSED =>
      match key with
      | K_p | K_ESCAPE => mkLoop (Game.set_state PLAYING g) true keys
      | K_m => mkLoop (Game.set_state MENU g) false keys
      | _ => mkLoop g (mouse_locked l) keys
      end
  | _ => mkLoop g (mouse_locked l) keys
  end.

Definition on_mousebuttondown (button mx my : Z) (l : Loop) : M Loop :=
  let g := game l in
  match Game.state g with
  | MENU =>
      if ((440 <=? mx) && (mx <=? 840) && (300 <=? my) && (my <=? 380))%Z then
        g <- Game.start_game Target g ;;
        ret (mkLoop g true (keys_down l))
      else if ((440 <=? mx) && (mx <=? 840) && (420 <=? my) && (my <=? 500))%Z then
        g <- Game.start_game Survival g ;;
        ret (mkLoop g true (keys_down l))
      else ret l
  | PLAYING =>
      if (button =? 1)%Z then
        g <- Game.shoot g ;;
        ret (mkLoop g (mouse_locked l) (keys_down l))
      else ret l
  | _ => ret l
  end.

Definition on_mousemotion (dx dy : Z) (l : Loop) : Loop :=
  if mouse_locked l then
    let c := Game.camera (game l) in
    let yaw := Camera.yaw c + IZR dx * MOUSE_SENSITIVITY in
    let pitch := Camera.pitch c - IZR dy * MOUSE_SENSITIVITY in
    let pitch := Rmax (-89) (Rmin 89 pitch) in
    mkLoop (Game.set_camera (Camera.mk (Camera.position c) yaw pitch) (game l))
           (mouse_locked l) (keys_down l)
  else l.

(** The player movement at the end of a pass. *)
Definition move_player (dt : R) (keys : list Key) (g : Game.t) : M Game.t :=
  match Game.state g with
  | PLAYING =>
      forward <- lift (Camera.get_forward (Game.camera g)) ;;
      right <- lift (Camera.get_right (Game.camera g)) ;;
      let flat := Vector3.mk (Vector3.x forward) 0 (Vector3.z forward) in
      let move := Vector3.mk 0 0 0 in
      let move := if holds K_w keys then Vector3.add move flat else move in
      let move := if holds K_s keys then Vector3.sub move flat else move in
      let move := if holds K_a keys then Vector3.sub move right else move in
      let move := if holds K_d keys then Vector3.add move right else move in
      if Rgt_dec (Vector3.length move) 0 then
        n <- lift (Vector3.normalize move) ;;
        let move := Vector3.mul (Vector3.mul n MOVE_SPEED) dt in
        let c := Game.camera g in
        ret (Game.set_camera
               (Camera.set_position (Vector3.add (Camera.position c) move) c) g)
      else ret g
  | _ => ret g
  end.

Definition step (i : Input) (l : Loop) : M Loop :=
  match i with
  | KEYDOWN key => ret (on_keydown key l)
  | KEYUP key => ret (mkLoop (game l) (mouse_locked l) (keys_discard key (keys_down l)))
  | MOUSEBUTTONDOWN button mx my => on_mousebuttondown button mx my l
  | MOUSEMOTION dx dy => ret (on_mousemotion dx dy l)
  | TICK dt =>
      g <- Game.update dt (game l) ;;
      g <- move_player dt (keys_down l) g ;;
      ret (mkLoop g (mouse_locked l) (keys_down l))
  end.

Fixpoint run (inputs : list Input) (l : Loop) : M Loop :=
  match inputs with
  | [] => ret l
  | i :: rest => l' <- step i l ;; run rest l'
  end.

(** * Notions used to state the properties *)

(** The value of [normalize], which is always defined. *)
Definition unit_of (v : Vector3.t) : Vector3.t :=
  let l := Vector3.length v in
  if Rgt_dec l 0
  then Vector3.mk (Vector3.x v / l) (Vector3.y v / l) (Vector3.z v / l)
  else Vector3.mk 0 0 0.

(** [m] raises nothing and its result satisfies [Q], which relates the
    oracle before, the value and the oracle after. *)
Definition returns {A : Type} (m : M A) (Q : Env -> A -> Env -> Prop) : Prop :=
  forall s, exists a s', m s = Some (a, s') /\ Q s a s'.

(** From [s] to [s'] the streams are the same and [n] waves were spawned. *)
Definition spawned (n : nat) (s s' : Env) : Prop :=
  floats s' = floats s /\ picks s' = picks s
  /\ waves_spawned s' = (waves_spawned s + n)%nat.

(** The projection of (position - origin) onto the direction. *)
Definition projection (origin direction : Vector3.t) (e : Enemy.t) : R :=
  Vector3.dot (Vector3.sub (Enemy.position e) origin) direction.

(** The distance that [raycast] compares with the size: from the point
    of the ray at the projection to the centre of the enemy. *)
Definition ray_distance (origin direction : Vector3.t) (e : Enemy.t) : R :=
  Vector3.length
    (Vector3.sub
       (Vector3.add origin (Vector3.mul direction (projection origin direction e)))
       (Enemy.position e)).

(** The test of the loop: the enemy may replace the closest one. *)
Definition in_reach (origin direction : Vector3.t) (e : Enemy.t) : Prop :=
  Enemy.alive e = true
  /\ 0 <= projection origin direction e
  /\ ray_distance origin direction e < Enemy.size e.

(** [r] is the first enemy of [all], by index, among those in reach
    whose projection is least; [None] when no enemy is in reach. *)
Definition best (origin direction : Vector3.t) (all : list Enemy.t)
           (r : option (nat * Enemy.t)) : Prop :=
  match r with
  | None => forall k e', nth_error all k = Some e' -> ~ in_reach origin direction e'
  | Some (j, e) =>
      nth_error all j = Some e /\ in_reach origin direction e
      /\ forall k e', nth_error all k = Some e' -> in_reach origin direction e' ->
                      projection origin direction e <= projection origin direction e'
                      /\ ((k < j)%nat ->
                          projection origin direction e < projection origin direction e')
  end.

(** The closest distance kept by the loop is the projection of the enemy
    kept, and is [float('inf')] while none is. *)
Definition dist_of (origin direction : Vector3.t)
           (r : option (nat * Enemy.t)) (cd : option R) : Prop :=
  match r, cd with
  | None, None => True
  | Some (_, e), Some p => p = projection origin direction e
  | _, _ => False
  end.

(** The cross product, and the perpendicular distance of a point from the
    line through [origin] along a direction of length 1. *)
Definition cross (a b : Vector3.t) : Vector3.t :=
  Vector3.mk (Vector3.y a * Vector3.z b - Vector3.z a * Vector3.y b)
             (Vector3.z a * Vector3.x b - Vector3.x a * Vector3.z b)
             (Vector3.x a * Vector3.y b - Vector3.y a * Vector3.x b).

Definition perp_dist (origin direction p : Vector3.t) : R :=
  Vector3.length (cross (Vector3.sub p origin) direction).

(** A candidate of the ray cast, in the words of the specification. *)
Definition candidate (origin direction : Vector3.t) (e : Enemy.t) : Prop :=
  Enemy.alive e = true
  /\ 0 <= projection origin direction e
  /\ perp_dist origin direction (Enemy.position e) < Enemy.size e.

(** [g'] is [g] but for the particles. *)
Definition only_particles (g g' : Game.t) : Prop :=
  g' = Game.set_particles (Game.particles g') g.

(** [g'] is [g] but for the enemies, the particles, the score, the kill
    count and the kill feed. *)
Definition combat_frame (g g' : Game.t) : Prop :=
  g' = Game.set_kill_feed (Game.kill_feed g')
         (Game.set_kills (Game.kills g')
            (Game.set_score (Game.score g')
               (Game.set_particles (Game.particles g')
                  (Game.set_enemies (Game.enemies g') g)))).

(** The sum of the health of the enemies. *)
Definition total_health (es : list Enemy.t) : Z :=
  fold_right Z.add 0%Z (map Enemy.health es).

(** What one pellet of damage [dmg] does: it misses, or it hits one alive
    enemy of the list, which loses [dmg] health and counts as a kill when
    [hit] says so. *)
Definition pellet_effect (dmg : Z) (g g' : Game.t) : Prop :=
  combat_frame g g'
  /\ ((Game.enemies g' = Game.enemies g /\ Game.kills g' = Game.kills g)
      \/ exists j e,
           nth_error (Game.enemies g) j = Some e
           /\ Enemy.alive e = true
           /\ Game.enemies g' = set_nth j (fst (Enemy.hit dmg e)) (Game.enemies g)
           /\ Game.kills g' = (Game.kills g + (if snd (Enemy.hit dmg e) then 1 else 0))%Z).

(** After [k] pellets: [hits] of them hit, each taking [dmg] health from
    the enemies, and at most [hits] enemies were killed. *)
Definition volley_effect (dmg : Z) (k : nat) (g g' : Game.t) : Prop :=
  combat_frame g g'
  /\ exists hits : Z,
       (0 <= hits <= Z.of_nat k)%Z
       /\ total_health (Game.enemies g')
          = (total_health (Game.enemies g) - dmg * hits)%Z
       /\ (Game.kills g <= Game.kills g' <= Game.kills g + hits)%Z.

(** The value of [get_forward], and the direction of the pellet fired
    from camera [c] with the next two draws of [s]. *)
Definition forward_of (c : Camera.t) : Vector3.t :=
  unit_of (Vector3.mk (sin (radians (Camera.yaw c)) * cos (radians (Camera.pitch c)))
                      (sin (radians (Camera.pitch c)))
                      (- cos (radians (Camera.yaw c)) * cos (radians (Camera.pitch c)))).

Definition pellet_direction (config : WeaponConfig) (c : Camera.t) (s : Env) : Vector3.t :=
  let sp := spread config in
  unit_of (Vector3.mk
             (Vector3.x (forward_of c) + (- sp + (sp - - sp) * floats s (cursor s)))
             (Vector3.y (forward_of c) + (- sp + (sp - - sp) * floats s (S (cursor s))))
             (Vector3.z (forward_of c))).

(** The state after pellet hit enemy [e] at index [i], before the
    explosion when it is a kill. *)
Definition after_hit (config : WeaponConfig) (i : nat) (e : Enemy.t) (g : Game.t) : Game.t :=
  let e' := fst (Enemy.hit (damage config) e) in
  let g := Game.set_enemies (set_nth i e' (Game.enemies g)) g in
  if snd (Enemy.hit (damage config) e) then
    Game.add_kill_feed ("Eliminated " ++ title (Enemy.enemy_type e') ++ " Enemy")
      (Game.set_kills (Game.kills g + 1)
         (Game.set_score (Game.score g + Enemy.score e') g))
  else g.

(** The selected weapon accepts a fire intent. *)
Definition ready (g : Game.t) : Prop :=
  let weapon_data := lookup (Game.weapons g) (Game.current_weapon g) in
  ~ cooldown weapon_data > 0 /\ ~ reloading weapon_data > 0
  /\ (0 < ammo weapon_data)%Z.

(** What [shoot] does before its pellet loop: nothing when the intent is
    rejected. *)
Definition fired (g : Game.t) : Game.t :=
  let weapon_data := lookup (Game.weapons g) (Game.current_weapon g) in
  let config := WEAPONS (Game.current_weapon g) in
  if Rgt_dec (cooldown weapon_data) 0 then g
  else if Rgt_dec (reloading weapon_data) 0 then g
  else if (ammo weapon_data <=? 0)%Z then g
  else Game.screen_shake (15 / 100)
         (Game.set_weapon (Game.current_weapon g)
            (mkData (ammo weapon_data - 1) (reserve weapon_data)
                    (fire_rate config) (reloading weapon_data)) g).

(** The part of the game that drives the weapon state machine. *)
Definition same_control (g h : Game.t) : Prop :=
  Game.state g = Game.state h
  /\ Game.current_weapon g = Game.current_weapon h
  /\ Game.weapons g = Game.weapons h.

(** What [start_game] does to that part. *)
Definition restarted (g : Game.t) : Game.t :=
  Game.set_current_weapon Pistol
    (Game.set_weapons initial_weapons (Game.set_state PLAYING g)).

(** The weapon machine: what an input does to the state of the game, to
    the selected weapon and to the weapon dicts, read off [step]. *)
Definition control_step (i : Input) (g : Game.t) : Game.t :=
  match i with
  | KEYDOWN key => game (on_keydown key (mkLoop g false []))
  | KEYUP _ => g
  | MOUSEBUTTONDOWN button mx my =>
      match Game.state g with
      | MENU =>
          if ((440 <=? mx) && (mx <=? 840) && (300 <=? my) && (my <=? 380))%Z
          then restarted g
          else if ((440 <=? mx) && (mx <=? 840) && (420 <=? my) && (my <=? 500))%Z
          then restarted g
          else g
      | PLAYING => if (button =? 1)%Z then fired g else g
      | _ => g
      end
  | MOUSEMOTION _ _ => g
  | TICK dt =>
      match Game.state g with
      | PLAYING => Game.auto_reload (fold_left (Game.tick_weapon dt) weapon_keys g)
      | _ => g
      end
  end.

Definition control_run (inputs : list Input) (g : Game.t) : Game.t :=
  fold_left (fun h i => control_step i h) inputs g.

(** [g'] is [g] with more enemies, one more line in the kill feed and the
    next size of wave. *)
Definition wave_frame (g g' : Game.t) : Prop :=
  g' = Game.set_enemies_per_wave (Game.enemies_per_wave g + 2)
         (Game.set_enemies (Game.enemies g')
            (Game.add_kill_feed ("Wave " ++ str (Game.wave g) ++ " Starting!") g)).

(** [g'] is [g] but for the weapon dicts. *)
Definition only_weapons (g g' : Game.t) : Prop :=
  g' = Game.set_weapons (Game.weapons g') g.

(** What [start_game] resets, whatever the mode. *)
Definition session_reset (mode : Mode) (g' : Game.t) : Prop :=
  Game.state g' = PLAYING
  /\ Game.game_mode g' = Some mode
  /\ Game.score g' = 0%Z
  /\ Game.kills g' = 0%Z
  /\ Game.player_health g' = 100%Z
  /\ Game.particles g' = []
  /\ Game.weapons g' = initial_weapons
  /\ Game.current_weapon g' = Pistol
  /\ Game.camera g' = Camera.init.

(** The magazine of every weapon is within [0, max_ammo] and no reserve
    is negative. *)
Definition ammo_in_range (g : Game.t) : Prop :=
  forall k : WeaponKind,
    (0 <= ammo (lookup (Game.weapons g) k) <= max_ammo (WEAPONS k))%Z
    /\ (0 <= reserve (lookup (Game.weapons g) k))%Z.

(** Every tick of [inputs] has [0 <= dt <= D]. *)
Definition ticks_within (D : R) (inputs : list Input) : Prop :=
  Forall (fun i => match i with TICK dt => 0 <= dt <= D | _ => True end) inputs.

(** No timer of a weapon is below [- D]. *)
Definition timers_above (D : R) (g : Game.t) : Prop :=
  forall k : WeaponKind,
    - D <= cooldown (lookup (Game.weapons g) k)
    /\ - D <= reloading (lookup (Game.weapons g) k).

(** The reload timer of the selected weapon. *)
Definition selected_reloading (g : Game.t) : R :=
  reloading (lookup (Game.weapons g) (Game.current_weapon g)).

(** An oracle for the examples: every draw of [random()] is 1/2. *)
Definition quiet_env : Env := mkEnv (fun _ => 1 / 2) (fun _ => 0%nat) 0 0.

(** Click on the first button of the menu, fire once, let one second pass. *)
Definition undershoot_inputs : list Input :=
  [MOUSEBUTTONDOWN 1 600 340; MOUSEBUTTONDOWN 1 600 340; TICK 1].

(** Start target practice, fire the pistol once, press R to reload it,
    press 2 to select the rifle, and let two seconds pass. *)
Definition reload_switch_inputs : list Input :=
  [MOUSEBUTTONDOWN 1 600 340; MOUSEBUTTONDOWN 1 600 340;
   KEYDOWN K_r; KEYDOWN K_2; TICK 2].

(** Start a survival session, pause it, go back to the menu, and start a
    survival session again. *)
Definition second_session_inputs : list Input :=
  [MOUSEBUTTONDOWN 1 600 460; KEYDOWN K_p; KEYDOWN K_m; MOUSEBUTTONDOWN 1 600 460].

(** Examples for the ray cast: the eye of the fresh camera, looking along
    -z, and a game whose only enemy is [e]. *)
Definition eye : Vector3.t := Vector3.mk 0 2 0.

Definition ahead : Vector3.t := Vector3.mk 0 0 (-1).

Definition lone (e : Enemy.t) : Game.t := Game.set_enemies [e] Game.init.

Definition enemy_ahead : Enemy.t := Enemy.new (Vector3.mk 0 2 (-5)) Normal.

Definition enemy_aside : Enemy.t := Enemy.new (Vector3.mk 2 2 (-5)) Normal.

Definition enemy_behind : Enemy.t := Enemy.new (Vector3.mk 0 2 5) Normal.

(** A session of target practice in which the pistol was just fired: its
    cooldown is 0.3. *)
Definition cooling_game : Game.t :=
  Game.set_weapon Pistol (mkData 11 36 (3 / 10) 0)
    (Game.set_game_mode (Some Target) (restarted Game.init)).

(** The enemies of [live] stand one behind the other along the ray: each
    is in reach, dies of one hit of [dmg], and is no farther along the ray
    than those after it in the list. *)
Fixpoint lined_up (origin direction : Vector3.t) (dmg : Z) (live : list Enemy.t) : Prop :=
  match live with
  | [] => True
  | e :: rest =>
      in_reach origin direction e
      /\ (Enemy.health e - dmg <= 0)%Z
      /\ (forall e', In e' rest ->
                     projection origin direction e <= projection origin direction e')
      /\ lined_up origin direction dmg rest
  end.

(** The enemy after [n] hits of [dmg]. *)
Fixpoint worn (n : nat) (dmg : Z) (e : Enemy.t) : Enemy.t :=
  match n with
  | O => e
  | S m => worn m dmg (fst (Enemy.hit dmg e))
  end.

(** A tank at distance [z] in front of the fresh camera, with [h] health
    left. *)
Definition tank_at (z : R) (h : Z) : Enemy.t :=
  Enemy.mk (Vector3.mk 0 1 (- z)) Tank true h 150 (5 / 10) (15 / 10) (5 / 10, 0, 1)
           15 0 None.

(** The player holds the shotgun, untouched since the start of a survival
    session, and the enemies are [es]. *)
Definition shotgun_game (es : list Enemy.t) : Game.t :=
  Game.set_enemies es
    (Game.set_current_weapon Shotgun
       (Game.set_game_mode (Some Survival) (restarted Game.init))).

(** Six tanks with 20 health left, in a column in front of the player. *)
Definition ambush : Game.t :=
  shotgun_game [tank_at 5 20; tank_at 6 20; tank_at 7 20;
                tank_at 8 20; tank_at 9 20; tank_at 10 20].

(** One tank with its full 150 health in front of the player. *)
Definition duel : Game.t := shotgun_game [tank_at 5 150].

(** The two halves of a tick of a running game, read off [update]: after
    the enemies were updated to [es], the lists are trimmed and the timers
    run ([settled]); then the enemies are replenished ([replenish]). *)
Definition settled (dt : R) (es : list Enemy.t) (g : Game.t) : Game.t :=
  let g := Game.auto_reload (fold_left (Game.tick_weapon dt) weapon_keys g) in
  let g := Game.set_enemies (filter Enemy.alive es) g in
  let g := Game.set_particles
             (filter Particle.alive (map (Particle.update dt) (Game.particles g))) g in
  let g := Game.set_kill_feed
             (filter (fun item => if Rgt_dec (time item) 0 then true else false)
                (map (fun item => mkItem (message item) (time item - dt))
                     (Game.kill_feed g))) g in
  if Rgt_dec (Game.shake_timer g) 0
  then Game.set_shake_timer (Game.shake_timer g - dt) g else g.

Definition replenish (g : Game.t) : M Game.t :=
  match Game.game_mode g, Game.enemies g with
  | Some Survival, [] => Game.spawn_wave (Game.set_wave (Game.wave g + 1) g)
  | Some Target, [] => ret (Game.spawn_targets g)
  | _, _ => ret g
  end.

(** The kill feed after a tick of [dt], before any announcement. *)
Definition aged_feed (dt : R) (feed : list FeedItem) : list FeedItem :=
  filter (fun item => if Rgt_dec (time item) 0 then true else false)
         (map (fun item => mkItem (message item) (time item - dt)) feed).

(** Every draw of [random()] is in [0, 1]. *)
Definition unit_draws (s : Env) : Prop := forall n : nat, 0 <= floats s n <= 1.

(** A running session with one spark in the air and one line in the kill
    feed. *)
Definition smoking_game : Game.t :=
  Game.add_kill_feed "Eliminated Normal Enemy"
    (Game.set_particles [Particle.new eye ahead (1, 0, 0) (1 / 2)] cooling_game).

(** An enemy as its constructor makes it, and a place where [spawn_wave]
    puts one: at height 1, between 10 and 20 from the origin on the
    ground. *)
Definition fresh (e : Enemy.t) : Prop := exists pos ty, e = Enemy.new pos ty.

Definition spawn_spot (pos : Vector3.t) : Prop :=
  Vector3.y pos = 1
  /\ 10 <= Vector3.length (Vector3.mk (Vector3.x pos) 0 (Vector3.z pos)) <= 20.

(** A survival session whose last enemy was just killed. *)
Definition cleared_game : Game.t :=
  Game.set_enemies [fst (Enemy.hit 100 enemy_ahead)] (shotgun_game []).

(** No weapon holds more rounds, magazine and reserve together, than a
    session starts with: four magazines. *)
Definition within_stock (g : Game.t) : Prop :=
  forall k : WeaponKind,
    (ammo (lookup (Game.weapons g) k) + reserve (lookup (Game.weapons g) k)
     <= 4 * max_ammo (WEAPONS k))%Z.

(** The dict of the selected weapon. *)
Definition selected (g : Game.t) : WeaponData :=
  lookup (Game.weapons g) (Game.current_weapon g).

(** A session of target practice in which the magazine of the pistol was
    just emptied. *)
Definition dry_game : Game.t :=
  Game.set_weapon Pistol (mkData 0 36 0 0)
    (Game.set_game_mode (Some Target) (restarted Game.init)).

(** The time that a list of ticks takes. *)
Definition elapsed (dts : list R) : R := fold_right Rplus 0 dts.

(** A session of target practice with every weapon as the start leaves
    it, and nothing in the arena. *)
Definition practice_game : Game.t :=
  Game.set_game_mode (Some Target) (restarted Game.init).

(** What the loop of [main] keeps true of the player: full health, no
    game over, the eye at height 2, the pitch within its clamp, and the
    mouse captured exactly while a session runs. *)
Definition steady (l : Loop) : Prop :=
  Game.player_health (game l) = 100%Z
  /\ Game.state (game l) <> GAME_OVER
  /\ Vector3.y (Camera.position (Game.camera (game l))) = 2
  /\ -89 <= Camera.pitch (Game.camera (game l)) <= 89
  /\ (mouse_locked l = true <-> Game.state (game l) = PLAYING).


(** A spark of an explosion at [p] as [create_explosion] makes it, and
    the ranges of what it draws for it. *)
Definition spark (p : Vector3.t) (q : Particle.t) : Prop :=
  Particle.position q = p
  /\ Particle.alive q = true
  /\ Particle.lifetime q = Particle.max_lifetime q
  /\ In (Particle.color q) Game.explosion_colors.

Definition spark_ranges (q : Particle.t) : Prop :=
  3 / 10 <= Particle.lifetime q <= 7 / 10
  /\ -3 <= Vector3.x (Particle.velocity q) <= 3
  /\ 0 <= Vector3.y (Particle.velocity q) <= 3
  /\ -3 <= Vector3.z (Particle.velocity q) <= 3.

(** The number of enemies alive. *)
Definition alive_count (es : list Enemy.t) : nat :=
  List.length (filter Enemy.alive es).

(** The books of a shot, from [g] to [g']: with [k] the kills counted, no
    enemy left the list, [k] fewer are alive, and 15 sparks and one line
    of the kill feed were added for each. *)
Definition tally (g g' : Game.t) : Prop :=
  (Game.kills g <= Game.kills g')%Z
  /\ List.length (Game.enemies g') = List.length (Game.enemies g)
  /\ (alive_count (Game.enemies g') + Z.to_nat (Game.kills g' - Game.kills g))%nat
     = alive_count (Game.enemies g)
  /\ List.length (Game.particles g')
     = (List.length (Game.particles g) + 15 * Z.to_nat (Game.kills g' - Game.kills g))%nat
  /\ List.length (Game.kill_feed g')
     = (List.length (Game.kill_feed g) + Z.to_nat (Game.kills g' - Game.kills g))%nat.

(** An enemy as its constructor makes it at height 1. *)
Definition grounded (e : Enemy.t) : Prop :=
  exists x z ty, e = Enemy.new (Vector3.mk x 1 z) ty.

(** An enemy in good order: it stands at height 1, has the stats of its
    kind as the constructor sets them, no more health than its maximum,
    and is alive exactly while its health is positive. *)
Definition kind_stats (e : Enemy.t) : Prop :=
  let k := Enemy.new (Enemy.position e) (Enemy.enemy_type e) in
  Enemy.max_health e = Enemy.max_health k
  /\ Enemy.speed e = Enemy.speed k
  /\ Enemy.size e = Enemy.size k
  /\ Enemy.color e = Enemy.color k
  /\ Enemy.score e = Enemy.score k.

Definition sound (e : Enemy.t) : Prop :=
  Vector3.y (Enemy.position e) = 1
  /\ kind_stats e
  /\ (Enemy.health e <= Enemy.max_health e)%Z
  /\ (Enemy.alive e = true <-> (0 < Enemy.health e)%Z).

(** The arena in good order: every enemy is, the score is within 5 and 15
    points a kill, and in target practice every enemy is a normal one and
    the score is 10 points a kill. *)
Definition arena_of (es : list Enemy.t) (score kills : Z) (mode : option Mode) : Prop :=
  Forall sound es
  /\ (5 * kills <= score <= 15 * kills)%Z
  /\ (mode = Some Target ->
      Forall (fun e => Enemy.enemy_type e = Normal) es /\ score = (10 * kills)%Z).

Definition arena (g : Game.t) : Prop :=
  arena_of (Game.enemies g) (Game.score g) (Game.kills g) (Game.game_mode g).

(** Weapon [k] is the selected one and holds [x] rounds in its magazine
    and [y] in reserve. *)
Definition holds_stock (k : WeaponKind) (x y : Z) (g : Game.t) : Prop :=
  Game.current_weapon g = k
  /\ ammo (lookup (Game.weapons g) k) = x
  /\ reserve (lookup (Game.weapons g) k) = y.

(** The magazine of weapon [k] after a reload from [a] rounds with [r] in
    reserve. *)
Definition refilled (k : WeaponKind) (a r : Z) : Z :=
  Z.min (max_ammo (WEAPONS k)) (a + r).

(** The reload of weapon [k], from [a] rounds and [r] in reserve, is under
    way and ends within [dt], or it is over. *)
Definition reload_pending (k : WeaponKind) (a r : Z) (dt : R) (g : Game.t) : Prop :=
  holds_stock k a r g /\ 0 < reloading (lookup (Game.weapons g) k) <= dt.

Definition reload_over (k : WeaponKind) (a r : Z) (g : Game.t) : Prop :=
  holds_stock k (refilled k a r) (a + r - refilled k a r) g
  /\ reloading (lookup (Game.weapons g) k) = 0.

(** A session of target practice in which the reload of the pistol, with
    5 rounds left, has 1.5 seconds to go. *)
Definition reloading_game : Game.t :=
  Game.set_weapon Pistol (mkData 5 36 0 (15 / 10)) practice_game.

(** Two enemies at the same place in front of the fresh camera. *)
Definition twins : Game.t := Game.set_enemies [enemy_ahead; enemy_ahead] Game.init.

(** The distance on the ground, heights left out, from [b] to [a]. *)
Definition ground_distance (a b : Vector3.t) : R :=
  Vector3.length (Vector3.mk (Vector3.x (Vector3.sub a b)) 0
                             (Vector3.z (Vector3.sub a b))).

(** An enemy on its way to a target 4 away on the ground. *)
Definition marching : Enemy.t :=
  Enemy.set_timer 0 (Some (Vector3.mk 0 1 (-1))) enemy_ahead.

(** A spark flying up and sideways, with half a second to live. *)
Definition rising_spark : Particle.t :=
  Particle.new eye (Vector3.mk 1 3 0) (1, 0, 0) (1 / 2).

(** The particle after [n] updates of [dt]. *)
Fixpoint flown (n : nat) (dt : R) (p : Particle.t) : Particle.t :=
  match n with
  | O => p
  | S m => Particle.update dt (flown m dt p)
  end.

(** In a running game weapon [k] is selected, holds [a] rounds and [r] in
    reserve, has [t] on its reload timer, and no other weapon is
    reloading. *)
Definition reloading_alone (k : WeaponKind) (a r : Z) (t : R) (g : Game.t) : Prop :=
  Game.state g = PLAYING
  /\ holds_stock k a r g
  /\ reloading (lookup (Game.weapons g) k) = t
  /\ forall j, j <> k -> ~ reloading (lookup (Game.weapons g) j) > 0.

(** A session of target practice with 5 rounds left in the pistol. *)
Definition half_loaded_game : Game.t :=
  Game.set_weapon Pistol (mkData 5 36 0 0) practice_game.

(** The arena is stocked: the size of the next wave is at least 5 and,
    out of the menu, a mode is set and the list of enemies is not empty. *)
Definition stocked (g : Game.t) : Prop :=
  (5 <= Game.enemies_per_wave g)%Z
  /\ (Game.state g <> MENU ->
      Game.game_mode g <> None /\ Game.enemies g <> []).

(** * Properties *)

(** ** Vectors: [normalize] never divides by zero *)

Lemma sum_squares_nonneg (a b c : R) : 0 <= a ^ 2 + b ^ 2 + c ^ 2.
Proof. nra. Qed.

Lemma length_square (v : Vector3.t) :
  Vector3.length v * Vector3.length v
  = Vector3.x v ^ 2 + Vector3.y v ^ 2 + Vector3.z v ^ 2.
Proof. unfold Vector3.length. apply sqrt_sqrt, sum_squares_nonneg. Qed.


Lemma py_div_nonzero (a b : R) : b <> 0 -> py_div a b = Some (a / b).
Proof. intro Hb. unfold py_div. destruct (Req_dec_T b 0); [contradiction | reflexivity]. Qed.

Lemma normalize_some (v : Vector3.t) : Vector3.normalize v = Some (unit_of v).
Proof.
  unfold Vector3.normalize, unit_of.
  destruct (Rgt_dec (Vector3.length v) 0) as [Hpos | Hnot]; [ | reflexivity].
  assert (Hne : Vector3.length v <> 0) by lra.
  rewrite !(py_div_nonzero _ _ Hne). reflexivity.
Qed.

Lemma normalize_unit (v : Vector3.t) :
  Vector3.length v = 1 -> Vector3.normalize v = Some v.
Proof.
  intro H1. rewrite normalize_some. unfold unit_of. rewrite H1.
  destruct (Rgt_dec 1 0) as [_ | Hn]; [ | lra].
  destruct v as [a b c]; simpl. f_equal. f_equal; field.
Qed.

Lemma get_forward_some (c : Camera.t) : exists f, Camera.get_forward c = Some f.
Proof. unfold Camera.get_forward. rewrite normalize_some. eauto. Qed.

Lemma get_right_some (c : Camera.t) : exists r, Camera.get_right c = Some r.
Proof.
  unfold Camera.get_right. destruct (get_forward_some c) as [f ->].
  rewrite normalize_some. eauto.
Qed.

(** ** Computations in [M]: results and what they do to the oracle *)

Lemma spawned_refl (s : Env) : spawned 0 s s.
Proof. unfold spawned. auto with arith. Qed.

Lemma spawned_trans (n m : nat) (s1 s2 s3 : Env) :
  spawned n s1 s2 -> spawned m s2 s3 -> spawned (n + m) s1 s3.
Proof.
  unfold spawned. intros (Hf & Hp & Hw) (Hf' & Hp' & Hw').
  repeat split; try congruence. lia.
Qed.

Lemma returns_ret {A : Type} (a : A) (Q : Env -> A -> Env -> Prop) :
  (forall s, Q s a s) -> returns (ret a) Q.
Proof. intros H s. exists a, s. split; [reflexivity | apply H]. Qed.

Lemma returns_bind {A B : Type} (m : M A) (k : A -> M B)
      (P : Env -> A -> Env -> Prop) (Q : Env -> B -> Env -> Prop) :
  returns m P ->
  (forall s a s1, P s a s1 ->
     exists b s2, k a s1 = Some (b, s2) /\ Q s b s2) ->
  returns (bind m k) Q.
Proof.
  intros Hm Hk s. destruct (Hm s) as (a & s1 & Hrun & HP).
  destruct (Hk s a s1 HP) as (b & s2 & Hrun' & HQ).
  exists b, s2. split; [ | exact HQ]. unfold bind. rewrite Hrun. exact Hrun'.
Qed.

Lemma returns_weaken {A : Type} (m : M A) (P Q : Env -> A -> Env -> Prop) :
  returns m P -> (forall s a s', P s a s' -> Q s a s') -> returns m Q.
Proof.
  intros Hm HPQ s. destruct (Hm s) as (a & s' & Hrun & HP). eauto.
Qed.

(** A [for] loop of [n] turns: [I k a b] relates the start [a] to the
    value [b] after [k] turns. *)
Lemma returns_repeatM {A : Type} (body : A -> M A) (I : nat -> A -> A -> Prop) (a : A) :
  I 0%nat a a ->
  (forall k b, I k a b ->
     returns (body b) (fun s c s' => I (S k) a c /\ spawned 0 s s')) ->
  forall n, returns (repeatM n body a) (fun s b s' => I n a b /\ spawned 0 s s').
Proof.
  intros Hrefl Hbody n.
  enough (H : forall k b, I k a b ->
                returns (repeatM n body b)
                        (fun s c s' => I (k + n)%nat a c /\ spawned 0 s s'))
    by (apply (H 0%nat a Hrefl)).
  induction n as [ | n IH]; intros k b Hab; simpl.
  - apply returns_ret. intro s. rewrite Nat.add_0_r.
    split; [exact Hab | apply spawned_refl].
  - eapply returns_bind; [apply (Hbody k b Hab) | ].
    intros s c s1 [Hac Hs1].
    destruct (IH (S k) c Hac s1) as (e & s2 & Hrun & Hae & Hs2).
    exists e, s2. split; [exact Hrun | split].
    + replace (k + S n)%nat with (S k + n)%nat by lia. exact Hae.
    + apply (spawned_trans 0 0 s s1 s2); assumption.
Qed.

(** ** The ray cast *)

Section Raycast.

Variables origin direction : Vector3.t.

Lemma nth_error_snoc {A : Type} (pre : list A) (a : A) (k : nat) (b : A) :
  nth_error (pre ++ [a]) k = Some b ->
  nth_error pre k = Some b \/ (k = List.length pre /\ b = a).
Proof.
  intro H. destruct (Nat.lt_ge_cases k (List.length pre)) as [Hlt | Hge].
  - left. rewrite nth_error_app1 in H by exact Hlt. exact H.
  - right. rewrite nth_error_app2 in H by exact Hge.
    destruct (k - List.length pre)%nat as [ | m] eqn:Hk; simpl in H.
    + split; [lia | congruence].
    + destruct m; discriminate.
Qed.

Lemma best_skip (pre : list Enemy.t) (a : Enemy.t) (r : option (nat * Enemy.t)) :
  best origin direction pre r -> ~ in_reach origin direction a ->
  best origin direction (pre ++ [a]) r.
Proof.
  intros Hbest Hout. destruct r as [[j e] | ]; simpl in *.
  - destruct Hbest as (Hj & Hin & Hmin). split; [ | split; [exact Hin | ]].
    + rewrite nth_error_app1; [exact Hj | ].
      apply nth_error_Some. congruence.
    + intros k e' Hk Hreach.
      destruct (nth_error_snoc _ _ _ _ Hk) as [Hpre | [_ ->]].
      * apply (Hmin k e' Hpre Hreach).
      * contradiction.
  - intros k e' Hk Hreach.
    destruct (nth_error_snoc _ _ _ _ Hk) as [Hpre | [_ ->]].
    + apply (Hbest k e' Hpre Hreach).
    + contradiction.
Qed.

Lemma best_take (pre : list Enemy.t) (a : Enemy.t) (r : option (nat * Enemy.t)) :
  best origin direction pre r -> in_reach origin direction a ->
  (forall j e, r = Some (j, e) ->
               projection origin direction a < projection origin direction e) ->
  best origin direction (pre ++ [a]) (Some (List.length pre, a)).
Proof.
  intros Hbest Hin Hless. simpl. split; [ | split; [exact Hin | ]].
  - rewrite nth_error_app2 by lia. rewrite Nat.sub_diag. reflexivity.
  - intros k e' Hk Hreach.
    destruct (nth_error_snoc _ _ _ _ Hk) as [Hpre | [-> ->]].
    + destruct r as [[j e] | ]; simpl in Hbest.
      * destruct Hbest as (_ & _ & Hmin).
        destruct (Hmin k e' Hpre Hreach) as [Hle _].
        specialize (Hless j e eq_refl). split; [lra | intros _; lra].
      * exfalso. apply (Hbest k e' Hpre Hreach).
    + split; [lra | lia].
Qed.

Lemma best_keep (pre : list Enemy.t) (a : Enemy.t) (j : nat) (e : Enemy.t) :
  best origin direction pre (Some (j, e)) ->
  ~ projection origin direction a < projection origin direction e ->
  best origin direction (pre ++ [a]) (Some (j, e)).
Proof.
  intros (Hj & Hin & Hmin) Hnot. simpl.
  assert (Hlen : (j < List.length pre)%nat) by (apply nth_error_Some; congruence).
  split; [ | split; [exact Hin | ]].
  - rewrite nth_error_app1 by exact Hlen. exact Hj.
  - intros k e' Hk Hreach.
    destruct (nth_error_snoc _ _ _ _ Hk) as [Hpre | [-> ->]].
    + apply (Hmin k e' Hpre Hreach).
    + split; [lra | lia].
Qed.

Lemma raycast_from_best (es pre : list Enemy.t)
      (ce : option (nat * Enemy.t)) (cd : option R) :
  best origin direction pre ce -> dist_of origin direction ce cd ->
  best origin direction (pre ++ es)
       (Game.raycast_from origin direction es (List.length pre) ce cd).
Proof.
  revert pre ce cd.
  induction es as [ | a rest IH]; intros pre ce cd Hbest Hdist; simpl.
  - rewrite app_nil_r. exact Hbest.
  - assert (Hnext : forall ce' cd',
               best origin direction (pre ++ [a]) ce' -> dist_of origin direction ce' cd' ->
               best origin direction (pre ++ a :: rest)
                    (Game.raycast_from origin direction rest
                                       (S (List.length pre)) ce' cd')).
    { intros ce' cd' Hb Hd.
      replace (pre ++ a :: rest) with ((pre ++ [a]) ++ rest)
        by (rewrite <- app_assoc; reflexivity).
      replace (S (List.length pre)) with (List.length (pre ++ [a]))
        by (rewrite length_app; simpl; lia).
      apply IH; assumption. }
    destruct (Enemy.alive a) eqn:Halive; simpl.
    + fold (projection origin direction a).
      destruct (Rlt_dec (projection origin direction a) 0) as [Hneg | Hpos].
      * apply Hnext; [ | exact Hdist].
        apply best_skip; [exact Hbest | ]. intros (_ & H0 & _). lra.
      * fold (ray_distance origin direction a).
        destruct (Rlt_dec (ray_distance origin direction a) (Enemy.size a)) as [Hnear | Hfar].
        -- assert (Hin : in_reach origin direction a)
             by (repeat split; [exact Halive | lra | exact Hnear]).
           destruct cd as [p | ].
           ++ destruct ce as [[j e] | ]; simpl in Hdist; [subst p | contradiction].
              destruct (Rlt_dec (projection origin direction a)
                                (projection origin direction e)) as [Hlt | Hge].
              ** apply Hnext; [ | reflexivity].
                 apply (best_take pre a (Some (j, e))); [exact Hbest | exact Hin | ].
                 intros j' e' Heq. injection Heq as _ <-. exact Hlt.
              ** apply Hnext; [ | reflexivity].
                 apply best_keep; assumption.
           ++ destruct ce as [[j e] | ]; simpl in Hdist; [contradiction | ].
              apply Hnext; [ | reflexivity].
              apply (best_take pre a None); [exact Hbest | exact Hin | ].
              intros j e Heq. discriminate.
        -- apply Hnext; [ | exact Hdist].
           apply best_skip; [exact Hbest | ]. intros (_ & _ & H0). lra.
    + apply Hnext; [ | exact Hdist].
      apply best_skip; [exact Hbest | ]. intros (H0 & _). congruence.
Qed.

Lemma raycast_best (g : Game.t) :
  best origin direction (Game.enemies g) (Game.raycast g origin direction).
Proof.
  unfold Game.raycast.
  apply (raycast_from_best (Game.enemies g) [] None None); simpl; [ | exact I].
  intros k e' Hk. destruct k; discriminate.
Qed.

End Raycast.

(** ** Geometry of the test of [raycast] *)

Lemma unit_square (d : Vector3.t) :
  Vector3.length d = 1 ->
  Vector3.x d ^ 2 + Vector3.y d ^ 2 + Vector3.z d ^ 2 = 1.
Proof. intro H. rewrite <- length_square, H. ring. Qed.

(** For a direction of length 1 the distance computed by [raycast] is the
    perpendicular distance of the enemy from the line of the ray. *)
Lemma ray_distance_perp (origin direction : Vector3.t) (e : Enemy.t) :
  Vector3.length direction = 1 ->
  ray_distance origin direction e
  = perp_dist origin direction (Enemy.position e).
Proof.
  intro Hunit. apply unit_square in Hunit.
  unfold ray_distance, perp_dist, projection, Vector3.length.
  destruct origin as [ox oy oz], direction as [dx dy dz].
  destruct (Enemy.position e) as [px py pz].
  unfold cross, Vector3.dot, Vector3.sub, Vector3.add, Vector3.mul. simpl in *.
  f_equal.
  set (n := dx * (dx * 1) + dy * (dy * 1) + dz * (dz * 1)) in *.
  set (p := (px - ox) * dx + (py - oy) * dy + (pz - oz) * dz).
  set (w := (px - ox) * (px - ox) + (py - oy) * (py - oy) + (pz - oz) * (pz - oz)).
  transitivity (w * n - p * p + (1 - n) * (w - p * p)).
  - unfold n, p, w. ring.
  - replace (1 - n) with 0 by lra. unfold n, p, w. ring.
Qed.

Lemma in_reach_candidate (origin direction : Vector3.t) (e : Enemy.t) :
  Vector3.length direction = 1 ->
  (in_reach origin direction e <-> candidate origin direction e).
Proof.
  intro Hunit. unfold in_reach, candidate.
  rewrite (ray_distance_perp origin direction e Hunit). tauto.
Qed.

(** An enemy whose centre is the point of the ray at distance [d]. *)
Lemma on_axis (origin direction : Vector3.t) (e : Enemy.t) (d : R) :
  Vector3.length direction = 1 ->
  Enemy.position e = Vector3.add origin (Vector3.mul direction d) ->
  projection origin direction e = d /\ ray_distance origin direction e = 0.
Proof.
  intros Hunit Hpos. apply unit_square in Hunit.
  assert (Hproj : projection origin direction e = d).
  { unfold projection. rewrite Hpos.
    destruct origin as [ox oy oz], direction as [dx dy dz]. simpl in *.
    unfold Vector3.dot; simpl.
    transitivity (d * (dx * (dx * 1) + dy * (dy * 1) + dz * (dz * 1))); [ring | ].
    rewrite Hunit. ring. }
  split; [exact Hproj | ].
  unfold ray_distance. rewrite Hproj, Hpos. unfold Vector3.length.
  destruct origin as [ox oy oz], direction as [dx dy dz].
  unfold Vector3.sub, Vector3.add, Vector3.mul. simpl.
  match goal with |- sqrt ?a = 0 => replace a with 0 by ring end.
  apply sqrt_0.
Qed.

Lemma raycast_returns_in_reach (g : Game.t) (origin direction : Vector3.t)
      (j : nat) (e : Enemy.t) :
  Game.raycast g origin direction = Some (j, e) ->
  nth_error (Game.enemies g) j = Some e /\ in_reach origin direction e.
Proof.
  intro Hr. pose proof (raycast_best origin direction g) as Hbest.
  rewrite Hr in Hbest. simpl in Hbest. tauto.
Qed.

Lemma raycast_none_iff (g : Game.t) (origin direction : Vector3.t) :
  Game.raycast g origin direction = None ->
  forall e, In e (Game.enemies g) -> ~ in_reach origin direction e.
Proof.
  intros Hr e Hin. pose proof (raycast_best origin direction g) as Hbest.
  rewrite Hr in Hbest. simpl in Hbest.
  destruct (In_nth_error _ _ Hin) as [k Hk]. exact (Hbest k e Hk).
Qed.

(** C5: for a direction of length 1, (a) an alive enemy of positive size
    whose centre is the point [origin + direction * d] of the ray, [d >= 0],
    is returned when it is the only enemy; (b) an enemy whose perpendicular
    distance from the line of the ray exceeds its size is never the one
    returned, whatever the other enemies and however far it is; (c) nor is
    an enemy whose projection onto the direction is negative. *)
Theorem raycast_geometry :
  forall (g : Game.t) (origin direction : Vector3.t) (e : Enemy.t) (d : R) (j : nat),
    Vector3.length direction = 1 ->
    (Game.enemies g = [e] ->
     Enemy.alive e = true -> 0 < Enemy.size e -> 0 <= d ->
     Enemy.position e = Vector3.add origin (Vector3.mul direction d) ->
     Game.raycast g origin direction = Some (0%nat, e))
    /\ (nth_error (Game.enemies g) j = Some e ->
        perp_dist origin direction (Enemy.position e) > Enemy.size e ->
        forall r, Game.raycast g origin direction = Some r -> fst r <> j)
    /\ (nth_error (Game.enemies g) j = Some e ->
        projection origin direction e < 0 ->
        forall r, Game.raycast g origin direction = Some r -> fst r <> j).
Proof.
  intros g origin direction e d j Hunit. split; [ | split].
  - intros Hes Halive Hsize Hd Hpos.
    destruct (on_axis origin direction e d Hunit Hpos) as [Hproj Hdist].
    assert (Hin : in_reach origin direction e).
    { unfold in_reach. rewrite Hproj, Hdist. auto. }
    destruct (Game.raycast g origin direction) as [[k e'] | ] eqn:Hr.
    + destruct (raycast_returns_in_reach _ _ _ _ _ Hr) as [Hk _].
      rewrite Hes in Hk. destruct k as [ | k]; simpl in Hk.
      * congruence.
      * destruct k; discriminate.
    + exfalso. apply (raycast_none_iff _ _ _ Hr e); [ | exact Hin].
      rewrite Hes. left. reflexivity.
  - intros Hj Hfar [k e'] Hr Hk. simpl in Hk. subst k.
    destruct (raycast_returns_in_reach _ _ _ _ _ Hr) as [Hj' (_ & _ & Hnear)].
    assert (e' = e) by congruence. subst e'.
    rewrite (ray_distance_perp _ _ _ Hunit) in Hnear. lra.
  - intros Hj Hneg [k e'] Hr Hk. simpl in Hk. subst k.
    destruct (raycast_returns_in_reach _ _ _ _ _ Hr) as [Hj' (_ & Hpos & _)].
    assert (e' = e) by congruence. subst e'. lra.
Qed.

(** C6: for a direction of length 1, the enemy that [raycast] returns is
    an enemy of the list, it is a candidate (alive, projection >= 0,
    perpendicular distance less than its size) and its projection is the
    least among all candidates; it returns no enemy only when there is no
    candidate.  In particular an enemy with [alive = false] is never
    returned. *)
Theorem raycast_nearest_candidate :
  forall (g : Game.t) (origin direction : Vector3.t),
    Vector3.length direction = 1 ->
    match Game.raycast g origin direction with
    | Some (j, e) =>
        nth_error (Game.enemies g) j = Some e
        /\ Enemy.alive e = true
        /\ candidate origin direction e
        /\ forall e', In e' (Game.enemies g) -> candidate origin direction e' ->
                      projection origin direction e <= projection origin direction e'
    | None =>
        forall e', In e' (Game.enemies g) -> ~ candidate origin direction e'
    end.
Proof.
  intros g origin direction Hunit.
  pose proof (raycast_best origin direction g) as Hbest.
  destruct (Game.raycast g origin direction) as [[j e] | ]; simpl in Hbest.
  - destruct Hbest as (Hj & Hin & Hmin).
    split; [exact Hj | split; [apply Hin | split]].
    + apply in_reach_candidate; assumption.
    + intros e' He' Hcand. destruct (In_nth_error _ _ He') as [k Hk].
      apply (Hmin k e' Hk). apply in_reach_candidate; assumption.
  - intros e' He' Hcand. destruct (In_nth_error _ _ He') as [k Hk].
    apply (Hbest k e' Hk). apply in_reach_candidate; assumption.
Qed.

(** ** Firing: what the pellet loop can change *)

Lemma only_particles_refl (g : Game.t) : only_particles g g.
Proof. destruct g; reflexivity. Qed.

Lemma only_particles_trans (a b c : Game.t) :
  only_particles a b -> only_particles b c -> only_particles a c.
Proof.
  unfold only_particles. intros Hab Hbc. rewrite Hbc at 1. rewrite Hab at 1.
  reflexivity.
Qed.

Lemma combat_frame_refl (g : Game.t) : combat_frame g g.
Proof. destruct g; reflexivity. Qed.

Lemma combat_frame_trans (a b c : Game.t) :
  combat_frame a b -> combat_frame b c -> combat_frame a c.
Proof.
  unfold combat_frame. intros Hab Hbc. rewrite Hbc at 1. rewrite Hab at 1.
  reflexivity.
Qed.

Lemma spawned_0_trans (s1 s2 s3 : Env) :
  spawned 0 s1 s2 -> spawned 0 s2 s3 -> spawned 0 s1 s3.
Proof. apply (spawned_trans 0 0). Qed.

Lemma spawn_particle_returns (p : Vector3.t) (g : Game.t) :
  returns (Game.spawn_particle p g)
          (fun s g' s' => only_particles g g' /\ spawned 0 s s').
Proof.
  intro s. unfold Game.spawn_particle, bind, uniform, choice, ret.
  eexists _, _. split; [reflexivity | ]. split.
  - destruct g; reflexivity.
  - unfold spawned; simpl. auto with arith.
Qed.

Lemma create_explosion_returns (p : Vector3.t) (g : Game.t) :
  returns (Game.create_explosion p g)
          (fun s g' s' => only_particles g g' /\ spawned 0 s s').
Proof.
  unfold Game.create_explosion.
  apply (returns_repeatM (Game.spawn_particle p) (fun _ a b => only_particles a b) g).
  - apply only_particles_refl.
  - intros k b Hab.
    eapply returns_weaken; [apply spawn_particle_returns | ].
    intros s c s' [Hbc Hs]. split; [ | exact Hs].
    eapply only_particles_trans; eassumption.
Qed.

Lemma get_forward_eq (c : Camera.t) : Camera.get_forward c = Some (forward_of c).
Proof. unfold Camera.get_forward. apply normalize_some. Qed.

(** One pellet, with the oracle made explicit. *)
Lemma shoot_pellet_eq (config : WeaponConfig) (g : Game.t) (s : Env) :
  Game.shoot_pellet config g s =
  match Game.raycast g (Camera.position (Game.camera g))
                     (pellet_direction config (Game.camera g) s) with
  | Some (i, e) =>
      if snd (Enemy.hit (damage config) e)
      then Game.create_explosion
             (Enemy.position (fst (Enemy.hit (damage config) e)))
             (after_hit config i e g) (advance (advance s))
      else Some (after_hit config i e g, advance (advance s))
  | None => Some (g, advance (advance s))
  end.
Proof.
  unfold Game.shoot_pellet, bind, lift, uniform.
  rewrite get_forward_eq, normalize_some. simpl.
  fold (pellet_direction config (Game.camera g) s).
  destruct (Game.raycast g (Camera.position (Game.camera g))
                         (pellet_direction config (Game.camera g) s))
    as [[i e] | ]; [ | reflexivity].
  unfold after_hit.
  destruct (Enemy.hit (damage config) e) as [e' killed]. simpl.
  destruct killed; reflexivity.
Qed.

Lemma hit_health (dmg : Z) (e : Enemy.t) :
  Enemy.health (fst (Enemy.hit dmg e)) = (Enemy.health e - dmg)%Z.
Proof. unfold Enemy.hit. destruct (Enemy.health e - dmg <=? 0)%Z; reflexivity. Qed.

Lemma total_health_set_nth (es : list Enemy.t) (j : nat) (e e' : Enemy.t) :
  nth_error es j = Some e ->
  total_health (set_nth j e' es)
  = (total_health es - Enemy.health e + Enemy.health e')%Z.
Proof.
  revert j. induction es as [ | a rest IH]; intros j Hj.
  - destruct j; discriminate.
  - destruct j as [ | j]; simpl in Hj.
    + injection Hj as ->. unfold total_health; simpl. lia.
    + specialize (IH j Hj). unfold total_health in *; simpl. lia.
Qed.

Lemma after_hit_frame (config : WeaponConfig) (i : nat) (e : Enemy.t) (g : Game.t) :
  combat_frame g (after_hit config i e g)
  /\ Game.enemies (after_hit config i e g)
     = set_nth i (fst (Enemy.hit (damage config) e)) (Game.enemies g)
  /\ Game.kills (after_hit config i e g)
     = (Game.kills g + (if snd (Enemy.hit (damage config) e) then 1 else 0))%Z.
Proof.
  unfold after_hit.
  destruct (snd (Enemy.hit (damage config) e)); destruct g; simpl;
    repeat split; try reflexivity; lia.
Qed.

Lemma only_particles_combat (g g' : Game.t) :
  only_particles g g' ->
  combat_frame g g' /\ Game.enemies g' = Game.enemies g
  /\ Game.kills g' = Game.kills g.
Proof.
  unfold only_particles. intro H. rewrite H. destruct g; simpl.
  repeat split; reflexivity.
Qed.

Lemma shoot_pellet_returns (config : WeaponConfig) (g : Game.t) :
  returns (Game.shoot_pellet config g)
          (fun s g' s' => pellet_effect (damage config) g g' /\ spawned 0 s s').
Proof.
  intro s. rewrite shoot_pellet_eq.
  assert (Hs : spawned 0 s (advance (advance s))).
  { unfold spawned; simpl. auto with arith. }
  destruct (Game.raycast g (Camera.position (Game.camera g))
                         (pellet_direction config (Game.camera g) s))
    as [[i e] | ] eqn:Hr.
  - destruct (raycast_returns_in_reach _ _ _ _ _ Hr) as [Hi (Halive & _)].
    destruct (after_hit_frame config i e g) as (Hframe & Hes & Hkills).
    assert (Hgoal : forall g' s', 
               only_particles (after_hit config i e g) g' ->
               spawned 0 (advance (advance s)) s' ->
               pellet_effect (damage config) g g' /\ spawned 0 s s').
    { intros g' s' Hpart Hs'.
      destruct (only_particles_combat _ _ Hpart) as (Hf' & He' & Hk').
      split; [ | apply (spawned_0_trans s (advance (advance s)) s'); assumption].
      split; [eapply combat_frame_trans; eassumption | ].
      right. exists i, e. rewrite He', Hk'. auto. }
    destruct (snd (Enemy.hit (damage config) e)) eqn:Hkilled.
    + destruct (create_explosion_returns
                  (Enemy.position (fst (Enemy.hit (damage config) e)))
                  (after_hit config i e g) (advance (advance s)))
        as (g' & s' & Hrun & Hpart & Hs').
      exists g', s'. split; [exact Hrun | ]. apply Hgoal; assumption.
    + eexists _, _. split; [reflexivity | ].
      apply Hgoal; [apply only_particles_refl | apply spawned_refl].
  - exists g, (advance (advance s)). split; [reflexivity | ].
    split; [ | exact Hs]. split; [apply combat_frame_refl | ]. left. auto.
Qed.

(** The whole loop of [n] pellets. *)
Lemma volley_returns (config : WeaponConfig) (n : nat) (g : Game.t) :
  returns (repeatM n (Game.shoot_pellet config) g)
          (fun s g' s' => volley_effect (damage config) n g g' /\ spawned 0 s s').
Proof.
  apply (returns_repeatM (Game.shoot_pellet config)
                         (fun k a b => volley_effect (damage config) k a b) g).
  - split; [apply combat_frame_refl | ]. exists 0%Z. lia.
  - intros k b (Hframe & hits & Hhits & Hhealth & Hkills).
    eapply returns_weaken; [apply shoot_pellet_returns | ].
    intros s c s' [[Hframe' Heffect] Hs]. split; [ | exact Hs].
    split; [eapply combat_frame_trans; eassumption | ].
    destruct Heffect as [[Hes Hk] | (j & e & Hj & Halive & Hes & Hk)].
    + exists hits. rewrite Hes, Hk. lia.
    + exists (hits + 1)%Z. rewrite Hes, Hk.
      rewrite (total_health_set_nth _ _ _ _ Hj), hit_health.
      destruct (snd (Enemy.hit (damage config) e)); lia.
Qed.

Lemma shoot_rejected (g : Game.t) (s : Env) :
  ~ ready g -> Game.shoot g s = Some (g, s).
Proof.
  unfold ready, Game.shoot. intro Hnot.
  destruct (Rgt_dec (cooldown (lookup (Game.weapons g) (Game.current_weapon g))) 0);
    [reflexivity | ].
  destruct (Rgt_dec (reloading (lookup (Game.weapons g) (Game.current_weapon g))) 0);
    [reflexivity | ].
  destruct (ammo (lookup (Game.weapons g) (Game.current_weapon g)) <=? 0)%Z eqn:Hammo;
    [reflexivity | ].
  exfalso. apply Hnot. repeat split; try assumption. apply Z.leb_gt. exact Hammo.
Qed.

Lemma fired_ready (g : Game.t) :
  ready g ->
  fired g
  = Game.screen_shake (15 / 100)
      (Game.set_weapon (Game.current_weapon g)
         (mkData (ammo (lookup (Game.weapons g) (Game.current_weapon g)) - 1)
                 (reserve (lookup (Game.weapons g) (Game.current_weapon g)))
                 (fire_rate (WEAPONS (Game.current_weapon g)))
                 (reloading (lookup (Game.weapons g) (Game.current_weapon g)))) g).
Proof.
  unfold ready, fired. intros (Hc & Hr & Ha).
  destruct (Rgt_dec _ 0); [contradiction | ].
  destruct (Rgt_dec _ 0); [contradiction | ].
  destruct (_ <=? 0)%Z eqn:Hammo; [apply Z.leb_le in Hammo; lia | reflexivity].
Qed.

Lemma fired_rejected (g : Game.t) : ~ ready g -> fired g = g.
Proof.
  unfold ready, fired. intro Hnot.
  destruct (Rgt_dec _ 0); [reflexivity | ].
  destruct (Rgt_dec _ 0); [reflexivity | ].
  destruct (_ <=? 0)%Z eqn:Hammo; [reflexivity | ].
  exfalso. apply Hnot. repeat split; try assumption. apply Z.leb_gt. exact Hammo.
Qed.

Lemma ready_dec (g : Game.t) : ready g \/ ~ ready g.
Proof.
  unfold ready.
  destruct (Rgt_dec (cooldown (lookup (Game.weapons g) (Game.current_weapon g))) 0);
    [right; tauto | ].
  destruct (Rgt_dec (reloading (lookup (Game.weapons g) (Game.current_weapon g))) 0);
    [right; tauto | ].
  destruct (Z_lt_dec 0 (ammo (lookup (Game.weapons g) (Game.current_weapon g))));
    [left; tauto | right; tauto].
Qed.

(** An accepted fire intent: the loop runs from [fired g]. *)
Lemma shoot_ready (g : Game.t) :
  ready g ->
  returns (Game.shoot g)
          (fun s g' s' =>
             volley_effect (damage (WEAPONS (Game.current_weapon g)))
                           (Z.to_nat (pellets (WEAPONS (Game.current_weapon g))))
                           (fired g) g'
             /\ spawned 0 s s').
Proof.
  intro Hready. rewrite (fired_ready g Hready).
  destruct Hready as (Hc & Hr & Ha). unfold Game.shoot.
  destruct (Rgt_dec _ 0); [contradiction | ].
  destruct (Rgt_dec _ 0); [contradiction | ].
  destruct (_ <=? 0)%Z eqn:Hammo; [apply Z.leb_le in Hammo; lia | ].
  apply volley_returns.
Qed.

(** Any fire intent: it returns, and changes [fired g] only where the
    pellets can. *)
Lemma shoot_returns (g : Game.t) :
  returns (Game.shoot g)
          (fun s g' s' => combat_frame (fired g) g' /\ spawned 0 s s').
Proof.
  destruct (ready_dec g) as [Hready | Hnot].
  - eapply returns_weaken; [apply (shoot_ready g Hready) | ].
    intros s g' s' [[Hframe _] Hs]. auto.
  - intro s. exists g, s. split; [apply shoot_rejected, Hnot | ].
    rewrite (fired_rejected g Hnot).
    split; [apply combat_frame_refl | apply spawned_refl].
Qed.

(** C4: a fire intent while the selected weapon has [cooldown > 0], or
    [reloading > 0], or [ammo <= 0] returns the game as it was: the weapon
    dicts (ammo, reserve, cooldown, reloading), the score, the kills, the
    enemies, the particles, the kill feed and the screen shake are those
    of before, and no random number was drawn. *)
Theorem rejected_fire_is_noop :
  forall (g : Game.t) (s : Env),
    let weapon_data := lookup (Game.weapons g) (Game.current_weapon g) in
    cooldown weapon_data > 0 \/ reloading weapon_data > 0 \/ (ammo weapon_data <= 0)%Z ->
    Game.shoot g s = Some (g, s).
Proof.
  intros g s weapon_data Hguard. apply shoot_rejected.
  unfold ready. fold weapon_data. intros (Hc & Hr & Ha).
  destruct Hguard as [H | [H | H]]; [contradiction | contradiction | lia].
Qed.

(** ** Enemies, waves and the tick *)

Lemma enemy_update_returns (dt : R) (player_pos : Vector3.t) (e : Enemy.t) :
  returns (Enemy.update dt player_pos e) (fun s _ s' => spawned 0 s s').
Proof.
  unfold Enemy.update.
  destruct (negb (Enemy.alive e)).
  { apply returns_ret. apply spawned_refl. }
  eapply returns_bind with (P := fun s _ s' => spawned 0 s s').
  - destruct (Rgt_dec _ 2).
    + intro s. unfold bind, uniform, ret. eexists _, _. split; [reflexivity | ].
      unfold spawned; simpl. auto with arith.
    + apply returns_ret. apply spawned_refl.
  - intros s e1 s1 Hs1.
    destruct (Enemy.move_target e1) as [target | ].
    + destruct (Rgt_dec _ (5 / 10)).
      * unfold bind, lift, ret. rewrite normalize_some. eexists _, _.
        split; [reflexivity | exact Hs1].
      * eexists _, _. split; [reflexivity | exact Hs1].
    + eexists _, _. split; [reflexivity | exact Hs1].
Qed.

Lemma mapM_returns {A B : Type} (f : A -> M B) (l : list A) :
  (forall a, returns (f a) (fun s _ s' => spawned 0 s s')) ->
  returns (mapM f l) (fun s _ s' => spawned 0 s s').
Proof.
  intro Hf. induction l as [ | a rest IH]; simpl.
  - apply returns_ret. apply spawned_refl.
  - eapply returns_bind; [apply Hf | ].
    intros s b s1 Hs1. unfold bind, ret.
    destruct (IH s1) as (bs & s2 & Hrun & Hs2). rewrite Hrun.
    eexists _, _. split; [reflexivity | ].
    apply (spawned_0_trans s s1 s2); assumption.
Qed.

Lemma spawn_enemy_returns (g : Game.t) :
  returns (Game.spawn_enemy g)
          (fun s g' s' =>
             g' = Game.set_enemies (Game.enemies g') g
             /\ List.length (Game.enemies g') = S (List.length (Game.enemies g))
             /\ spawned 0 s s').
Proof.
  intro s. unfold Game.spawn_enemy, bind, uniform, choice, ret.
  eexists _, _. split; [reflexivity | ]. split; [ | split].
  - destruct g; reflexivity.
  - simpl. rewrite length_app. simpl. lia.
  - unfold spawned; simpl. auto with arith.
Qed.

Lemma spawn_enemies_returns (n : nat) (g : Game.t) :
  returns (repeatM n Game.spawn_enemy g)
          (fun s g' s' =>
             (g' = Game.set_enemies (Game.enemies g') g
              /\ List.length (Game.enemies g') = (n + List.length (Game.enemies g))%nat)
             /\ spawned 0 s s').
Proof.
  apply (returns_repeatM Game.spawn_enemy
           (fun k a b => b = Game.set_enemies (Game.enemies b) a
                         /\ List.length (Game.enemies b)
                            = (k + List.length (Game.enemies a))%nat) g).
  - split; [destruct g; reflexivity | reflexivity].
  - intros k b [Hb Hlen].
    eapply returns_weaken; [apply spawn_enemy_returns | ].
    intros s c s' (Hc & Hlen' & Hs). split; [ | exact Hs]. split.
    + rewrite Hc at 1. rewrite Hb at 1. reflexivity.
    + rewrite Hlen', Hlen. reflexivity.
Qed.

(** [spawn_wave] adds [enemies_per_wave] enemies, then adds 2 to it. *)
Lemma spawn_wave_returns (g : Game.t) :
  returns (Game.spawn_wave g)
          (fun s g' s' =>
             wave_frame g g'
             /\ List.length (Game.enemies g')
                = (Z.to_nat (Game.enemies_per_wave g) + List.length (Game.enemies g))%nat
             /\ spawned 1 s s').
Proof.
  intro s. unfold Game.spawn_wave, bind, note_wave, ret.
  set (g1 := Game.add_kill_feed _ g).
  set (s1 := mkEnv _ _ _ _).
  destruct (spawn_enemies_returns (Z.to_nat (Game.enemies_per_wave g1)) g1 s1)
    as (g2 & s2 & Hrun & [Hg2 Hlen] & Hs2).
  rewrite Hrun. eexists _, _. split; [reflexivity | ]. split; [ | split].
  - unfold wave_frame. rewrite Hg2. subst g1. destruct g; reflexivity.
  - simpl. rewrite Hlen. subst g1. destruct g; reflexivity.
  - apply (spawned_trans 1 0 s s1 s2); [ | exact Hs2].
    subst s1. unfold spawned; simpl. repeat split. lia.
Qed.

Lemma start_game_target (g : Game.t) :
  returns (Game.start_game Target g)
          (fun s g' s' =>
             session_reset Target g'
             /\ Game.wave g' = 0%Z
             /\ Game.enemies g'
                = map (fun pos => Enemy.new pos Normal) Game.target_positions
             /\ Game.kill_feed g' = []
             /\ Game.enemies_per_wave g' = Game.enemies_per_wave g
             /\ s' = s).
Proof.
  intro s. eexists _, _. split; [reflexivity | ].
  unfold session_reset. simpl. repeat split; reflexivity.
Qed.

Lemma start_game_survival (g : Game.t) :
  returns (Game.start_game Survival g)
          (fun s g' s' =>
             session_reset Survival g'
             /\ Game.wave g' = 1%Z
             /\ List.length (Game.enemies g') = Z.to_nat (Game.enemies_per_wave g)
             /\ Game.kill_feed g' = [mkItem "Wave 1 Starting!" 3]
             /\ Game.enemies_per_wave g' = (Game.enemies_per_wave g + 2)%Z
             /\ spawned 1 s s').
Proof.
  unfold Game.start_game.
  eapply returns_weaken; [apply spawn_wave_returns | ].
  intros s g' s' (Hframe & Hlen & Hs).
  unfold wave_frame in Hframe. simpl in Hframe, Hlen.
  unfold session_reset. rewrite Nat.add_0_r in Hlen.
  repeat split; try (rewrite Hframe; reflexivity); try assumption; apply Hs.
Qed.

(** ** The weapon machine *)

Lemma same_control_refl (g : Game.t) : same_control g g.
Proof. unfold same_control. auto. Qed.

Lemma same_control_trans (a b c : Game.t) :
  same_control a b -> same_control b c -> same_control a c.
Proof. unfold same_control. intuition congruence. Qed.

Ltac control_cases :=
  repeat match goal with
         | |- context [Rgt_dec ?a ?b] => destruct (Rgt_dec a b)
         | |- context [Rle_dec ?a ?b] => destruct (Rle_dec a b)
         | |- context [Req_dec_T ?a ?b] => destruct (Req_dec_T a b)
         | |- context [(?a =? ?b)%Z] => destruct (a =? b)%Z
         | |- context [(?a <=? ?b)%Z] => destruct (a <=? b)%Z
         | |- context [(?a >? ?b)%Z] => destruct (a >? b)%Z
         end.

Ltac control_congruence f :=
  let g := fresh "g" in
  let h := fresh "h" in
  let H := fresh "H" in
  intros g h H; destruct g, h; unfold same_control in *; simpl in H;
  destruct H as (-> & -> & ->); unfold f; simpl;
  control_cases; simpl; auto.

Lemma reload_control :
  forall g h, same_control g h -> same_control (Game.reload g) (Game.reload h).
Proof. control_congruence Game.reload. Qed.

Lemma finish_reload_control :
  forall g h, same_control g h ->
              same_control (Game.finish_reload g) (Game.finish_reload h).
Proof. control_congruence Game.finish_reload. Qed.

Lemma set_weapon_control (k : WeaponKind) (d : WeaponData) :
  forall g h, same_control g h ->
              same_control (Game.set_weapon k d g) (Game.set_weapon k d h).
Proof. control_congruence Game.set_weapon. Qed.

Lemma tick_weapon_control (dt : R) (k : WeaponKind) :
  forall g h, same_control g h ->
              same_control (Game.tick_weapon dt g k) (Game.tick_weapon dt h k).
Proof.
  intros g h H. unfold Game.tick_weapon.
  assert (H1 : same_control
                 (if Rgt_dec (cooldown (lookup (Game.weapons g) k)) 0
                  then Game.set_weapon k
                         (mkData (ammo (lookup (Game.weapons g) k))
                                 (reserve (lookup (Game.weapons g) k))
                                 (cooldown (lookup (Game.weapons g) k) - dt)
                                 (reloading (lookup (Game.weapons g) k))) g
                  else g)
                 (if Rgt_dec (cooldown (lookup (Game.weapons h) k)) 0
                  then Game.set_weapon k
                         (mkData (ammo (lookup (Game.weapons h) k))
                                 (reserve (lookup (Game.weapons h) k))
                                 (cooldown (lookup (Game.weapons h) k) - dt)
                                 (reloading (lookup (Game.weapons h) k))) h
                  else h)).
  { destruct H as (Hs & Hc & Hw). rewrite Hw.
    destruct (Rgt_dec _ 0); [ | unfold same_control; auto].
    apply set_weapon_control. unfold same_control; auto. }
  cbv zeta.
  match type of H1 with same_control ?a ?b => set (g1 := a) in *; set (h1 := b) in * end.
  clearbody g1 h1. clear H g h.
  destruct H1 as (Hs & Hc & Hw). rewrite Hw.
  destruct (Rgt_dec _ 0); [ | unfold same_control; auto].
  assert (H2 : same_control
                 (Game.set_weapon k
                    (mkData (ammo (lookup (Game.weapons h1) k))
                            (reserve (lookup (Game.weapons h1) k))
                            (cooldown (lookup (Game.weapons h1) k))
                            (reloading (lookup (Game.weapons h1) k) - dt)) g1)
                 (Game.set_weapon k
                    (mkData (ammo (lookup (Game.weapons h1) k))
                            (reserve (lookup (Game.weapons h1) k))
                            (cooldown (lookup (Game.weapons h1) k))
                            (reloading (lookup (Game.weapons h1) k) - dt)) h1)).
  { apply set_weapon_control. unfold same_control; auto. }
  match type of H2 with same_control ?a ?b => set (g2 := a) in *; set (h2 := b) in * end.
  clearbody g2 h2.
  assert (Hw2 : Game.weapons g2 = Game.weapons h2) by apply H2. rewrite Hw2.
  destruct (Rle_dec _ 0); [apply finish_reload_control | ]; exact H2.
Qed.

Lemma auto_reload_control :
  forall g h, same_control g h ->
              same_control (Game.auto_reload g) (Game.auto_reload h).
Proof.
  intros g h H. unfold Game.auto_reload.
  destruct H as (Hs & Hc & Hw). rewrite Hw, Hc.
  assert (H : same_control g h) by (unfold same_control; auto).
  control_cases; try exact H. apply reload_control, H.
Qed.

Lemma ticks_control (dt : R) (ks : list WeaponKind) :
  forall g h, same_control g h ->
              same_control (fold_left (Game.tick_weapon dt) ks g)
                           (fold_left (Game.tick_weapon dt) ks h).
Proof.
  induction ks as [ | k rest IH]; intros g h H; simpl; [exact H | ].
  apply IH, tick_weapon_control, H.
Qed.

Lemma fired_control :
  forall g h, same_control g h -> same_control (fired g) (fired h).
Proof. control_congruence fired. Qed.

Lemma control_step_congruence (i : Input) :
  forall g h, same_control g h ->
              same_control (control_step i g) (control_step i h).
Proof.
  intros g h H.
  destruct i as [key | key | button mx my | dx dy | dt]; unfold control_step;
    try exact H.
  - unfold on_keydown; cbn [game mouse_locked keys_down].
    destruct H as (Hs & Hc & Hw). rewrite Hs.
    assert (H : same_control g h) by (unfold same_control; auto).
    destruct (Game.state h) eqn:Hsh; simpl; try exact H;
      destruct key; simpl; try exact H;
      try (apply reload_control, H);
      unfold same_control; simpl; repeat split; congruence.
  - destruct H as (Hs & Hc & Hw). rewrite Hs.
    assert (H : same_control g h) by (unfold same_control; auto).
    destruct (Game.state h) eqn:Hsh; try exact H.
    + destruct (_ && _)%bool; [unfold same_control; simpl; auto | ].
      destruct (_ && _)%bool; [unfold same_control; simpl; auto | exact H].
    + destruct (button =? 1)%Z; [apply fired_control, H | exact H].
  - destruct H as (Hs & Hc & Hw). rewrite Hs.
    assert (H : same_control g h) by (unfold same_control; auto).
    destruct (Game.state h); try exact H.
    apply auto_reload_control, (ticks_control dt weapon_keys), H.
Qed.

Lemma only_weapons_refl (g : Game.t) : only_weapons g g.
Proof. destruct g; reflexivity. Qed.

Lemma only_weapons_trans (a b c : Game.t) :
  only_weapons a b -> only_weapons b c -> only_weapons a c.
Proof.
  unfold only_weapons. intros Hab Hbc. rewrite Hbc at 1. rewrite Hab at 1.
  reflexivity.
Qed.

Lemma set_weapon_only (k : WeaponKind) (d : WeaponData) (g : Game.t) :
  only_weapons g (Game.set_weapon k d g).
Proof. destruct g; reflexivity. Qed.

Lemma reload_only (g : Game.t) : only_weapons g (Game.reload g).
Proof.
  unfold Game.reload. control_cases;
    first [apply only_weapons_refl | apply set_weapon_only].
Qed.

Lemma finish_reload_only (g : Game.t) : only_weapons g (Game.finish_reload g).
Proof. unfold Game.finish_reload. apply set_weapon_only. Qed.

Lemma tick_weapon_only (dt : R) (k : WeaponKind) (g : Game.t) :
  only_weapons g (Game.tick_weapon dt g k).
Proof.
  unfold Game.tick_weapon. cbv zeta.
  set (g1 := if Rgt_dec (cooldown (lookup (Game.weapons g) k)) 0 then _ else g).
  assert (H1 : only_weapons g g1).
  { subst g1. destruct (Rgt_dec _ 0); [apply set_weapon_only | apply only_weapons_refl]. }
  clearbody g1.
  destruct (Rgt_dec _ 0); [ | exact H1].
  match goal with
  | |- only_weapons g (if _ then _ else ?g2) =>
      assert (H2 : only_weapons g g2)
        by (eapply only_weapons_trans; [exact H1 | apply set_weapon_only])
  end.
  destruct (Rle_dec _ 0); [ | exact H2].
  eapply only_weapons_trans; [exact H2 | apply finish_reload_only].
Qed.

Lemma auto_reload_only (g : Game.t) : only_weapons g (Game.auto_reload g).
Proof.
  unfold Game.auto_reload. control_cases;
    first [apply only_weapons_refl | apply reload_only].
Qed.

Lemma ticks_only (dt : R) (ks : list WeaponKind) (g : Game.t) :
  only_weapons g (fold_left (Game.tick_weapon dt) ks g).
Proof.
  revert g. induction ks as [ | k rest IH]; intro g; simpl.
  - apply only_weapons_refl.
  - eapply only_weapons_trans; [apply tick_weapon_only | apply IH].
Qed.

(** The loop over the weapons and the check that follows it. *)
Lemma weapon_phase_only (dt : R) (g : Game.t) :
  only_weapons g (Game.auto_reload (fold_left (Game.tick_weapon dt) weapon_keys g)).
Proof.
  eapply only_weapons_trans; [apply ticks_only | apply auto_reload_only].
Qed.

Lemma spawn_targets_frame (g : Game.t) :
  Game.spawn_targets g = Game.set_enemies (Game.enemies (Game.spawn_targets g)) g.
Proof. destruct g; reflexivity. Qed.

(** A tick: the weapon machine makes its step, and [enemies_per_wave]
    grows by 2 for each wave spawned. *)
Lemma update_returns (dt : R) (g : Game.t) :
  returns (Game.update dt g)
          (fun s g' s' =>
             same_control g' (control_step (TICK dt) g)
             /\ exists n, spawned n s s'
                          /\ Game.enemies_per_wave g'
                             = (Game.enemies_per_wave g + 2 * Z.of_nat n)%Z).
Proof.
  intro s. unfold Game.update, control_step.
  destruct (Game.state g) eqn:Hstate;
    try (exists g, s; split; [reflexivity | ];
         split; [apply same_control_refl | ];
         exists 0%nat; split; [apply spawned_refl | simpl; lia]).
  cbv zeta.
  pose proof (weapon_phase_only dt g) as Honly.
  remember (Game.auto_reload (fold_left (Game.tick_weapon dt) weapon_keys g)) as gw
    eqn:Hgw.
  clear Hgw. unfold bind.
  destruct (mapM_returns (Enemy.update dt (Camera.position (Game.camera gw)))
                         (Game.enemies gw)
                         (enemy_update_returns dt (Camera.position (Game.camera gw))) s)
    as (es & s1 & Hrun & Hs1).
  rewrite Hrun.
  assert (Hepw : Game.enemies_per_wave gw = Game.enemies_per_wave g).
  { rewrite Honly. reflexivity. }
  set (g4 := if Rgt_dec _ 0 then _ else _).
  assert (H4 : same_control g4 gw
               /\ Game.enemies_per_wave g4 = Game.enemies_per_wave gw
               /\ Game.enemies g4 = filter Enemy.alive es
               /\ Game.game_mode g4 = Game.game_mode gw).
  { subst g4. destruct (Rgt_dec _ 0); simpl; unfold same_control; simpl; auto. }
  clearbody g4. destruct H4 as (Hctl & Hepw4 & Hes4 & Hmode4).
  destruct (Game.game_mode g4) as [[ | ] | ].
  - destruct (Game.enemies g4).
    + exists (Game.spawn_targets g4), s1. split; [reflexivity | ]. split.
      * eapply same_control_trans; [ | exact Hctl].
        rewrite spawn_targets_frame. unfold same_control; simpl; auto.
      * exists 0%nat. split; [exact Hs1 | ].
        rewrite spawn_targets_frame. simpl. lia.
    + exists g4, s1. split; [reflexivity | ]. split; [exact Hctl | ].
      exists 0%nat. split; [exact Hs1 | lia].
  - destruct (Game.enemies g4).
    + destruct (spawn_wave_returns (Game.set_wave (Game.wave g4 + 1) g4) s1)
        as (g5 & s2 & Hrun5 & Hframe & _ & Hs2).
      exists g5, s2. split; [exact Hrun5 | ]. unfold wave_frame in Hframe. split.
      * eapply same_control_trans; [ | exact Hctl].
        rewrite Hframe. unfold same_control; simpl; auto.
      * exists 1%nat. split.
        -- apply (spawned_trans 0 1 s s1 s2); assumption.
        -- rewrite Hframe. simpl. lia.
    + exists g4, s1. split; [reflexivity | ]. split; [exact Hctl | ].
      exists 0%nat. split; [exact Hs1 | lia].
  - exists g4, s1. split.
    + destruct (Game.enemies g4); reflexivity.
    + split; [exact Hctl | ]. exists 0%nat. split; [exact Hs1 | lia].
Qed.

Lemma move_player_returns (dt : R) (keys : list Key) (g : Game.t) :
  returns (move_player dt keys g)
          (fun s g' s' => g' = Game.set_camera (Game.camera g') g /\ s' = s).
Proof.
  intro s. unfold move_player.
  destruct (Game.state g);
    try (exists g, s; split; [reflexivity | split; [destruct g | ]; reflexivity]).
  unfold bind, lift. rewrite get_forward_eq.
  destruct (get_right_some (Game.camera g)) as [r ->].
  cbv zeta. destruct (Rgt_dec _ 0).
  - rewrite normalize_some. eexists _, _. split; [reflexivity | ].
    split; [destruct g | ]; reflexivity.
  - exists g, s. split; [reflexivity | split; [destruct g | ]; reflexivity].
Qed.

Lemma on_keydown_game (key : Key) (l : Loop) :
  game (on_keydown key l) = game (on_keydown key (mkLoop (game l) false [])).
Proof.
  unfold on_keydown; simpl. destruct (Game.state (game l)); destruct key; reflexivity.
Qed.

Lemma on_keydown_waves (key : Key) (l : Loop) :
  Game.enemies_per_wave (game (on_keydown key l)) = Game.enemies_per_wave (game l).
Proof.
  unfold on_keydown; simpl.
  destruct (Game.state (game l)); destruct key; simpl; try reflexivity.
  rewrite (reload_only (game l)). reflexivity.
Qed.

Lemma fired_waves (g : Game.t) :
  Game.enemies_per_wave (fired g) = Game.enemies_per_wave g.
Proof. unfold fired. control_cases; reflexivity. Qed.

Lemma combat_frame_control (g g' : Game.t) :
  combat_frame g g' ->
  same_control g' g /\ Game.enemies_per_wave g' = Game.enemies_per_wave g.
Proof.
  unfold combat_frame. intro H. rewrite H. unfold same_control; simpl. auto.
Qed.

Lemma session_reset_control (mode : Mode) (g g' : Game.t) :
  session_reset mode g' -> same_control g' (restarted g).
Proof.
  unfold session_reset, same_control. simpl. intuition.
Qed.

(** One input: the weapon machine makes its step, and [enemies_per_wave]
    grows by 2 for each wave spawned. *)
Lemma step_returns (i : Input) (l : Loop) :
  returns (step i l)
          (fun s l' s' =>
             same_control (game l') (control_step i (game l))
             /\ exists n, spawned n s s'
                          /\ Game.enemies_per_wave (game l')
                             = (Game.enemies_per_wave (game l) + 2 * Z.of_nat n)%Z).
Proof.
  assert (Hstay : forall s l',
             same_control (game l') (control_step i (game l)) ->
             Game.enemies_per_wave (game l') = Game.enemies_per_wave (game l) ->
             same_control (game l') (control_step i (game l))
             /\ exists n, spawned n s s
                          /\ Game.enemies_per_wave (game l')
                             = (Game.enemies_per_wave (game l) + 2 * Z.of_nat n)%Z).
  { intros s l' Hc He. split; [exact Hc | ]. exists 0%nat.
    split; [apply spawned_refl | simpl; lia]. }
  destruct i as [key | key | button mx my | dx dy | dt].
  - apply returns_ret. intro s. apply Hstay.
    + simpl control_step. rewrite on_keydown_game. apply same_control_refl.
    + apply on_keydown_waves.
  - apply returns_ret. intro s. apply Hstay; [apply same_control_refl | reflexivity].
  - clear Hstay. unfold step, on_mousebuttondown, control_step.
    destruct (Game.state (game l)) eqn:Hstate.
    + destruct (_ && _)%bool.
      { eapply returns_bind; [apply start_game_target | ].
        intros s g' s' (Hreset & _ & _ & _ & Hepw & ->).
        eexists _, _. split; [reflexivity | ]. simpl. split.
        - eapply session_reset_control, Hreset.
        - exists 0%nat. split; [apply spawned_refl | simpl; lia]. }
      destruct (_ && _)%bool.
      { eapply returns_bind; [apply start_game_survival | ].
        intros s g' s' (Hreset & _ & _ & _ & Hepw & Hs).
        eexists _, _. split; [reflexivity | ]. simpl. split.
        - eapply session_reset_control, Hreset.
        - exists 1%nat. split; [exact Hs | simpl; lia]. }
      apply returns_ret. intro s. split; [apply same_control_refl | ].
      exists 0%nat. split; [apply spawned_refl | simpl; lia].
    + destruct (button =? 1)%Z.
      * eapply returns_bind; [apply shoot_returns | ].
        intros s g' s' [Hframe Hs].
        eexists _, _. split; [reflexivity | ]. simpl.
        destruct (combat_frame_control _ _ Hframe) as [Hc He].
        split; [exact Hc | ]. exists 0%nat. split; [exact Hs | ].
        rewrite He, fired_waves. simpl; lia.
      * apply returns_ret. intro s. split; [apply same_control_refl | ].
        exists 0%nat. split; [apply spawned_refl | simpl; lia].
    + apply returns_ret. intro s. split; [apply same_control_refl | ].
      exists 0%nat. split; [apply spawned_refl | simpl; lia].
    + apply returns_ret. intro s. split; [apply same_control_refl | ].
      exists 0%nat. split; [apply spawned_refl | simpl; lia].
  - apply returns_ret. intro s. apply Hstay.
    + unfold on_mousemotion, control_step.
      destruct (mouse_locked l); [ | apply same_control_refl].
      unfold same_control; simpl; auto.
    + unfold on_mousemotion. destruct (mouse_locked l); reflexivity.
  - clear Hstay. unfold step.
    eapply returns_bind; [apply update_returns | ].
    intros s g1 s1 (Hc & n & Hs & He).
    unfold bind, ret.
    destruct (move_player_returns dt (keys_down l) g1 s1) as (g2 & s2 & Hrun & Hg2 & ->).
    rewrite Hrun. eexists _, _. split; [reflexivity | ]. simpl game. split.
    + eapply same_control_trans; [ | exact Hc].
      rewrite Hg2. unfold same_control; simpl; auto.
    + exists n. split; [exact Hs | ]. rewrite Hg2. simpl. exact He.
Qed.

(** A sequence of inputs. *)
Lemma run_returns (inputs : list Input) :
  forall (l : Loop) (h : Game.t),
    same_control (game l) h ->
    returns (run inputs l)
            (fun s l' s' =>
               same_control (game l') (control_run inputs h)
               /\ exists n, spawned n s s'
                            /\ Game.enemies_per_wave (game l')
                               = (Game.enemies_per_wave (game l) + 2 * Z.of_nat n)%Z).
Proof.
  induction inputs as [ | i rest IH]; intros l h Hlh;
    unfold control_run; cbn [run fold_left].
  - apply returns_ret. intro s. split; [exact Hlh | ].
    exists 0%nat. split; [apply spawned_refl | simpl; lia].
  - eapply returns_bind; [apply step_returns | ].
    intros s l1 s1 (Hc1 & n1 & Hs1 & He1).
    assert (Hl1 : same_control (game l1) (control_step i h)).
    { eapply same_control_trans; [exact Hc1 | ].
      apply control_step_congruence, Hlh. }
    destruct (IH l1 (control_step i h) Hl1 s1) as (l2 & s2 & Hrun & Hc2 & n2 & Hs2 & He2).
    exists l2, s2. split; [exact Hrun | ]. split; [exact Hc2 | ].
    exists (n1 + n2)%nat. split.
    + apply (spawned_trans n1 n2 s s1 s2); assumption.
    + rewrite He2, He1. lia.
Qed.

(** ** Ammo stays in range *)

Lemma lookup_store (k k' : WeaponKind) (d : WeaponData) (ws : Weapons) :
  lookup (store k d ws) k' = if WeaponKind_eq_dec k' k then d else lookup ws k'.
Proof. destruct k, k'; reflexivity. Qed.

Lemma set_weapon_in_range (k : WeaponKind) (d : WeaponData) (g : Game.t) :
  ammo_in_range g ->
  (0 <= ammo d <= max_ammo (WEAPONS k))%Z -> (0 <= reserve d)%Z ->
  ammo_in_range (Game.set_weapon k d g).
Proof.
  intros Hg Ha Hr k'. unfold Game.set_weapon. simpl. rewrite lookup_store.
  destruct (WeaponKind_eq_dec k' k) as [-> | _]; [auto | apply Hg].
Qed.

Lemma reload_in_range (g : Game.t) : ammo_in_range g -> ammo_in_range (Game.reload g).
Proof.
  intro Hg. unfold Game.reload. control_cases; try exact Hg.
  apply set_weapon_in_range; simpl; try exact Hg; apply Hg.
Qed.

Lemma finish_reload_in_range (g : Game.t) :
  ammo_in_range g -> ammo_in_range (Game.finish_reload g).
Proof.
  intro Hg. unfold Game.finish_reload.
  destruct (Hg (Game.current_weapon g)) as [Ha Hr].
  apply set_weapon_in_range; simpl; [exact Hg | lia | lia].
Qed.

Lemma tick_weapon_in_range (dt : R) (k : WeaponKind) (g : Game.t) :
  ammo_in_range g -> ammo_in_range (Game.tick_weapon dt g k).
Proof.
  intro Hg. unfold Game.tick_weapon. cbv zeta.
  set (g1 := if Rgt_dec (cooldown (lookup (Game.weapons g) k)) 0 then _ else g).
  assert (H1 : ammo_in_range g1).
  { subst g1. destruct (Rgt_dec _ 0); [ | exact Hg].
    apply set_weapon_in_range; simpl; try exact Hg; apply Hg. }
  clearbody g1.
  destruct (Rgt_dec _ 0); [ | exact H1].
  match goal with
  | |- ammo_in_range (if _ then _ else ?g2) =>
      assert (H2 : ammo_in_range g2)
        by (apply set_weapon_in_range; simpl; try exact H1; apply H1)
  end.
  destruct (Rle_dec _ 0); [apply finish_reload_in_range | ]; exact H2.
Qed.

Lemma fired_in_range (g : Game.t) : ammo_in_range g -> ammo_in_range (fired g).
Proof.
  intro Hg. unfold fired.
  destruct (Rgt_dec _ 0); [exact Hg | ].
  destruct (Rgt_dec _ 0); [exact Hg | ].
  destruct (_ <=? 0)%Z eqn:Hammo; [exact Hg | ]. apply Z.leb_gt in Hammo.
  destruct (Hg (Game.current_weapon g)) as [Ha Hr].
  unfold Game.screen_shake. intro k'. simpl.
  apply (set_weapon_in_range (Game.current_weapon g) _ g Hg); simpl; lia.
Qed.

Lemma initial_weapons_in_range (g : Game.t) :
  Game.weapons g = initial_weapons -> ammo_in_range g.
Proof. intros H k. rewrite H. destruct k; simpl; lia. Qed.

Lemma control_step_in_range (i : Input) (g : Game.t) :
  ammo_in_range g -> ammo_in_range (control_step i g).
Proof.
  intro Hg. destruct i as [key | key | button mx my | dx dy | dt]; simpl;
    try exact Hg.
  - unfold on_keydown; simpl.
    destruct (Game.state g); try exact Hg; destruct key; simpl; try exact Hg.
    apply reload_in_range, Hg.
  - destruct (Game.state g); try exact Hg.
    + destruct (_ && _)%bool; [apply initial_weapons_in_range; reflexivity | ].
      destruct (_ && _)%bool; [apply initial_weapons_in_range; reflexivity | exact Hg].
    + destruct (button =? 1)%Z; [apply fired_in_range, Hg | exact Hg].
  - destruct (Game.state g); try exact Hg.
    unfold Game.auto_reload.
    set (g3 := Game.tick_weapon dt _ Shotgun).
    assert (H3 : ammo_in_range g3) by (subst g3; repeat apply tick_weapon_in_range; exact Hg).
    clearbody g3. control_cases; try exact H3. apply reload_in_range, H3.
Qed.

Lemma control_run_in_range (inputs : list Input) (g : Game.t) :
  ammo_in_range g -> ammo_in_range (control_run inputs g).
Proof.
  revert g. induction inputs as [ | i rest IH]; intros g Hg; [exact Hg | ].
  apply (IH (control_step i g)), control_step_in_range, Hg.
Qed.

(** C3: whatever the sequence of inputs handled by the loop of [main]
    from the start of the program (key presses for reload and for the
    weapon switch, clicks that start a session or fire, mouse motion, ticks
    with any [dt], in particular [dt >= 0]), the loop raises nothing and
    at the end every weapon has [0 <= ammo <= max_ammo] for its kind and
    [reserve >= 0]. *)
Theorem ammo_stays_in_range :
  forall (inputs : list Input) (s : Env),
  exists l' s',
    run inputs main_init s = Some (l', s')
    /\ forall k : WeaponKind,
         (0 <= ammo (lookup (Game.weapons (game l')) k) <= max_ammo (WEAPONS k))%Z
         /\ (0 <= reserve (lookup (Game.weapons (game l')) k))%Z.
Proof.
  intros inputs s.
  destruct (run_returns inputs main_init Game.init (same_control_refl _) s)
    as (l' & s' & Hrun & (_ & _ & Hw) & _).
  exists l', s'. split; [exact Hrun | ]. rewrite Hw.
  apply (control_run_in_range inputs Game.init).
  apply initial_weapons_in_range. reflexivity.
Qed.

(** ** Timers *)

Lemma lookup_set_weapon (k : WeaponKind) (d : WeaponData) (g : Game.t) :
  lookup (Game.weapons (Game.set_weapon k d g)) k = d.
Proof. destruct k; reflexivity. Qed.

(** The three ways through [tick_weapon] that the examples take. *)
Lemma tick_weapon_idle (dt : R) (g : Game.t) (k : WeaponKind) :
  ~ cooldown (lookup (Game.weapons g) k) > 0 ->
  ~ reloading (lookup (Game.weapons g) k) > 0 ->
  Game.tick_weapon dt g k = g.
Proof.
  intros Hc Hr. unfold Game.tick_weapon. cbv zeta.
  destruct (Rgt_dec (cooldown (lookup (Game.weapons g) k)) 0); [contradiction | ].
  destruct (Rgt_dec (reloading (lookup (Game.weapons g) k)) 0); [contradiction | ].
  reflexivity.
Qed.

Lemma tick_weapon_cooling (dt : R) (g : Game.t) (k : WeaponKind) :
  cooldown (lookup (Game.weapons g) k) > 0 ->
  ~ reloading (lookup (Game.weapons g) k) > 0 ->
  Game.tick_weapon dt g k
  = Game.set_weapon k
      (mkData (ammo (lookup (Game.weapons g) k)) (reserve (lookup (Game.weapons g) k))
              (cooldown (lookup (Game.weapons g) k) - dt)
              (reloading (lookup (Game.weapons g) k))) g.
Proof.
  intros Hc Hr. unfold Game.tick_weapon. cbv zeta.
  destruct (Rgt_dec (cooldown (lookup (Game.weapons g) k)) 0); [ | contradiction].
  rewrite lookup_set_weapon. cbn [reloading].
  destruct (Rgt_dec (reloading (lookup (Game.weapons g) k)) 0); [contradiction | ].
  reflexivity.
Qed.

Lemma tick_weapon_reloaded (dt : R) (g : Game.t) (k : WeaponKind) :
  cooldown (lookup (Game.weapons g) k) > 0 ->
  reloading (lookup (Game.weapons g) k) > 0 ->
  reloading (lookup (Game.weapons g) k) - dt <= 0 ->
  Game.tick_weapon dt g k
  = Game.finish_reload
      (Game.set_weapon k
         (mkData (ammo (lookup (Game.weapons g) k)) (reserve (lookup (Game.weapons g) k))
                 (cooldown (lookup (Game.weapons g) k) - dt)
                 (reloading (lookup (Game.weapons g) k) - dt)) g).
Proof.
  intros Hc Hr Hdone. unfold Game.tick_weapon. cbv zeta.
  destruct (Rgt_dec (cooldown (lookup (Game.weapons g) k)) 0); [ | contradiction].
  rewrite lookup_set_weapon. cbn [ammo reserve cooldown reloading].
  destruct (Rgt_dec (reloading (lookup (Game.weapons g) k)) 0); [ | contradiction].
  rewrite lookup_set_weapon. cbn [reloading].
  destruct (Rle_dec (reloading (lookup (Game.weapons g) k) - dt) 0); [ | contradiction].
  f_equal. destruct g, k; reflexivity.
Qed.

Lemma auto_reload_loaded (g : Game.t) :
  ammo (lookup (Game.weapons g) (Game.current_weapon g)) <> 0%Z ->
  Game.auto_reload g = g.
Proof.
  intro Ha. unfold Game.auto_reload.
  destruct (_ =? 0)%Z eqn:H0; [apply Z.eqb_eq in H0; contradiction | reflexivity].
Qed.

Lemma control_tick_playing (dt : R) (g : Game.t) :
  Game.state g = PLAYING ->
  control_step (TICK dt) g
  = Game.auto_reload
      (Game.tick_weapon dt
         (Game.tick_weapon dt (Game.tick_weapon dt g Pistol) Rifle) Shotgun).
Proof. intro H. unfold control_step. rewrite H. reflexivity. Qed.

Lemma control_fire_playing (mx my : Z) (g : Game.t) :
  Game.state g = PLAYING ->
  control_step (MOUSEBUTTONDOWN 1 mx my) g = fired g.
Proof. intro H. unfold control_step. rewrite H. reflexivity. Qed.

Lemma undershoot_control :
  cooldown (lookup (Game.weapons (control_run undershoot_inputs Game.init)) Pistol)
  = 3 / 10 - 1.
Proof.
  unfold undershoot_inputs, control_run. cbn [fold_left].
  change (control_step (MOUSEBUTTONDOWN 1 600 340) Game.init)
    with (restarted Game.init).
  rewrite control_fire_playing by reflexivity.
  rewrite fired_ready by (unfold ready; simpl; split; [lra | split; [lra | lia]]).
  rewrite control_tick_playing by reflexivity.
  rewrite (tick_weapon_cooling 1 _ Pistol) by (simpl; lra).
  rewrite (tick_weapon_idle 1 _ Rifle) by (simpl; lra).
  rewrite (tick_weapon_idle 1 _ Shotgun) by (simpl; lra).
  rewrite auto_reload_loaded by (simpl; lia).
  reflexivity.
Qed.

(** C2, as stated, fails: after a click that starts target practice, one
    shot and a tick of one second (all [dt >= 0]), the cooldown of the
    pistol is 0.3 - 1 < 0: [update] subtracts [dt] and sets no floor. *)
Lemma cooldown_goes_negative :
  ticks_within 1 undershoot_inputs
  /\ exists l' s',
       run undershoot_inputs main_init quiet_env = Some (l', s')
       /\ cooldown (lookup (Game.weapons (game l')) Pistol) < 0.
Proof.
  split.
  - unfold ticks_within, undershoot_inputs. repeat constructor; lra.
  - destruct (run_returns undershoot_inputs main_init Game.init
                          (same_control_refl _) quiet_env)
      as (l' & s' & Hrun & (_ & _ & Hw) & _).
    exists l', s'. split; [exact Hrun | ].
    rewrite Hw, undershoot_control. lra.
Qed.

Lemma set_weapon_timers (D : R) (k : WeaponKind) (d : WeaponData) (g : Game.t) :
  timers_above D g -> - D <= cooldown d -> - D <= reloading d ->
  timers_above D (Game.set_weapon k d g).
Proof.
  intros Hg Hc Hr k'. unfold Game.set_weapon. simpl. rewrite lookup_store.
  destruct (WeaponKind_eq_dec k' k) as [-> | _]; [auto | apply Hg].
Qed.

Lemma reload_time_positive (k : WeaponKind) : reload_time (WEAPONS k) > 0.
Proof. destruct k; simpl; lra. Qed.

Lemma fire_rate_positive (k : WeaponKind) : fire_rate (WEAPONS k) > 0.
Proof. destruct k; simpl; lra. Qed.

Lemma reload_timers (D : R) (g : Game.t) :
  0 <= D -> timers_above D g -> timers_above D (Game.reload g).
Proof.
  intros HD Hg. unfold Game.reload. control_cases; try exact Hg.
  apply set_weapon_timers; simpl; [exact Hg | apply Hg | ].
  pose proof (reload_time_positive (Game.current_weapon g)). lra.
Qed.

Lemma finish_reload_timers (D : R) (g : Game.t) :
  0 <= D -> timers_above D g -> timers_above D (Game.finish_reload g).
Proof.
  intros HD Hg. unfold Game.finish_reload.
  apply set_weapon_timers; simpl; [exact Hg | apply Hg | lra].
Qed.

Lemma tick_weapon_timers (D dt : R) (k : WeaponKind) (g : Game.t) :
  0 <= dt <= D -> timers_above D g -> timers_above D (Game.tick_weapon dt g k).
Proof.
  intros Hdt Hg. unfold Game.tick_weapon. cbv zeta.
  set (g1 := if Rgt_dec (cooldown (lookup (Game.weapons g) k)) 0 then _ else g).
  assert (H1 : timers_above D g1).
  { subst g1. destruct (Rgt_dec _ 0); [ | exact Hg].
    apply set_weapon_timers; simpl; [exact Hg | lra | apply Hg]. }
  clearbody g1.
  destruct (Rgt_dec _ 0); [ | exact H1].
  match goal with
  | |- timers_above D (if _ then _ else ?g2) =>
      assert (H2 : timers_above D g2)
        by (apply set_weapon_timers; simpl; [exact H1 | apply H1 | lra])
  end.
  destruct (Rle_dec _ 0); [apply finish_reload_timers; [lra | ] | ]; exact H2.
Qed.

Lemma fired_timers (D : R) (g : Game.t) :
  0 <= D -> timers_above D g -> timers_above D (fired g).
Proof.
  intros HD Hg. unfold fired. control_cases; try exact Hg.
  unfold Game.screen_shake. intro k'. simpl.
  apply (set_weapon_timers D (Game.current_weapon g) _ g Hg); simpl.
  - pose proof (fire_rate_positive (Game.current_weapon g)). lra.
  - apply Hg.
Qed.

Lemma initial_weapons_timers (D : R) (g : Game.t) :
  0 <= D -> Game.weapons g = initial_weapons -> timers_above D g.
Proof. intros HD H k. rewrite H. destruct k; simpl; lra. Qed.

Lemma control_step_timers (D : R) (i : Input) (g : Game.t) :
  0 <= D ->
  match i with TICK dt => 0 <= dt <= D | _ => True end ->
  timers_above D g -> timers_above D (control_step i g).
Proof.
  intros HD Hi Hg.
  destruct i as [key | key | button mx my | dx dy | dt]; unfold control_step;
    try exact Hg.
  - unfold on_keydown; cbn [game].
    destruct (Game.state g); try exact Hg; destruct key; try exact Hg.
    apply reload_timers; assumption.
  - destruct (Game.state g); try exact Hg.
    + destruct (_ && _)%bool; [apply initial_weapons_timers; [exact HD | reflexivity] | ].
      destruct (_ && _)%bool; [apply initial_weapons_timers; [exact HD | reflexivity] | ].
      exact Hg.
    + destruct (button =? 1)%Z; [apply fired_timers; assumption | exact Hg].
  - destruct (Game.state g); try exact Hg.
    cbn [fold_left weapon_keys]. unfold Game.auto_reload.
    set (g3 := Game.tick_weapon dt _ Shotgun).
    assert (H3 : timers_above D g3)
      by (subst g3; repeat apply tick_weapon_timers; assumption).
    clearbody g3. control_cases; try exact H3. apply reload_timers; assumption.
Qed.

Lemma control_run_timers (D : R) (inputs : list Input) (g : Game.t) :
  0 <= D -> ticks_within D inputs ->
  timers_above D g -> timers_above D (control_run inputs g).
Proof.
  intros HD Hin. revert g.
  induction Hin as [ | i rest Hi Hrest IH]; intros g Hg; [exact Hg | ].
  apply (IH (control_step i g)), control_step_timers; assumption.
Qed.

Lemma selected_set_weapon (k : WeaponKind) (d : WeaponData) (g : Game.t) :
  selected_reloading (Game.set_weapon k d g)
  = if WeaponKind_eq_dec (Game.current_weapon g) k
    then reloading d else selected_reloading g.
Proof.
  unfold selected_reloading, Game.set_weapon. simpl. rewrite lookup_store.
  destruct (WeaponKind_eq_dec _ _); reflexivity.
Qed.

Lemma selected_finish_reload (g : Game.t) :
  selected_reloading (Game.finish_reload g) = 0.
Proof.
  unfold Game.finish_reload. rewrite selected_set_weapon.
  destruct (WeaponKind_eq_dec _ _); [reflexivity | contradiction].
Qed.

Lemma selected_reload (g : Game.t) :
  0 <= selected_reloading g -> 0 <= selected_reloading (Game.reload g).
Proof.
  intro Hg. unfold Game.reload. control_cases; try exact Hg.
  rewrite selected_set_weapon.
  destruct (WeaponKind_eq_dec _ _); [ | contradiction]. simpl.
  pose proof (reload_time_positive (Game.current_weapon g)). lra.
Qed.

Lemma selected_tick_weapon (dt : R) (k : WeaponKind) (g : Game.t) :
  0 <= selected_reloading g -> 0 <= selected_reloading (Game.tick_weapon dt g k).
Proof.
  intro Hg. unfold Game.tick_weapon. cbv zeta.
  set (g1 := if Rgt_dec (cooldown (lookup (Game.weapons g) k)) 0 then _ else g).
  assert (H1 : 0 <= selected_reloading g1).
  { subst g1. destruct (Rgt_dec _ 0); [ | exact Hg].
    rewrite selected_set_weapon.
    destruct (WeaponKind_eq_dec _ _) as [<- | _]; [exact Hg | exact Hg]. }
  clearbody g1.
  destruct (Rgt_dec _ 0); [ | exact H1].
  destruct (Rle_dec _ 0) as [Hdone | Hleft].
  - rewrite selected_finish_reload. lra.
  - rewrite lookup_set_weapon in Hleft. simpl in Hleft.
    rewrite selected_set_weapon.
    destruct (WeaponKind_eq_dec _ _); [simpl; lra | exact H1].
Qed.

(** A tick never makes the reload timer of the selected weapon negative. *)
Lemma selected_tick (dt : R) (g : Game.t) :
  0 <= selected_reloading g ->
  0 <= selected_reloading (control_step (TICK dt) g).
Proof.
  intro Hg. unfold control_step. destruct (Game.state g); try exact Hg.
  cbn [fold_left weapon_keys]. unfold Game.auto_reload.
  set (g3 := Game.tick_weapon dt _ Shotgun).
  assert (H3 : 0 <= selected_reloading g3)
    by (subst g3; repeat apply selected_tick_weapon; exact Hg).
  clearbody g3. control_cases; try exact H3. apply selected_reload, H3.
Qed.

Lemma same_control_selected (g h : Game.t) :
  same_control g h -> selected_reloading g = selected_reloading h.
Proof.
  intros (_ & Hc & Hw). unfold selected_reloading. rewrite Hc, Hw. reflexivity.
Qed.

(** C2, amended: with [0 <= dt <= D] at every tick, whatever the inputs
    handled from the start of the program, no cooldown and no reload timer
    is ever below [- D] (a timer is decremented by [dt] only while it is
    positive, and the cooldown has no floor: it may rest below 0, by less
    than the [dt] of the tick that took it there); and a tick never
    makes the reload timer of the selected weapon negative, since
    [finish_reload] resets it to 0. *)
Theorem timers_bounded_below :
  forall (D : R) (inputs : list Input) (s : Env) (g : Game.t) (dt : R) (s0 : Env),
    0 <= D -> ticks_within D inputs -> 0 <= selected_reloading g ->
    (exists l' s',
        run inputs main_init s = Some (l', s') /\ timers_above D (game l'))
    /\ (exists g' s',
           Game.update dt g s0 = Some (g', s') /\ 0 <= selected_reloading g').
Proof.
  intros D inputs s g dt s0 HD Hin Hg. split.
  - destruct (run_returns inputs main_init Game.init (same_control_refl _) s)
      as (l' & s' & Hrun & (_ & _ & Hw) & _).
    exists l', s'. split; [exact Hrun | ].
    assert (H : timers_above D (control_run inputs Game.init)).
    { apply control_run_timers; [exact HD | exact Hin | ].
      apply initial_weapons_timers; [exact HD | reflexivity]. }
    intro k. rewrite Hw. apply H.
  - destruct (update_returns dt g s0) as (g' & s' & Hrun & Hc & _).
    exists g', s'. split; [exact Hrun | ].
    rewrite (same_control_selected _ _ Hc). apply selected_tick, Hg.
Qed.

Lemma timers_bounded_below_witness :
  (exists l' s',
      run undershoot_inputs main_init quiet_env = Some (l', s')
      /\ timers_above 1 (game l'))
  /\ (exists g' s',
         Game.update 1 Game.init quiet_env = Some (g', s')
         /\ 0 <= selected_reloading g').
Proof.
  apply (timers_bounded_below 1 undershoot_inputs quiet_env Game.init 1 quiet_env).
  - lra.
  - unfold ticks_within, undershoot_inputs. repeat constructor; lra.
  - unfold selected_reloading. simpl. lra.
Defined.

(** ** The end of a reload *)

Lemma control_key_r (g : Game.t) :
  Game.state g = PLAYING -> control_step (KEYDOWN K_r) g = Game.reload g.
Proof. intro H. unfold control_step, on_keydown. simpl. rewrite H. reflexivity. Qed.

Lemma control_key_2 (g : Game.t) :
  Game.state g = PLAYING ->
  control_step (KEYDOWN K_2) g = Game.set_current_weapon Rifle g.
Proof. intro H. unfold control_step, on_keydown. simpl. rewrite H. reflexivity. Qed.

Lemma reload_starts (g : Game.t) :
  ~ reloading (lookup (Game.weapons g) (Game.current_weapon g)) > 0 ->
  ammo (lookup (Game.weapons g) (Game.current_weapon g))
  <> max_ammo (WEAPONS (Game.current_weapon g)) ->
  (0 < reserve (lookup (Game.weapons g) (Game.current_weapon g)))%Z ->
  Game.reload g
  = Game.set_weapon (Game.current_weapon g)
      (mkData (ammo (lookup (Game.weapons g) (Game.current_weapon g)))
              (reserve (lookup (Game.weapons g) (Game.current_weapon g)))
              (cooldown (lookup (Game.weapons g) (Game.current_weapon g)))
              (reload_time (WEAPONS (Game.current_weapon g)))) g.
Proof.
  intros Hr Ha Hres. unfold Game.reload.
  destruct (Rgt_dec _ 0); [contradiction | ].
  destruct (_ =? _)%Z eqn:Hmax; [apply Z.eqb_eq in Hmax; contradiction | ].
  destruct (_ <=? 0)%Z eqn:Hz; [apply Z.leb_le in Hz; lia | reflexivity].
Qed.

Lemma reload_switch_control :
  Game.current_weapon (control_run reload_switch_inputs Game.init) = Rifle
  /\ lookup (Game.weapons (control_run reload_switch_inputs Game.init)) Pistol
     = mkData 11 36 (3 / 10 - 2) (15 / 10 - 2).
Proof.
  unfold reload_switch_inputs, control_run. cbn [fold_left].
  change (control_step (MOUSEBUTTONDOWN 1 600 340) Game.init)
    with (restarted Game.init).
  rewrite control_fire_playing by reflexivity.
  rewrite fired_ready by (unfold ready; simpl; split; [lra | split; [lra | lia]]).
  rewrite control_key_r by reflexivity.
  rewrite reload_starts by (simpl; first [lra | lia]).
  rewrite control_key_2 by reflexivity.
  rewrite control_tick_playing by reflexivity.
  rewrite (tick_weapon_reloaded 2 _ Pistol) by (simpl; lra).
  rewrite (tick_weapon_idle 2 _ Rifle) by (simpl; lra).
  rewrite (tick_weapon_idle 2 _ Shotgun) by (simpl; lra).
  rewrite auto_reload_loaded by (simpl; lia).
  split; reflexivity.
Qed.

(** C1 at a failing input: the pistol is fired once (11 rounds left of
    12, reserve 36), its reload is started, the rifle is selected, and
    two seconds pass.  The reload timer of the pistol crosses 0 during the
    tick, but [finish_reload] works on the selected weapon, the rifle: the
    pistol keeps 11 rounds and its reserve of 36, and its reload timer
    stays at 1.5 - 2 = -0.5 instead of 0. *)
Theorem reload_of_unselected_weapon_is_lost :
  exists l' s',
    run reload_switch_inputs main_init quiet_env = Some (l', s')
    /\ Game.current_weapon (game l') = Rifle
    /\ lookup (Game.weapons (game l')) Pistol
       = mkData 11 36 (3 / 10 - 2) (15 / 10 - 2).
Proof.
  destruct (run_returns reload_switch_inputs main_init Game.init
                        (same_control_refl _) quiet_env)
    as (l' & s' & Hrun & (_ & Hc & Hw) & _).
  exists l', s'. split; [exact Hrun | ]. rewrite Hc, Hw.
  exact reload_switch_control.
Qed.

(** ** Waves *)

Lemma run_cons (i : Input) (rest : list Input) (l : Loop) (s : Env) :
  run (i :: rest) l s
  = match step i l s with
    | Some (l', s') => run rest l' s'
    | None => None
    end.
Proof. reflexivity. Qed.

Lemma click_survival (l : Loop) :
  Game.state (game l) = MENU ->
  returns (step (MOUSEBUTTONDOWN 1 600 460) l)
          (fun s l' s' =>
             session_reset Survival (game l')
             /\ Game.wave (game l') = 1%Z
             /\ List.length (Game.enemies (game l'))
                = Z.to_nat (Game.enemies_per_wave (game l))
             /\ Game.enemies_per_wave (game l')
                = (Game.enemies_per_wave (game l) + 2)%Z
             /\ spawned 1 s s').
Proof.
  intro Hmenu. unfold step, on_mousebuttondown. rewrite Hmenu.
  cbn [Z.leb Z.compare Pos.compare Pos.compare_cont andb].
  eapply returns_bind; [apply start_game_survival | ].
  intros s g' s' (Hreset & Hwave & Hlen & _ & Hepw & Hs).
  eexists _, _. split; [reflexivity | ]. simpl. auto.
Qed.

(** C7 at a failing input: survival is started (5 enemies), the game is
    paused and left for the menu, and survival is started again.  The
    first wave of the second session is wave 1 and has 7 enemies, not 5:
    [start_game] does not reset [enemies_per_wave]. *)
Theorem second_session_first_wave :
  exists l' s',
    run second_session_inputs main_init quiet_env = Some (l', s')
    /\ Game.state (game l') = PLAYING
    /\ Game.wave (game l') = 1%Z
    /\ List.length (Game.enemies (game l')) = 7%nat.
Proof.
  unfold second_session_inputs.
  destruct (click_survival main_init eq_refl quiet_env)
    as (l1 & s1 & Hrun1 & Hreset1 & _ & Hlen1 & Hepw1 & _).
  rewrite run_cons, Hrun1.
  rewrite run_cons. cbn [step ret].
  rewrite run_cons. cbn [step ret].
  set (l3 := on_keydown K_m (on_keydown K_p l1)).
  assert (Hstate1 : Game.state (game l1) = PLAYING) by apply Hreset1.
  assert (H3 : Game.state (game l3) = MENU
               /\ Game.enemies_per_wave (game l3) = 7%Z).
  { subst l3. unfold on_keydown. rewrite Hstate1. simpl. split; [reflexivity | ].
    rewrite Hepw1. reflexivity. }
  destruct H3 as [Hmenu3 Hepw3].
  destruct (click_survival l3 Hmenu3 s1)
    as (l4 & s4 & Hrun4 & Hreset4 & Hwave4 & Hlen4 & _ & _).
  rewrite run_cons, Hrun4. exists l4, s4.
  split; [reflexivity | ]. split; [apply Hreset4 | ]. split; [exact Hwave4 | ].
  rewrite Hlen4, Hepw3. reflexivity.
Qed.

(** C9: [start_game] resets the score, the kills, the wave, the player
    health, the weapon dicts, the selected weapon, the camera, the
    enemies, the particles and the kill feed, and leaves
    [enemies_per_wave] as it was.  After any inputs handled from the start
    of the program, during which [k] waves were spawned in all,
    [enemies_per_wave] is [5 + 2 k]; so starting target practice then
    leaves it at [5 + 2 k], and starting survival then spawns a first wave
    of [5 + 2 k] enemies (wave 1, announced alone in the kill feed), not
    of 5. *)
Theorem restart_keeps_wave_size :
  forall (inputs : list Input) (s : Env),
  exists (l : Loop) (s1 : Env) (k : nat),
    run inputs main_init s = Some (l, s1)
    /\ waves_spawned s1 = (waves_spawned s + k)%nat
    /\ Game.enemies_per_wave (game l) = (5 + 2 * Z.of_nat k)%Z
    /\ (exists g',
           Game.start_game Target (game l) s1 = Some (g', s1)
           /\ session_reset Target g'
           /\ Game.wave g' = 0%Z
           /\ Game.enemies g'
              = map (fun pos => Enemy.new pos Normal) Game.target_positions
           /\ Game.kill_feed g' = []
           /\ Game.enemies_per_wave g' = (5 + 2 * Z.of_nat k)%Z)
    /\ (exists g' s2,
           Game.start_game Survival (game l) s1 = Some (g', s2)
           /\ session_reset Survival g'
           /\ Game.wave g' = 1%Z
           /\ List.length (Game.enemies g') = (5 + 2 * k)%nat
           /\ Game.kill_feed g' = [mkItem "Wave 1 Starting!" 3]
           /\ waves_spawned s2 = S (waves_spawned s1)).
Proof.
  intros inputs s.
  destruct (run_returns inputs main_init Game.init (same_control_refl _) s)
    as (l & s1 & Hrun & _ & k & (_ & _ & Hk) & Hepw).
  change (Game.enemies_per_wave (game main_init)) with 5%Z in Hepw.
  exists l, s1, k. split; [exact Hrun | ]. split; [exact Hk | ].
  split; [exact Hepw | ]. split.
  - destruct (start_game_target (game l) s1)
      as (g' & s' & Hstart & Hreset & Hwave & Hes & Hfeed & Hepw' & ->).
    exists g'. rewrite Hepw' , Hepw. auto 10.
  - destruct (start_game_survival (game l) s1)
      as (g' & s2 & Hstart & Hreset & Hwave & Hlen & Hfeed & _ & (_ & _ & Hs2)).
    exists g', s2. rewrite Hlen, Hepw.
    repeat split; try assumption; try apply Hreset; lia.
Qed.

(** ** Instances *)

Lemma length_ahead : Vector3.length ahead = 1.
Proof.
  unfold Vector3.length, ahead. simpl.
  match goal with |- sqrt ?a = 1 => replace a with 1 by ring end.
  apply sqrt_1.
Qed.

Lemma rejected_fire_is_noop_witness :
  Game.shoot cooling_game quiet_env = Some (cooling_game, quiet_env).
Proof.
  apply (rejected_fire_is_noop cooling_game quiet_env).
  left. simpl. lra.
Defined.

Lemma perp_dist_aside : perp_dist eye ahead (Enemy.position enemy_aside) = 2.
Proof.
  unfold perp_dist, Vector3.length, cross, Vector3.sub, eye, ahead. simpl.
  match goal with |- sqrt ?a = 2 => replace a with (2 * 2) by ring end.
  apply sqrt_square. lra.
Qed.

Lemma raycast_geometry_witness :
  Game.raycast (lone enemy_ahead) eye ahead = Some (0%nat, enemy_ahead)
  /\ (forall r, Game.raycast (lone enemy_aside) eye ahead = Some r -> fst r <> 0%nat)
  /\ (forall r, Game.raycast (lone enemy_behind) eye ahead = Some r -> fst r <> 0%nat).
Proof.
  split; [ | split].
  - apply (proj1 (raycast_geometry (lone enemy_ahead) eye ahead enemy_ahead 5 0
                                   length_ahead)).
    + reflexivity.
    + reflexivity.
    + simpl. lra.
    + lra.
    + unfold enemy_ahead, eye, ahead, Vector3.add, Vector3.mul. simpl.
      f_equal; ring.
  - apply (proj1 (proj2 (raycast_geometry (lone enemy_aside) eye ahead enemy_aside
                                          0 0 length_ahead))).
    + reflexivity.
    + rewrite perp_dist_aside. simpl. lra.
  - apply (proj2 (proj2 (raycast_geometry (lone enemy_behind) eye ahead enemy_behind
                                          0 0 length_ahead))).
    + reflexivity.
    + unfold projection, Vector3.dot, Vector3.sub, eye, ahead. simpl. lra.
Defined.

Lemma raycast_nearest_candidate_witness :
  match Game.raycast (lone enemy_ahead) eye ahead with
  | Some (j, e) =>
      nth_error (Game.enemies (lone enemy_ahead)) j = Some e
      /\ Enemy.alive e = true
      /\ candidate eye ahead e
      /\ forall e', In e' (Game.enemies (lone enemy_ahead)) -> candidate eye ahead e' ->
                    projection eye ahead e <= projection eye ahead e'
  | None =>
      forall e', In e' (Game.enemies (lone enemy_ahead)) -> ~ candidate eye ahead e'
  end.
Proof.
  apply (raycast_nearest_candidate (lone enemy_ahead) eye ahead).
  exact length_ahead.
Defined.



(** ** The volley of the shotgun *)

Lemma radians_0 : radians 0 = 0.
Proof. unfold radians. unfold Rdiv. ring. Qed.

Lemma unit_of_unit (v : Vector3.t) : Vector3.length v = 1 -> unit_of v = v.
Proof.
  intro H. pose proof (normalize_unit v H) as Hn.
  rewrite normalize_some in Hn. congruence.
Qed.

Lemma forward_of_init : forward_of Camera.init = ahead.
Proof.
  unfold forward_of, Camera.init. simpl. rewrite radians_0, sin_0, cos_0.
  replace (Vector3.mk (0 * 1) 0 (- (1) * 1)) with ahead
    by (unfold ahead; f_equal; ring).
  apply unit_of_unit, length_ahead.
Qed.

(** With the fresh camera and draws of 1/2 the pellet flies straight. *)
Lemma pellet_direction_straight (config : WeaponConfig) (s : Env) :
  floats s = (fun _ => 1 / 2) ->
  pellet_direction config Camera.init s = ahead.
Proof.
  intro Hs. unfold pellet_direction. rewrite forward_of_init, Hs. cbv zeta.
  replace (Vector3.mk _ _ _) with ahead
    by (unfold ahead; simpl; f_equal; field).
  apply unit_of_unit, length_ahead.
Qed.

(** The first alive enemy of the list is returned when it is in reach and
    no enemy after it is nearer along the ray. *)
Lemma raycast_first_alive (g : Game.t) (origin direction : Vector3.t)
      (dead rest : list Enemy.t) (e : Enemy.t) :
  Game.enemies g = dead ++ e :: rest ->
  Forall (fun e' => Enemy.alive e' = false) dead ->
  in_reach origin direction e ->
  (forall e', In e' rest ->
              projection origin direction e <= projection origin direction e') ->
  Game.raycast g origin direction = Some (List.length dead, e).
Proof.
  intros Hes Hdead Hin Hrest.
  pose proof (raycast_best origin direction g) as Hbest.
  assert (He : nth_error (Game.enemies g) (List.length dead) = Some e).
  { rewrite Hes, nth_error_app2 by lia. rewrite Nat.sub_diag. reflexivity. }
  destruct (Game.raycast g origin direction) as [[j e2] | ]; simpl in Hbest.
  - destruct Hbest as (Hj & Hin2 & Hmin).
    destruct (Nat.lt_trichotomy j (List.length dead)) as [Hlt | [Heq | Hgt]].
    + exfalso. rewrite Hes, nth_error_app1 in Hj by exact Hlt.
      apply nth_error_In in Hj.
      rewrite Forall_forall in Hdead. specialize (Hdead e2 Hj).
      destruct Hin2 as [Halive _]. congruence.
    + subst j. congruence.
    + exfalso. destruct (Hmin (List.length dead) e He Hin) as [_ Hstrict].
      specialize (Hstrict Hgt).
      assert (Hin_rest : In e2 rest).
      { rewrite Hes, nth_error_app2 in Hj by lia.
        destruct (j - List.length dead)%nat as [ | m] eqn:Hm; [lia | ].
        simpl in Hj. apply nth_error_In in Hj. exact Hj. }
      specialize (Hrest e2 Hin_rest). lra.
  - exfalso. apply (Hbest (List.length dead) e He Hin).
Qed.

Lemma set_nth_middle {A : Type} (pre post : list A) (a b : A) :
  set_nth (List.length pre) b (pre ++ a :: post) = pre ++ b :: post.
Proof. induction pre as [ | x pre IH]; simpl; [reflexivity | rewrite IH; reflexivity]. Qed.

(** One pellet whose ray cast is known. *)
Lemma shoot_pellet_hits (config : WeaponConfig) (g : Game.t) (s : Env)
      (i : nat) (e : Enemy.t) :
  Game.raycast g (Camera.position (Game.camera g))
               (pellet_direction config (Game.camera g) s) = Some (i, e) ->
  exists g' s',
    Game.shoot_pellet config g s = Some (g', s')
    /\ only_particles (after_hit config i e g) g'
    /\ floats s' = floats s.
Proof.
  intro Hr. rewrite shoot_pellet_eq, Hr.
  destruct (snd (Enemy.hit (damage config) e)).
  - destruct (create_explosion_returns
                (Enemy.position (fst (Enemy.hit (damage config) e)))
                (after_hit config i e g) (advance (advance s)))
      as (g' & s' & Hrun & Hpart & (Hf & _)).
    exists g', s'. split; [exact Hrun | split; [exact Hpart | exact Hf]].
  - eexists _, _. split; [reflexivity | ].
    split; [apply only_particles_refl | reflexivity].
Qed.

Lemma hit_kills (dmg : Z) (e : Enemy.t) :
  (Enemy.health e - dmg <= 0)%Z ->
  snd (Enemy.hit dmg e) = true /\ Enemy.alive (fst (Enemy.hit dmg e)) = false.
Proof.
  intro H. unfold Enemy.hit.
  destruct (Enemy.health e - dmg <=? 0)%Z eqn:Hle; [simpl; auto | ].
  apply Z.leb_gt in Hle. lia.
Qed.

Lemma hit_survives (origin direction : Vector3.t) (dmg : Z) (e : Enemy.t) :
  (0 < Enemy.health e - dmg)%Z ->
  in_reach origin direction e ->
  snd (Enemy.hit dmg e) = false /\ in_reach origin direction (fst (Enemy.hit dmg e)).
Proof.
  intros H Hin. unfold Enemy.hit.
  destruct (Enemy.health e - dmg <=? 0)%Z eqn:Hle; [apply Z.leb_le in Hle; lia | ].
  simpl. split; [reflexivity | exact Hin].
Qed.

Lemma combat_frame_camera (g g' : Game.t) :
  combat_frame g g' -> Game.camera g' = Game.camera g.
Proof. unfold combat_frame. intro H. rewrite H. reflexivity. Qed.

(** What the state is after a pellet that hit enemy [e] at index [i]. *)
Lemma after_pellet (config : WeaponConfig) (i : nat) (e : Enemy.t) (g g' : Game.t) :
  only_particles (after_hit config i e g) g' ->
  Game.camera g' = Game.camera g
  /\ Game.enemies g'
     = set_nth i (fst (Enemy.hit (damage config) e)) (Game.enemies g)
  /\ Game.kills g'
     = (Game.kills g + (if snd (Enemy.hit (damage config) e) then 1 else 0))%Z.
Proof.
  intro Hpart.
  destruct (only_particles_combat _ _ Hpart) as (Hf & He & Hk).
  destruct (after_hit_frame config i e g) as (Hf0 & He0 & Hk0).
  rewrite (combat_frame_camera _ _ Hf), (combat_frame_camera _ _ Hf0).
  rewrite He, He0, Hk, Hk0. auto.
Qed.

Lemma raycast_straight (config : WeaponConfig) (g : Game.t) (s : Env) :
  Game.camera g = Camera.init -> floats s = (fun _ => 1 / 2) ->
  Game.raycast g (Camera.position (Game.camera g))
               (pellet_direction config (Game.camera g) s)
  = Game.raycast g eye ahead.
Proof.
  intros Hcam Hs. rewrite Hcam, (pellet_direction_straight config s Hs). reflexivity.
Qed.

(** A volley on a column of enemies that each die of one hit: one pellet
    per enemy kills them all, front to back. *)
Lemma volley_kills_column (config : WeaponConfig) (live : list Enemy.t) :
  forall (dead : list Enemy.t) (g : Game.t) (s : Env),
    Game.camera g = Camera.init -> floats s = (fun _ => 1 / 2) ->
    Game.enemies g = dead ++ live ->
    Forall (fun e => Enemy.alive e = false) dead ->
    lined_up eye ahead (damage config) live ->
    exists g' s',
      repeatM (List.length live) (Game.shoot_pellet config) g s = Some (g', s')
      /\ Game.enemies g'
         = dead ++ map (fun e => fst (Enemy.hit (damage config) e)) live
      /\ Game.kills g' = (Game.kills g + Z.of_nat (List.length live))%Z.
Proof.
  induction live as [ | e rest IH]; intros dead g s Hcam Hs Hes Hdead Hline.
  - exists g, s. simpl. rewrite Hes. split; [reflexivity | split; [reflexivity | lia]].
  - destruct Hline as (Hin & Hweak & Hnear & Hrest).
    pose proof (raycast_first_alive g eye ahead dead rest e Hes Hdead Hin Hnear) as Hr.
    rewrite <- (raycast_straight config g s Hcam Hs) in Hr.
    destruct (shoot_pellet_hits config g s _ e Hr) as (g1 & s1 & Hrun1 & Hpart & Hf1).
    destruct (after_pellet config _ e g g1 Hpart) as (Hcam1 & Hes1 & Hk1).
    destruct (hit_kills (damage config) e Hweak) as [Hkilled Hdead_e].
    rewrite Hkilled in Hk1. rewrite Hes, set_nth_middle in Hes1.
    destruct (IH (dead ++ [fst (Enemy.hit (damage config) e)]) g1 s1)
      as (g2 & s2 & Hrun2 & Hes2 & Hk2).
    + congruence.
    + congruence.
    + rewrite Hes1, <- app_assoc. reflexivity.
    + apply Forall_app. split; [exact Hdead | ]. constructor; [exact Hdead_e | constructor].
    + exact Hrest.
    + exists g2, s2. cbn [repeatM List.length]. unfold bind. rewrite Hrun1.
      split; [exact Hrun2 | ]. split.
      * rewrite Hes2, <- app_assoc. reflexivity.
      * rewrite Hk2, Hk1. lia.
Qed.

Lemma worn_health (n : nat) (dmg : Z) (e : Enemy.t) :
  Enemy.health (worn n dmg e) = (Enemy.health e - Z.of_nat n * dmg)%Z.
Proof.
  revert e. induction n as [ | n IH]; intro e.
  - simpl. lia.
  - cbn [worn]. rewrite IH, hit_health. lia.
Qed.

(** A volley on a single enemy that survives it: every pellet hits it. *)
Lemma volley_wears_down (config : WeaponConfig) (n : nat) :
  forall (e : Enemy.t) (g : Game.t) (s : Env),
    Game.camera g = Camera.init -> floats s = (fun _ => 1 / 2) ->
    Game.enemies g = [e] ->
    in_reach eye ahead e ->
    (0 <= damage config)%Z ->
    (0 < Enemy.health e - Z.of_nat n * damage config)%Z ->
    exists g' s',
      repeatM n (Game.shoot_pellet config) g s = Some (g', s')
      /\ Game.enemies g' = [worn n (damage config) e]
      /\ Game.kills g' = Game.kills g.
Proof.
  induction n as [ | n IH]; intros e g s Hcam Hs Hes Hin Hdmg Hleft.
  - exists g, s. simpl. auto.
  - assert (Hr : Game.raycast g eye ahead = Some (0%nat, e)).
    { apply (raycast_first_alive g eye ahead [] [] e); auto.
      intros e' []. }
    rewrite <- (raycast_straight config g s Hcam Hs) in Hr.
    destruct (shoot_pellet_hits config g s _ e Hr) as (g1 & s1 & Hrun1 & Hpart & Hf1).
    destruct (after_pellet config _ e g g1 Hpart) as (Hcam1 & Hes1 & Hk1).
    assert (Hfirst : (0 < Enemy.health e - damage config)%Z) by lia.
    destruct (hit_survives eye ahead (damage config) e Hfirst Hin) as [Hlives Hin1].
    rewrite Hlives in Hk1. rewrite Hes in Hes1. simpl in Hes1.
    destruct (IH (fst (Enemy.hit (damage config) e)) g1 s1)
      as (g2 & s2 & Hrun2 & Hes2 & Hk2); try congruence; try assumption.
    + rewrite hit_health. lia.
    + exists g2, s2. cbn [repeatM worn]. unfold bind. rewrite Hrun1.
      split; [exact Hrun2 | ]. split; [exact Hes2 | ]. rewrite Hk2, Hk1. lia.
Qed.

Lemma shoot_ready_eq (g : Game.t) (s : Env) :
  ready g ->
  Game.shoot g s
  = repeatM (Z.to_nat (pellets (WEAPONS (Game.current_weapon g))))
            (Game.shoot_pellet (WEAPONS (Game.current_weapon g))) (fired g) s.
Proof.
  intro Hready. rewrite (fired_ready g Hready).
  destruct Hready as (Hc & Hr & Ha). unfold Game.shoot.
  destruct (Rgt_dec _ 0); [contradiction | ].
  destruct (Rgt_dec _ 0); [contradiction | ].
  destruct (_ <=? 0)%Z eqn:Hammo; [apply Z.leb_le in Hammo; lia | ].
  reflexivity.
Qed.

Lemma tank_projection (z : R) (h : Z) : projection eye ahead (tank_at z h) = z.
Proof. unfold projection, Vector3.dot, Vector3.sub, tank_at, eye, ahead. simpl. ring. Qed.

Lemma tank_in_reach (z : R) (h : Z) : 0 <= z -> in_reach eye ahead (tank_at z h).
Proof.
  intro Hz. unfold in_reach. rewrite tank_projection.
  split; [reflexivity | split; [exact Hz | ]].
  unfold ray_distance. rewrite tank_projection.
  unfold Vector3.length, Vector3.sub, Vector3.add, Vector3.mul, tank_at, eye, ahead.
  simpl.
  match goal with |- sqrt ?a < _ => replace a with 1 by ring end.
  rewrite sqrt_1. lra.
Qed.

Lemma ambush_lined_up :
  lined_up eye ahead 20 (Game.enemies ambush).
Proof.
  unfold ambush, shotgun_game. simpl.
  repeat (split; [apply tank_in_reach; lra | split; [simpl; lia | split]]);
    try exact I;
    intros e' Hin; simpl in Hin;
    repeat (destruct Hin as [<- | Hin]; [rewrite !tank_projection; lra | ]);
    contradiction.
Qed.

Lemma ready_shotgun_game (es : list Enemy.t) : ready (shotgun_game es).
Proof. unfold ready. simpl. split; [lra | split; [lra | lia]]. Qed.

(** C8: an accepted fire intent with the shotgun takes exactly 1 round
    from its magazine, whatever its 6 pellets do; the pellets that hit
    ([hits <= 6] of them) take 20 health each from the enemies and kill at
    most [hits] of them.  Six kills are possible: on six tanks with 20
    health left in a column before the player, one shot kills all six.
    So is six times the damage on one enemy: one shot takes a fresh tank
    from 150 to 30 health. *)
Theorem shotgun_volley :
  forall (g : Game.t) (s : Env),
    Game.current_weapon g = Shotgun -> ready g ->
    (exists g' s',
        Game.shoot g s = Some (g', s')
        /\ ammo (lookup (Game.weapons g') Shotgun)
           = (ammo (lookup (Game.weapons g) Shotgun) - 1)%Z
        /\ reserve (lookup (Game.weapons g') Shotgun)
           = reserve (lookup (Game.weapons g) Shotgun)
        /\ exists hits : Z,
             (0 <= hits <= 6)%Z
             /\ total_health (Game.enemies g')
                = (total_health (Game.enemies g) - 20 * hits)%Z
             /\ (Game.kills g <= Game.kills g' <= Game.kills g + hits)%Z)
    /\ (exists g' s',
           Game.shoot ambush quiet_env = Some (g', s')
           /\ ammo (lookup (Game.weapons g') Shotgun) = 7%Z
           /\ Forall (fun e => Enemy.alive e = true) (Game.enemies ambush)
           /\ List.length (Game.enemies ambush) = 6%nat
           /\ Game.kills ambush = 0%Z
           /\ Game.kills g' = 6%Z
           /\ List.length (Game.enemies g') = 6%nat
           /\ Forall (fun e => Enemy.alive e = false) (Game.enemies g'))
    /\ (exists g' s',
           Game.shoot duel quiet_env = Some (g', s')
           /\ ammo (lookup (Game.weapons g') Shotgun) = 7%Z
           /\ map Enemy.health (Game.enemies duel) = [150%Z]
           /\ map Enemy.health (Game.enemies g') = [(150 - 6 * 20)%Z]
           /\ Game.kills g' = 0%Z).
Proof.
  intros g s Hshotgun Hready. split; [ | split].
  - destruct (shoot_ready g Hready s) as (g' & s' & Hrun & Hvolley & _).
    rewrite Hshotgun in Hvolley. simpl in Hvolley.
    destruct Hvolley as (Hframe & hits & Hhits & Hhealth & Hkills).
    destruct (combat_frame_control _ _ Hframe) as [(_ & _ & Hw) _].
    rewrite (fired_ready g Hready), Hshotgun in Hw, Hhealth, Hkills.
    exists g', s'. split; [exact Hrun | ]. rewrite Hw. simpl.
    split; [reflexivity | split; [reflexivity | ]].
    exists hits. simpl in Hhealth, Hkills. auto.
  - pose proof (ready_shotgun_game (Game.enemies ambush)) as Hready'.
    change (shotgun_game (Game.enemies ambush)) with ambush in Hready'.
    rewrite (shoot_ready_eq ambush quiet_env Hready').
    rewrite (fired_ready ambush Hready').
    match goal with
    | |- exists g' s', repeatM _ _ ?g0 _ = _ /\ _ =>
        destruct (volley_kills_column (WEAPONS Shotgun) (Game.enemies ambush) []
                                      g0 quiet_env eq_refl eq_refl eq_refl
                                      (Forall_nil _) ambush_lined_up)
          as (g' & s' & Hrun & Hes & Hk);
        destruct (volley_returns (WEAPONS Shotgun) 6 g0 quiet_env)
          as (g2 & s2 & Hrun2 & (Hframe & _) & _)
    end.
    change (Z.to_nat (pellets (WEAPONS (Game.current_weapon ambush)))) with 6%nat.
    change (List.length (Game.enemies ambush)) with 6%nat in Hrun.
    change (WEAPONS (Game.current_weapon ambush)) with (WEAPONS Shotgun).
    assert (g2 = g' /\ s2 = s') as [-> ->] by (split; congruence).
    exists g', s'. split; [exact Hrun | ].
    destruct (combat_frame_control _ _ Hframe) as [(_ & _ & Hw) _].
    rewrite Hw, Hes, Hk. simpl.
    repeat split; try reflexivity; repeat constructor.
  - pose proof (ready_shotgun_game (Game.enemies duel)) as Hready'.
    change (shotgun_game (Game.enemies duel)) with duel in Hready'.
    rewrite (shoot_ready_eq duel quiet_env Hready').
    rewrite (fired_ready duel Hready').
    match goal with
    | |- exists g' s', repeatM _ _ ?g0 _ = _ /\ _ =>
        destruct (volley_wears_down (WEAPONS Shotgun) 6 (tank_at 5 150)
                                    g0 quiet_env eq_refl eq_refl eq_refl
                                    (tank_in_reach 5 150 ltac:(lra))
                                    ltac:(simpl; lia) ltac:(simpl; lia))
          as (g' & s' & Hrun & Hes & Hk);
        destruct (volley_returns (WEAPONS Shotgun) 6 g0 quiet_env)
          as (g2 & s2 & Hrun2 & (Hframe & _) & _)
    end.
    change (Z.to_nat (pellets (WEAPONS (Game.current_weapon duel)))) with 6%nat.
    change (WEAPONS (Game.current_weapon duel)) with (WEAPONS Shotgun).
    assert (g2 = g' /\ s2 = s') as [-> ->] by (split; congruence).
    exists g', s'. split; [exact Hrun | ].
    destruct (combat_frame_control _ _ Hframe) as [(_ & _ & Hw) _].
    rewrite Hw, Hes, Hk. cbn [map]. rewrite worn_health.
    repeat split; reflexivity.
Qed.

Lemma shotgun_volley_witness :
  exists g' s',
    Game.shoot duel quiet_env = Some (g', s')
    /\ ammo (lookup (Game.weapons g') Shotgun)
       = (ammo (lookup (Game.weapons duel) Shotgun) - 1)%Z
    /\ reserve (lookup (Game.weapons g') Shotgun)
       = reserve (lookup (Game.weapons duel) Shotgun)
    /\ exists hits : Z,
         (0 <= hits <= 6)%Z
         /\ total_health (Game.enemies g')
            = (total_health (Game.enemies duel) - 20 * hits)%Z
         /\ (Game.kills duel <= Game.kills g' <= Game.kills duel + hits)%Z.
Proof.
  apply (proj1 (shotgun_volley duel quiet_env eq_refl
                               ltac:(unfold ready; simpl;
                                     split; [lra | split; [lra | lia]]))).
Defined.

(** ** The tick that clears a wave *)

Lemma mapM_dead (dt : R) (p : Vector3.t) (es : list Enemy.t) (s : Env) :
  Forall (fun e => Enemy.alive e = false) es ->
  mapM (Enemy.update dt p) es s = Some (es, s).
Proof.
  induction 1 as [ | e rest He Hrest IH]; [reflexivity | ].
  cbn [mapM]. unfold bind at 1. unfold Enemy.update at 1. rewrite He.
  cbn [negb]. unfold ret at 1. unfold bind at 1. rewrite IH. reflexivity.
Qed.

Lemma filter_dead (es : list Enemy.t) :
  Forall (fun e => Enemy.alive e = false) es -> filter Enemy.alive es = [].
Proof.
  induction 1 as [ | e rest He Hrest IH]; [reflexivity | ].
  simpl. rewrite He. exact IH.
Qed.

(** In survival mode, the tick that finds no enemy alive increments the
    wave number and spawns [enemies_per_wave] enemies, the next wave
    being 2 larger. *)
Lemma cleared_wave_tick (dt : R) (g : Game.t) :
  Game.state g = PLAYING -> Game.game_mode g = Some Survival ->
  Forall (fun e => Enemy.alive e = false) (Game.enemies g) ->
  returns (Game.update dt g)
          (fun s g' s' =>
             Game.wave g' = (Game.wave g + 1)%Z
             /\ List.length (Game.enemies g') = Z.to_nat (Game.enemies_per_wave g)
             /\ Game.enemies_per_wave g' = (Game.enemies_per_wave g + 2)%Z
             /\ spawned 1 s s').
Proof.
  intros Hstate Hmode Hdead s. unfold Game.update. rewrite Hstate. cbv zeta.
  pose proof (weapon_phase_only dt g) as Honly.
  remember (Game.auto_reload (fold_left (Game.tick_weapon dt) weapon_keys g)) as gw
    eqn:Hgw.
  clear Hgw.
  assert (Hsame : Game.enemies gw = Game.enemies g
                  /\ Game.game_mode gw = Game.game_mode g
                  /\ Game.wave gw = Game.wave g
                  /\ Game.enemies_per_wave gw = Game.enemies_per_wave g).
  { rewrite Honly. simpl. auto. }
  destruct Hsame as (Hes & Hgm & Hwave & Hepw).
  unfold bind. rewrite Hes, (mapM_dead dt _ _ s Hdead), (filter_dead _ Hdead).
  set (g4 := if Rgt_dec _ 0 then _ else _).
  assert (H4 : Game.enemies g4 = [] /\ Game.game_mode g4 = Some Survival
               /\ Game.wave g4 = Game.wave g
               /\ Game.enemies_per_wave g4 = Game.enemies_per_wave g).
  { subst g4. destruct (Rgt_dec _ 0); simpl; rewrite Hgm, Hwave, Hepw; auto. }
  clearbody g4. destruct H4 as (Hes4 & Hgm4 & Hwave4 & Hepw4).
  rewrite Hgm4, Hes4.
  destruct (spawn_wave_returns (Game.set_wave (Game.wave g4 + 1) g4) s)
    as (g5 & s5 & Hrun & Hframe & Hlen & Hs).
  exists g5, s5. split; [exact Hrun | ].
  unfold wave_frame in Hframe. simpl in Hlen. rewrite Hes4 in Hlen. simpl in Hlen.
  rewrite Nat.add_0_r, Hepw4 in Hlen.
  split; [rewrite Hframe; simpl; rewrite Hwave4; reflexivity | ].
  split; [exact Hlen | ].
  split; [rewrite Hframe; simpl; rewrite Hepw4; reflexivity | exact Hs].
Qed.

(** * Further properties of the code

    The vectors and the camera, the life of enemies, particles and
    kill-feed lines through a tick, wave spawning, the books of a shot,
    the timers of fire and reload, the movement of the player, the pause,
    and what the loop of [main] keeps true from the start of the program.

    As rendering is left out, so are the two draws of [random.uniform]
    that it makes per frame while the screen shakes: where a property
    says that no random number is drawn, it speaks of the event handlers,
    of [update] and of the movement of the player. *)

(** ** Vector3 and Camera *)

Lemma length_unit_of (v : Vector3.t) :
  Vector3.length v > 0 -> Vector3.length (unit_of v) = 1.
Proof.
  intro Hpos. unfold unit_of. destruct (Rgt_dec _ 0); [ | contradiction].
  pose proof (length_square v) as Hsq.
  set (l := Vector3.length v) in *.
  unfold Vector3.length. cbn [Vector3.x Vector3.y Vector3.z].
  replace ((Vector3.x v / l) ^ 2 + (Vector3.y v / l) ^ 2 + (Vector3.z v / l) ^ 2)
    with ((Vector3.x v ^ 2 + Vector3.y v ^ 2 + Vector3.z v ^ 2) / (l * l))
    by (field; lra).
  rewrite <- Hsq. replace (l * l / (l * l)) with 1 by (field; lra).
  apply sqrt_1.
Qed.



Lemma forward_raw_length (yaw pitch : R) :
  Vector3.length (Vector3.mk (sin yaw * cos pitch) (sin pitch) (- cos yaw * cos pitch))
  = 1.
Proof.
  unfold Vector3.length. cbn [Vector3.x Vector3.y Vector3.z].
  pose proof (sin2_cos2 yaw) as Hy. pose proof (sin2_cos2 pitch) as Hp.
  unfold Rsqr in Hy, Hp.
  replace ((sin yaw * cos pitch) ^ 2 + sin pitch ^ 2 + (- cos yaw * cos pitch) ^ 2)
    with ((sin yaw * sin yaw + cos yaw * cos yaw) * (cos pitch * cos pitch)
          + sin pitch * sin pitch) by ring.
  rewrite Hy. replace (1 * (cos pitch * cos pitch) + sin pitch * sin pitch) with 1 by lra.
  apply sqrt_1.
Qed.


Lemma get_forward_raw (c : Camera.t) :
  Camera.get_forward c
  = Some (Vector3.mk
            (sin (radians (Camera.yaw c)) * cos (radians (Camera.pitch c)))
            (sin (radians (Camera.pitch c)))
            (- cos (radians (Camera.yaw c)) * cos (radians (Camera.pitch c)))).
Proof. unfold Camera.get_forward. apply normalize_unit, forward_raw_length. Qed.

Lemma cos_radians_positive (deg : R) : -90 < deg < 90 -> 0 < cos (radians deg).
Proof.
  intros [Hlo Hhi]. pose proof PI_RGT_0 as Hpi. unfold radians.
  apply cos_gt_0; nra.
Qed.

Lemma get_right_value (c : Camera.t) :
  -90 < Camera.pitch c < 90 ->
  Camera.get_right c
  = Some (Vector3.mk (- cos (radians (Camera.yaw c))) 0
                     (- sin (radians (Camera.yaw c)))).
Proof.
  intro Hpitch. pose proof (cos_radians_positive _ Hpitch) as Hcos.
  unfold Camera.get_right. rewrite get_forward_raw, normalize_some.
  cbn [Vector3.x Vector3.y Vector3.z]. f_equal.
  set (cy := cos (radians (Camera.yaw c))) in *.
  set (sy := sin (radians (Camera.yaw c))) in *.
  set (cp := cos (radians (Camera.pitch c))) in *.
  set (sp := sin (radians (Camera.pitch c))) in *.
  assert (Hcs : sy * sy + cy * cy = 1).
  { pose proof (sin2_cos2 (radians (Camera.yaw c))) as H. unfold Rsqr in H. exact H. }
  assert (Hlen : Vector3.length
                   (Vector3.mk (- cy * cp * 1 - sp * 0) (sy * cp * 0 - - cy * cp * 0)
                               (sp * 0 - sy * cp * 1)) = cp).
  { unfold Vector3.length. cbn [Vector3.x Vector3.y Vector3.z].
    match goal with
    | |- sqrt ?a = _ =>
        replace a with ((sy * sy + cy * cy) * (cp * cp)) by ring
    end.
    rewrite Hcs, Rmult_1_l. apply sqrt_square. lra. }
  unfold unit_of. rewrite Hlen. cbn [Vector3.x Vector3.y Vector3.z].
  destruct (Rgt_dec cp 0); [ | lra]. f_equal; field; lra.
Qed.

(** X3: while the pitch is strictly between -90 and 90 degrees, as the
    clamp of the mouse handler keeps it, [get_right] returns
    (- cos yaw, 0, - sin yaw): a horizontal vector of length 1,
    perpendicular to the forward vector, whatever the pitch. *)
Theorem get_right_is_horizontal_unit :
  forall c : Camera.t,
    -90 < Camera.pitch c < 90 ->
    exists f r,
      Camera.get_forward c = Some f
      /\ Camera.get_right c = Some r
      /\ r = Vector3.mk (- cos (radians (Camera.yaw c))) 0
                        (- sin (radians (Camera.yaw c)))
      /\ Vector3.y r = 0
      /\ Vector3.length r = 1
      /\ Vector3.dot f r = 0.
Proof.
  intros c Hpitch. eexists _, _.
  split; [apply get_forward_raw | ]. split; [apply (get_right_value c Hpitch) | ].
  split; [reflexivity | ]. split; [reflexivity | ]. split.
  - unfold Vector3.length. cbn [Vector3.x Vector3.y Vector3.z].
    pose proof (sin2_cos2 (radians (Camera.yaw c))) as H. unfold Rsqr in H.
    match goal with
    | |- sqrt ?a = _ => replace a with 1 by (rewrite <- H; ring)
    end.
    apply sqrt_1.
  - unfold Vector3.dot. cbn [Vector3.x Vector3.y Vector3.z]. ring.
Qed.

Lemma get_right_is_horizontal_unit_witness :
  exists f r,
    Camera.get_forward Camera.init = Some f
    /\ Camera.get_right Camera.init = Some r
    /\ r = Vector3.mk (- cos (radians (Camera.yaw Camera.init))) 0
                      (- sin (radians (Camera.yaw Camera.init)))
    /\ Vector3.y r = 0
    /\ Vector3.length r = 1
    /\ Vector3.dot f r = 0.
Proof.
  apply (get_right_is_horizontal_unit Camera.init). simpl. lra.
Defined.

(** ** Enemy *)

Lemma hit_alive (dmg : Z) (e : Enemy.t) :
  Enemy.alive (fst (Enemy.hit dmg e))
  = (Enemy.alive e && (0 <? Enemy.health e - dmg)%Z)%bool.
Proof.
  unfold Enemy.hit.
  destruct (Enemy.health e - dmg <=? 0)%Z eqn:Hle; simpl.
  - apply Z.leb_le in Hle. destruct (Z.ltb_spec 0 (Enemy.health e - dmg)); [lia | ].
    rewrite andb_false_r. reflexivity.
  - apply Z.leb_gt in Hle. destruct (Z.ltb_spec 0 (Enemy.health e - dmg)); [ | lia].
    rewrite andb_true_r. reflexivity.
Qed.

(** X4: an enemy with positive health that takes [n] hits of a positive
    damage [dmg] has lost [n * dmg] health and is alive afterwards exactly
    when it was alive and [n * dmg] is less than its health: it dies at the
    first hit that brings the health to 0 or below, and no later hit
    revives it. *)
Theorem hits_to_kill :
  forall (n : nat) (dmg : Z) (e : Enemy.t),
    (0 < dmg)%Z -> (0 < Enemy.health e)%Z ->
    Enemy.health (worn n dmg e) = (Enemy.health e - Z.of_nat n * dmg)%Z
    /\ (Enemy.alive (worn n dmg e) = true
        <-> Enemy.alive e = true /\ (0 < Enemy.health e - Z.of_nat n * dmg)%Z).
Proof.
  intros n dmg e Hdmg Hhealth. split; [apply worn_health | ].
  assert (H : forall m e0,
             (Enemy.alive e0 = true -> (0 < Enemy.health e0)%Z) ->
             (Enemy.alive (worn m dmg e0) = true
              <-> Enemy.alive e0 = true
                  /\ (0 < Enemy.health e0 - Z.of_nat m * dmg)%Z)).
  { induction m as [ | m IH]; intros e0 Hok.
    - simpl. split; [intro Ha; split; [exact Ha | specialize (Hok Ha); lia] | tauto].
    - cbn [worn]. rewrite IH.
      + rewrite hit_alive, hit_health, andb_true_iff, Z.ltb_lt. split.
        * intros [[Ha Hfirst] Hrest]. split; [exact Ha | lia].
        * intros [Ha Hrest]. split; [split; [exact Ha | ] | ]; lia.
      + rewrite hit_alive, hit_health, andb_true_iff, Z.ltb_lt. tauto. }
  apply H. intros _. exact Hhealth.
Qed.

Lemma hits_to_kill_witness :
  Enemy.health (worn 3 35 enemy_ahead) = (Enemy.health enemy_ahead - Z.of_nat 3 * 35)%Z
  /\ (Enemy.alive (worn 3 35 enemy_ahead) = true
      <-> Enemy.alive enemy_ahead = true
          /\ (0 < Enemy.health enemy_ahead - Z.of_nat 3 * 35)%Z).
Proof.
  apply (hits_to_kill 3 35 enemy_ahead); simpl; lia.
Defined.

Lemma length_mul (v : Vector3.t) (k : R) :
  Vector3.length (Vector3.mul v k) = Rabs k * Vector3.length v.
Proof.
  unfold Vector3.length, Vector3.mul. cbn [Vector3.x Vector3.y Vector3.z].
  replace ((Vector3.x v * k) ^ 2 + (Vector3.y v * k) ^ 2 + (Vector3.z v * k) ^ 2)
    with (Rsqr k * (Vector3.x v ^ 2 + Vector3.y v ^ 2 + Vector3.z v ^ 2))
    by (unfold Rsqr; ring).
  rewrite sqrt_mult; [ | apply Rle_0_sqr | apply sum_squares_nonneg].
  rewrite sqrt_Rsqr_abs. reflexivity.
Qed.

Lemma sub_add_cancel (a m : Vector3.t) : Vector3.sub (Vector3.add a m) a = m.
Proof.
  destruct a, m. unfold Vector3.sub, Vector3.add. simpl. f_equal; ring.
Qed.

(** A step of length [k * dt] along the direction of [v], as the enemy
    and the player take it. *)
Lemma stride_length (v : Vector3.t) (k dt : R) :
  Vector3.length v > 0 -> 0 <= k -> 0 <= dt ->
  Vector3.length (Vector3.mul (Vector3.mul (unit_of v) k) dt) = k * dt.
Proof.
  intros Hv Hk Hdt. rewrite !length_mul, (length_unit_of v Hv).
  rewrite !Rabs_right by lra. ring.
Qed.

Lemma unit_of_flat (v : Vector3.t) :
  Vector3.y v = 0 -> Vector3.y (unit_of v) = 0.
Proof.
  intro Hy. unfold unit_of. destruct (Rgt_dec _ 0); [ | reflexivity].
  cbn [Vector3.y]. rewrite Hy. unfold Rdiv. ring.
Qed.

(** X5: the update of an enemy, for [dt >= 0] and a speed [>= 0], raises
    nothing, leaves the height [y] of the enemy, its health, its alive
    flag and the stats of its kind as they were, and either leaves the
    enemy where it is or moves it by exactly [speed * dt]. *)
Theorem enemy_moves_at_its_speed :
  forall (dt : R) (player_pos : Vector3.t) (e : Enemy.t) (s : Env),
    0 <= dt -> 0 <= Enemy.speed e ->
    exists e' s',
      Enemy.update dt player_pos e s = Some (e', s')
      /\ Vector3.y (Enemy.position e') = Vector3.y (Enemy.position e)
      /\ Enemy.health e' = Enemy.health e
      /\ Enemy.alive e' = Enemy.alive e
      /\ Enemy.enemy_type e' = Enemy.enemy_type e
      /\ Enemy.max_health e' = Enemy.max_health e
      /\ Enemy.speed e' = Enemy.speed e
      /\ Enemy.size e' = Enemy.size e
      /\ Enemy.score e' = Enemy.score e
      /\ (Enemy.position e' = Enemy.position e
          \/ Vector3.length (Vector3.sub (Enemy.position e') (Enemy.position e))
             = Enemy.speed e * dt).
Proof.
  intros dt player_pos e s Hdt Hspeed. unfold Enemy.update.
  destruct (negb (Enemy.alive e)).
  { exists e, s. unfold ret. repeat split; auto. }
  assert (Hmove : forall (e2 : Enemy.t) (s2 : Env),
             Enemy.position e2 = Enemy.position e ->
             Enemy.health e2 = Enemy.health e -> Enemy.alive e2 = Enemy.alive e ->
             Enemy.enemy_type e2 = Enemy.enemy_type e ->
             Enemy.max_health e2 = Enemy.max_health e ->
             Enemy.speed e2 = Enemy.speed e -> Enemy.size e2 = Enemy.size e ->
             Enemy.score e2 = Enemy.score e ->
             exists e' s',
               match Enemy.move_target e2 with
               | Some target =>
                   let direction := Vector3.sub target (Enemy.position e2) in
                   let direction :=
                     Vector3.mk (Vector3.x direction) 0 (Vector3.z direction) in
                   let dist := Vector3.length direction in
                   if Rgt_dec dist (5 / 10) then
                     n <- lift (Vector3.normalize direction) ;;
                     let move := Vector3.mul (Vector3.mul n (Enemy.speed e2)) dt in
                     ret (Enemy.set_position (Vector3.add (Enemy.position e2) move) e2)
                   else ret e2
               | None => ret e2
               end s2 = Some (e', s')
               /\ Vector3.y (Enemy.position e') = Vector3.y (Enemy.position e)
               /\ Enemy.health e' = Enemy.health e
               /\ Enemy.alive e' = Enemy.alive e
               /\ Enemy.enemy_type e' = Enemy.enemy_type e
               /\ Enemy.max_health e' = Enemy.max_health e
               /\ Enemy.speed e' = Enemy.speed e
               /\ Enemy.size e' = Enemy.size e
               /\ Enemy.score e' = Enemy.score e
               /\ (Enemy.position e' = Enemy.position e
                   \/ Vector3.length
                        (Vector3.sub (Enemy.position e') (Enemy.position e))
                      = Enemy.speed e * dt)).
  { intros e2 s2 Hpos Hh Ha Ht Hm Hsp Hsz Hsc.
    assert (Hstay : exists e' s',
               ret e2 s2 = Some (e', s')
               /\ Vector3.y (Enemy.position e') = Vector3.y (Enemy.position e)
               /\ Enemy.health e' = Enemy.health e
               /\ Enemy.alive e' = Enemy.alive e
               /\ Enemy.enemy_type e' = Enemy.enemy_type e
               /\ Enemy.max_health e' = Enemy.max_health e
               /\ Enemy.speed e' = Enemy.speed e
               /\ Enemy.size e' = Enemy.size e
               /\ Enemy.score e' = Enemy.score e
               /\ (Enemy.position e' = Enemy.position e
                   \/ Vector3.length
                        (Vector3.sub (Enemy.position e') (Enemy.position e))
                      = Enemy.speed e * dt)).
    { exists e2, s2. unfold ret. rewrite Hpos. repeat split; auto. }
    destruct (Enemy.move_target e2) as [target | ]; [ | exact Hstay].
    cbv zeta.
    set (direction := Vector3.mk _ 0 _).
    destruct (Rgt_dec (Vector3.length direction) (5 / 10)) as [Hfar | _];
      [ | exact Hstay].
    unfold bind, lift, ret. rewrite normalize_some. eexists _, _.
    split; [reflexivity | ]. cbn [Enemy.set_position Enemy.position Enemy.health
      Enemy.alive Enemy.enemy_type Enemy.max_health Enemy.speed Enemy.size Enemy.score].
    repeat split; try assumption.
    - rewrite Hpos. unfold Vector3.add, Vector3.mul.
      cbn [Vector3.x Vector3.y Vector3.z].
      rewrite (unit_of_flat direction eq_refl). ring.
    - right. rewrite Hpos, sub_add_cancel, Hsp.
      apply stride_length; lra. }
  unfold bind at 1.
  destruct (Rgt_dec _ 2).
  - unfold bind, uniform, ret. apply Hmove; reflexivity.
  - unfold ret at 1. apply Hmove; reflexivity.
Qed.

Lemma enemy_moves_at_its_speed_witness :
  exists e' s',
    Enemy.update 1 eye enemy_ahead quiet_env = Some (e', s')
    /\ Vector3.y (Enemy.position e') = Vector3.y (Enemy.position enemy_ahead)
    /\ Enemy.health e' = Enemy.health enemy_ahead
    /\ Enemy.alive e' = Enemy.alive enemy_ahead
    /\ Enemy.enemy_type e' = Enemy.enemy_type enemy_ahead
    /\ Enemy.max_health e' = Enemy.max_health enemy_ahead
    /\ Enemy.speed e' = Enemy.speed enemy_ahead
    /\ Enemy.size e' = Enemy.size enemy_ahead
    /\ Enemy.score e' = Enemy.score enemy_ahead
    /\ (Enemy.position e' = Enemy.position enemy_ahead
        \/ Vector3.length (Vector3.sub (Enemy.position e') (Enemy.position enemy_ahead))
           = Enemy.speed enemy_ahead * 1).
Proof.
  apply (enemy_moves_at_its_speed 1 eye enemy_ahead quiet_env); simpl; lra.
Defined.

(** ** The tick of a running game *)

Lemma weapon_phase_fields (dt : R) (g : Game.t) :
  let gw := Game.auto_reload (fold_left (Game.tick_weapon dt) weapon_keys g) in
  Game.camera gw = Game.camera g /\ Game.enemies gw = Game.enemies g
  /\ Game.particles gw = Game.particles g /\ Game.kill_feed gw = Game.kill_feed g
  /\ Game.shake_timer gw = Game.shake_timer g /\ Game.game_mode gw = Game.game_mode g
  /\ Game.wave gw = Game.wave g
  /\ Game.enemies_per_wave gw = Game.enemies_per_wave g
  /\ Game.score gw = Game.score g /\ Game.kills gw = Game.kills g
  /\ Game.player_health gw = Game.player_health g
  /\ Game.state gw = Game.state g
  /\ Game.current_weapon gw = Game.current_weapon g.
Proof.
  intro gw. pose proof (weapon_phase_only dt g) as H. fold gw in H.
  rewrite H. simpl. repeat split; reflexivity.
Qed.

Lemma update_playing_eq (dt : R) (g : Game.t) (s : Env) :
  Game.state g = PLAYING ->
  Game.update dt g s
  = match mapM (Enemy.update dt (Camera.position (Game.camera g))) (Game.enemies g) s with
    | Some (es, s1) => replenish (settled dt es g) s1
    | None => None
    end.
Proof.
  intro Hstate. unfold Game.update. rewrite Hstate. cbv zeta. unfold bind.
  destruct (weapon_phase_fields dt g) as (Hcam & Hes & _).
  rewrite Hcam, Hes. reflexivity.
Qed.

Lemma update_idle (dt : R) (g : Game.t) (s : Env) :
  Game.state g <> PLAYING -> Game.update dt g s = Some (g, s).
Proof.
  intro Hstate. unfold Game.update.
  destruct (Game.state g); try reflexivity. contradiction.
Qed.

(** What the first half of a tick leaves in each attribute. *)
Lemma settled_fields (dt : R) (es : list Enemy.t) (g : Game.t) :
  Game.enemies (settled dt es g) = filter Enemy.alive es
  /\ Game.particles (settled dt es g)
     = filter Particle.alive (map (Particle.update dt) (Game.particles g))
  /\ Game.kill_feed (settled dt es g) = aged_feed dt (Game.kill_feed g)
  /\ Game.camera (settled dt es g) = Game.camera g
  /\ Game.game_mode (settled dt es g) = Game.game_mode g
  /\ Game.wave (settled dt es g) = Game.wave g
  /\ Game.enemies_per_wave (settled dt es g) = Game.enemies_per_wave g
  /\ Game.score (settled dt es g) = Game.score g
  /\ Game.kills (settled dt es g) = Game.kills g
  /\ Game.player_health (settled dt es g) = Game.player_health g
  /\ Game.state (settled dt es g) = Game.state g.
Proof.
  unfold settled. cbv zeta.
  destruct (weapon_phase_fields dt g)
    as (Hcam & _ & Hps & Hfeed & _ & Hgm & Hwave & Hepw & Hsc & Hk & Hph & Hst & _).
  set (gw := Game.auto_reload (fold_left (Game.tick_weapon dt) weapon_keys g)) in *.
  clearbody gw. unfold aged_feed.
  destruct (Rgt_dec _ 0); simpl;
    rewrite Hcam, Hps, Hfeed, Hgm, Hwave, Hepw, Hsc, Hk, Hph, Hst;
    repeat split; reflexivity.
Qed.

(** The three ways of the second half. *)
Lemma replenish_cases (g : Game.t) (s : Env) :
  (Game.game_mode g = Some Survival /\ Game.enemies g = []
   /\ exists g' s',
        replenish g s = Some (g', s')
        /\ wave_frame (Game.set_wave (Game.wave g + 1) g) g'
        /\ List.length (Game.enemies g') = Z.to_nat (Game.enemies_per_wave g)
        /\ spawned 1 s s')
  \/ (Game.game_mode g = Some Target /\ Game.enemies g = []
      /\ replenish g s = Some (Game.spawn_targets g, s))
  \/ ((Game.game_mode g = None \/ Game.enemies g <> [])
      /\ replenish g s = Some (g, s)).
Proof.
  unfold replenish.
  destruct (Game.game_mode g) as [[ | ] | ] eqn:Hmode;
    destruct (Game.enemies g) as [ | e rest] eqn:Hes.
  - right. left. auto.
  - right. right. split; [right; discriminate | reflexivity].
  - left. split; [reflexivity | split; [reflexivity | ]].
    destruct (spawn_wave_returns (Game.set_wave (Game.wave g + 1) g) s)
      as (g' & s' & Hrun & Hframe & Hlen & Hs).
    exists g', s'. split; [exact Hrun | split; [exact Hframe | split; [ | exact Hs]]].
    rewrite Hlen. simpl. rewrite Hes. simpl. lia.
  - right. right. split; [right; discriminate | reflexivity].
  - right. right. split; [left; reflexivity | reflexivity].
  - right. right. split; [left; reflexivity | reflexivity].
Qed.

(** The enemies of a running game are updated without an error. *)
Lemma enemies_updated (dt : R) (g : Game.t) (s : Env) :
  exists es s1,
    mapM (Enemy.update dt (Camera.position (Game.camera g))) (Game.enemies g) s
    = Some (es, s1)
    /\ spawned 0 s s1.
Proof.
  destruct (mapM_returns (Enemy.update dt (Camera.position (Game.camera g)))
                         (Game.enemies g)
                         (enemy_update_returns dt (Camera.position (Game.camera g))) s)
    as (es & s1 & Hrun & Hs).
  eauto.
Qed.

Lemma update_playing (dt : R) (g : Game.t) (s : Env) :
  Game.state g = PLAYING ->
  exists es s1,
    mapM (Enemy.update dt (Camera.position (Game.camera g))) (Game.enemies g) s
    = Some (es, s1)
    /\ spawned 0 s s1
    /\ Game.update dt g s = replenish (settled dt es g) s1.
Proof.
  intro Hstate. destruct (enemies_updated dt g s) as (es & s1 & Hmap & Hs1).
  exists es, s1. split; [exact Hmap | split; [exact Hs1 | ]].
  rewrite (update_playing_eq dt g s Hstate), Hmap. reflexivity.
Qed.

(** The second half of a tick touches the enemies, the wave counters and
    the kill feed only. *)
Lemma replenish_keeps (g : Game.t) (s : Env) :
  exists g' s',
    replenish g s = Some (g', s')
    /\ Game.particles g' = Game.particles g
    /\ Game.camera g' = Game.camera g
    /\ Game.score g' = Game.score g
    /\ Game.kills g' = Game.kills g
    /\ Game.player_health g' = Game.player_health g
    /\ Game.state g' = Game.state g
    /\ Game.game_mode g' = Game.game_mode g.
Proof.
  destruct (replenish_cases g s)
    as [(_ & _ & g' & s' & Hrun & Hframe & _) | [(_ & _ & Hrun) | (_ & Hrun)]].
  - exists g', s'. split; [exact Hrun | ].
    unfold wave_frame in Hframe. rewrite Hframe. simpl. repeat split.
  - eexists _, _. split; [exact Hrun | ].
    rewrite (spawn_targets_frame g). simpl. repeat split.
  - exists g, s. split; [exact Hrun | repeat split].
Qed.

(** ** Particles and kill feed *)

Lemma particle_update_alive (dt : R) (p : Particle.t) :
  Particle.alive (Particle.update dt p) = true ->
  Particle.lifetime p - dt > 0
  /\ Particle.lifetime (Particle.update dt p) = Particle.lifetime p - dt.
Proof.
  unfold Particle.update. cbv zeta.
  destruct (Rle_dec (Particle.lifetime p - dt) 0) as [Hle | Hgt]; simpl; intro Halive.
  - discriminate.
  - split; [lra | reflexivity].
Qed.

Lemma particle_update_stays (dt : R) (p : Particle.t) :
  Particle.alive p = true -> Particle.lifetime p - dt > 0 ->
  Particle.alive (Particle.update dt p) = true.
Proof.
  intros Halive Hlife. unfold Particle.update. cbv zeta.
  destruct (Rle_dec (Particle.lifetime p - dt) 0) as [Hle | Hgt]; simpl.
  - lra.
  - exact Halive.
Qed.

(** X6: a tick of a running game takes [dt] from the lifetime of every
    particle and keeps, in their order, exactly the particles whose
    lifetime is still positive: no particle of the list is dead or has a
    countdown that ran out. *)
Theorem tick_reaps_particles :
  forall (dt : R) (g : Game.t) (s : Env),
    Game.state g = PLAYING ->
    exists g' s',
      Game.update dt g s = Some (g', s')
      /\ Game.particles g'
         = filter Particle.alive (map (Particle.update dt) (Game.particles g))
      /\ Forall (fun p => Particle.alive p = true /\ Particle.lifetime p > 0)
                (Game.particles g')
      /\ (forall p, In p (Game.particles g) -> Particle.alive p = true ->
                    (In (Particle.update dt p) (Game.particles g')
                     <-> Particle.lifetime p - dt > 0))
      /\ (List.length (Game.particles g') <= List.length (Game.particles g))%nat.
Proof.
  intros dt g s Hstate.
  destruct (update_playing dt g s Hstate) as (es & s1 & _ & _ & Hupd).
  destruct (replenish_keeps (settled dt es g) s1) as (g' & s' & Hrun & Hps & _).
  destruct (settled_fields dt es g) as (_ & Hsettled & _).
  exists g', s'. rewrite Hupd, Hps, Hsettled.
  split; [exact Hrun | split; [reflexivity | split; [ | split]]].
  - apply Forall_forall. intros p Hin.
    apply filter_In in Hin. destruct Hin as [Hin Halive].
    apply in_map_iff in Hin. destruct Hin as (q & Hq & _). subst p.
    destruct (particle_update_alive dt q Halive) as [Hpos Hlife].
    split; [exact Halive | rewrite Hlife; exact Hpos].
  - intros p Hin Halive. split.
    + intro Hin'. apply filter_In in Hin'.
      apply (particle_update_alive dt p (proj2 Hin')).
    + intro Hlife. apply filter_In. split.
      * apply in_map. exact Hin.
      * apply particle_update_stays; assumption.
  - rewrite <- (length_map (Particle.update dt) (Game.particles g)).
    apply filter_length_le.
Qed.

Lemma tick_reaps_particles_witness :
  exists g' s',
    Game.update (3 / 10) smoking_game quiet_env = Some (g', s')
    /\ Game.particles g'
       = filter Particle.alive
                (map (Particle.update (3 / 10)) (Game.particles smoking_game))
    /\ Forall (fun p => Particle.alive p = true /\ Particle.lifetime p > 0)
              (Game.particles g')
    /\ (forall p, In p (Game.particles smoking_game) -> Particle.alive p = true ->
                  (In (Particle.update (3 / 10) p) (Game.particles g')
                   <-> Particle.lifetime p - 3 / 10 > 0))
    /\ (List.length (Game.particles g') <= List.length (Game.particles smoking_game))%nat.
Proof.
  apply (tick_reaps_particles (3 / 10) smoking_game quiet_env). reflexivity.
Defined.

(** X7: a tick of a running game takes [dt] from the time of every line
    of the kill feed and drops the lines whose time ran out; the only
    line it can add is the announcement of the next wave, in survival
    mode. Every line left has time to show. *)
Theorem tick_ages_kill_feed :
  forall (dt : R) (g : Game.t) (s : Env),
    Game.state g = PLAYING ->
    exists g' s',
      Game.update dt g s = Some (g', s')
      /\ (Game.kill_feed g' = aged_feed dt (Game.kill_feed g)
          \/ (Game.game_mode g = Some Survival
              /\ Game.wave g' = (Game.wave g + 1)%Z
              /\ Game.kill_feed g'
                 = aged_feed dt (Game.kill_feed g)
                   ++ [mkItem ("Wave " ++ str (Game.wave g + 1) ++ " Starting!") 3]))
      /\ Forall (fun item => time item > 0) (Game.kill_feed g')
      /\ (forall item, In item (Game.kill_feed g) -> time item - dt > 0 ->
                       In (mkItem (message item) (time item - dt)) (Game.kill_feed g')).
Proof.
  intros dt g s Hstate.
  destruct (update_playing dt g s Hstate) as (es & s1 & _ & _ & Hupd).
  destruct (settled_fields dt es g)
    as (_ & _ & Hfeed & _ & Hmode & Hwave & _).
  assert (Haged : Forall (fun item => time item > 0) (aged_feed dt (Game.kill_feed g))).
  { apply Forall_forall. intros item Hin. unfold aged_feed in Hin.
    apply filter_In in Hin. destruct Hin as [_ Hpos].
    destruct (Rgt_dec (time item) 0); [assumption | discriminate]. }
  assert (Hstays : forall item, In item (Game.kill_feed g) -> time item - dt > 0 ->
                     In (mkItem (message item) (time item - dt))
                        (aged_feed dt (Game.kill_feed g))).
  { intros item Hin Hpos. unfold aged_feed. apply filter_In. split.
    - apply (in_map (fun item => mkItem (message item) (time item - dt))).
      exact Hin.
    - simpl. destruct (Rgt_dec (time item - dt) 0); [reflexivity | contradiction]. }
  rewrite Hupd.
  destruct (replenish_cases (settled dt es g) s1)
    as [(Hsurv & _ & g' & s' & Hrun & Hframe & _) | [(_ & _ & Hrun) | (_ & Hrun)]].
  - exists g', s'. split; [exact Hrun | ].
    assert (Hfeed' : Game.kill_feed g'
                     = aged_feed dt (Game.kill_feed g)
                       ++ [mkItem ("Wave " ++ str (Game.wave g + 1) ++ " Starting!") 3]).
    { unfold wave_frame in Hframe. rewrite Hframe. simpl.
      rewrite Hfeed, Hwave. reflexivity. }
    split; [ | split].
    + right. rewrite <- Hmode. split; [exact Hsurv | split; [ | exact Hfeed']].
      unfold wave_frame in Hframe. rewrite Hframe. simpl. rewrite Hwave. reflexivity.
    + rewrite Hfeed'. apply Forall_app. split; [exact Haged | ].
      constructor; [simpl; lra | constructor].
    + intros item Hin Hpos. rewrite Hfeed'. apply in_or_app. left.
      apply Hstays; assumption.
  - eexists _, _. split; [exact Hrun | ].
    assert (Hfeed' : Game.kill_feed (Game.spawn_targets (settled dt es g))
                     = aged_feed dt (Game.kill_feed g)).
    { rewrite (spawn_targets_frame (settled dt es g)). simpl. exact Hfeed. }
    rewrite Hfeed'. split; [left; reflexivity | split; [exact Haged | exact Hstays]].
  - eexists _, _. split; [exact Hrun | ].
    rewrite Hfeed. split; [left; reflexivity | split; [exact Haged | exact Hstays]].
Qed.

Lemma tick_ages_kill_feed_witness :
  exists g' s',
    Game.update (3 / 10) smoking_game quiet_env = Some (g', s')
    /\ (Game.kill_feed g' = aged_feed (3 / 10) (Game.kill_feed smoking_game)
        \/ (Game.game_mode smoking_game = Some Survival
            /\ Game.wave g' = (Game.wave smoking_game + 1)%Z
            /\ Game.kill_feed g'
               = aged_feed (3 / 10) (Game.kill_feed smoking_game)
                 ++ [mkItem ("Wave " ++ str (Game.wave smoking_game + 1) ++ " Starting!") 3]))
    /\ Forall (fun item => time item > 0) (Game.kill_feed g')
    /\ (forall item, In item (Game.kill_feed smoking_game) -> time item - 3 / 10 > 0 ->
                     In (mkItem (message item) (time item - 3 / 10)) (Game.kill_feed g')).
Proof.
  apply (tick_ages_kill_feed (3 / 10) smoking_game quiet_env). reflexivity.
Defined.

(** ** Enemies: removal and arrival *)

Lemma enemy_update_flags (dt : R) (p : Vector3.t) (e : Enemy.t) (s : Env) :
  forall e' s',
    Enemy.update dt p e s = Some (e', s') ->
    Enemy.alive e' = Enemy.alive e /\ Enemy.health e' = Enemy.health e.
Proof.
  intros e' s'. unfold Enemy.update.
  destruct (negb (Enemy.alive e)).
  { unfold ret. intro H. inversion H. subst. auto. }
  unfold bind, uniform, ret, lift.
  destruct (Rgt_dec _ 2); cbn [Enemy.move_target Enemy.set_timer].
  - destruct (Rgt_dec _ (5 / 10)).
    + rewrite normalize_some. intro H. inversion H. subst. simpl. auto.
    + intro H. inversion H. subst. simpl. auto.
  - destruct (Enemy.move_target e) as [target | ].
    + destruct (Rgt_dec _ (5 / 10)).
      * rewrite normalize_some. intro H. inversion H. subst. simpl. auto.
      * intro H. inversion H. subst. simpl. auto.
    + intro H. inversion H. subst. simpl. auto.
Qed.

Lemma mapM_update_flags (dt : R) (p : Vector3.t) (es : list Enemy.t) :
  forall (s : Env) es' s',
    mapM (Enemy.update dt p) es s = Some (es', s') ->
    map Enemy.alive es' = map Enemy.alive es.
Proof.
  induction es as [ | e es IH]; intros s es' s' Hrun; simpl in Hrun.
  - unfold ret in Hrun. inversion Hrun. reflexivity.
  - unfold bind at 1 in Hrun.
    destruct (Enemy.update dt p e s) as [[e1 s1] | ] eqn:He; [ | discriminate].
    unfold bind at 1 in Hrun.
    destruct (mapM (Enemy.update dt p) es s1) as [[es1 s2] | ] eqn:Hes;
      [ | discriminate].
    unfold ret in Hrun. inversion Hrun. subst. simpl.
    rewrite (IH s1 es1 s' Hes).
    destruct (enemy_update_flags dt p e s e1 s1 He) as [Halive _].
    rewrite Halive. reflexivity.
Qed.

Lemma filter_by_flags {A : Type} (f : A -> bool) (l l' : list A) :
  map f l' = map f l ->
  List.length (filter f l') = List.length (filter f l)
  /\ existsb f l' = existsb f l.
Proof.
  revert l'. induction l as [ | a l IH]; intros [ | a' l'] Hmap;
    try discriminate; simpl in *.
  - auto.
  - inversion Hmap as [[Ha Hl]]. destruct (IH l' Hl) as [Hlen Hex].
    rewrite Ha, Hex. destruct (f a); simpl; rewrite Hlen; auto.
Qed.

Lemma filter_all_true {A : Type} (f : A -> bool) (l : list A) :
  Forall (fun a => f a = true) (filter f l).
Proof.
  apply Forall_forall. intros a Hin. apply filter_In in Hin. tauto.
Qed.

Lemma filter_none {A : Type} (f : A -> bool) (l : list A) :
  existsb f l = false -> filter f l = [].
Proof.
  induction l as [ | a l IH]; simpl; [reflexivity | ].
  destruct (f a); simpl; [discriminate | exact IH].
Qed.

Lemma filter_some {A : Type} (f : A -> bool) (l : list A) :
  existsb f l = true -> filter f l <> [].
Proof.
  induction l as [ | a l IH]; simpl; [discriminate | ].
  destruct (f a); simpl; [discriminate | exact IH].
Qed.

Lemma ring_length (d a : R) :
  0 <= d -> Vector3.length (Vector3.mk (d * cos a) 0 (d * sin a)) = d.
Proof.
  intro Hd. unfold Vector3.length. cbn [Vector3.x Vector3.y Vector3.z].
  replace ((d * cos a) ^ 2 + 0 ^ 2 + (d * sin a) ^ 2)
    with (d * d * ((sin a)² + (cos a)²)) by (unfold Rsqr; ring).
  rewrite sin2_cos2, Rmult_1_r. apply sqrt_square. exact Hd.
Qed.

Lemma unit_draws_spawned (n : nat) (s s' : Env) :
  spawned n s s' -> unit_draws s -> unit_draws s'.
Proof.
  intros (Hfloats & _) Hs k. rewrite Hfloats. apply Hs.
Qed.

Lemma fresh_alive (e : Enemy.t) : fresh e -> Enemy.alive e = true.
Proof. intros (pos & [ | | ] & He); subst e; reflexivity. Qed.

Lemma grounded_fresh (e : Enemy.t) : grounded e -> fresh e.
Proof. intros (x & z & ty & He). eexists _, _. exact He. Qed.

(** One turn of the loop of [spawn_wave] appends one enemy. *)
Lemma spawn_enemy_fresh (g : Game.t) (s : Env) :
  exists e s',
    Game.spawn_enemy g s = Some (Game.set_enemies (Game.enemies g ++ [e]) g, s')
    /\ grounded e
    /\ (unit_draws s -> spawn_spot (Enemy.position e))
    /\ spawned 0 s s'.
Proof.
  unfold Game.spawn_enemy, bind, uniform, choice, ret.
  eexists _, _. split; [reflexivity | split; [ | split]].
  - eexists _, _, _. reflexivity.
  - intro Hs. set (ty := nth _ _ _).
    assert (Hv : 0 <= floats (advance s) (cursor (advance s)) <= 1)
      by (apply (Hs (cursor (advance s)))).
    set (v := floats (advance s) (cursor (advance s))) in *.
    assert (Hpos : forall pos, Enemy.position (Enemy.new pos ty) = pos)
      by (intro pos; destruct ty; reflexivity).
    rewrite Hpos. unfold spawn_spot. cbn [Vector3.x Vector3.y Vector3.z].
    split; [reflexivity | ]. rewrite ring_length; lra.
  - unfold spawned; simpl. auto with arith.
Qed.

Lemma spawn_enemies_fresh (n : nat) :
  forall (g : Game.t) (s : Env),
    exists news s',
      repeatM n Game.spawn_enemy g s
      = Some (Game.set_enemies (Game.enemies g ++ news) g, s')
      /\ List.length news = n
      /\ Forall grounded news
      /\ (unit_draws s -> Forall (fun e => spawn_spot (Enemy.position e)) news)
      /\ spawned 0 s s'.
Proof.
  induction n as [ | n IH]; intros g s; simpl.
  - exists [], s. unfold ret. rewrite app_nil_r.
    split; [destruct g; reflexivity | ].
    split; [reflexivity | split; [constructor | split; [constructor | ]]].
    apply spawned_refl.
  - destruct (spawn_enemy_fresh g s) as (e & s1 & Hrun & Hfresh & Hspot & Hs1).
    unfold bind. rewrite Hrun.
    destruct (IH (Game.set_enemies (Game.enemies g ++ [e]) g) s1)
      as (news & s2 & Hrun' & Hlen & Hall & Hspots & Hs2).
    exists (e :: news), s2. rewrite Hrun'. split; [ | split; [ | split; [ | split]]].
    + simpl. rewrite <- app_assoc. reflexivity.
    + simpl. rewrite Hlen. reflexivity.
    + constructor; assumption.
    + intro Hs. constructor; [apply Hspot; exact Hs | ].
      apply Hspots. apply (unit_draws_spawned 0 s s1); assumption.
    + apply (spawned_trans 0 0 s s1 s2); assumption.
Qed.

Lemma spawn_wave_fresh (g : Game.t) (s : Env) :
  exists news s',
    Game.spawn_wave g s
    = Some (Game.set_enemies_per_wave (Game.enemies_per_wave g + 2)
              (Game.set_enemies (Game.enemies g ++ news)
                 (Game.add_kill_feed ("Wave " ++ str (Game.wave g) ++ " Starting!") g)),
            s')
    /\ List.length news = Z.to_nat (Game.enemies_per_wave g)
    /\ Forall grounded news
    /\ (unit_draws s -> Forall (fun e => spawn_spot (Enemy.position e)) news)
    /\ spawned 1 s s'.
Proof.
  unfold Game.spawn_wave, bind, note_wave, ret.
  set (g1 := Game.add_kill_feed _ g).
  set (s1 := mkEnv _ _ _ _).
  assert (Hs1 : spawned 1 s s1).
  { subst s1. unfold spawned; simpl. repeat split. lia. }
  destruct (spawn_enemies_fresh (Z.to_nat (Game.enemies_per_wave g1)) g1 s1)
    as (news & s2 & Hrun & Hlen & Hall & Hspots & Hs2).
  rewrite Hrun. exists news, s2. split; [ | split; [ | split; [ | split]]].
  - subst g1. destruct g; reflexivity.
  - rewrite Hlen. subst g1. destruct g; reflexivity.
  - exact Hall.
  - intro Hs. apply Hspots. apply (unit_draws_spawned 1 s s1); assumption.
  - apply (spawned_trans 1 0 s s1 s2); assumption.
Qed.

Lemma unit_draws_quiet : unit_draws quiet_env.
Proof. intro n. simpl. lra. Qed.

(** X8: with draws of [random()] in [0, 1], [spawn_wave] appends
    [enemies_per_wave] enemies to the list, each as its constructor makes
    it (alive, full health) and each at height 1 between 10 and 20 from
    the origin, announces the wave in the kill feed and raises the size
    of the next wave by 2; nothing else changes. *)
Theorem spawn_wave_places_enemies :
  forall (g : Game.t) (s : Env),
    unit_draws s ->
    exists news g' s',
      Game.spawn_wave g s = Some (g', s')
      /\ g' = Game.set_enemies_per_wave (Game.enemies_per_wave g + 2)
                (Game.set_enemies (Game.enemies g ++ news)
                   (Game.add_kill_feed
                      ("Wave " ++ str (Game.wave g) ++ " Starting!") g))
      /\ List.length news = Z.to_nat (Game.enemies_per_wave g)
      /\ Forall (fun e => fresh e /\ Enemy.alive e = true
                          /\ Enemy.health e = Enemy.max_health e
                          /\ spawn_spot (Enemy.position e)) news
      /\ unit_draws s'.
Proof.
  intros g s Hs.
  destruct (spawn_wave_fresh g s) as (news & s' & Hrun & Hlen & Hall & Hspots & Hs').
  exists news. eexists _, s'.
  split; [exact Hrun | split; [reflexivity | split; [exact Hlen | ]]].
  split; [ | apply (unit_draws_spawned 1 s s'); assumption].
  specialize (Hspots Hs). rewrite Forall_forall in *.
  intros e Hin. split; [apply grounded_fresh, Hall; exact Hin | split; [ | split]].
  - apply fresh_alive, grounded_fresh, Hall. exact Hin.
  - destruct (Hall e Hin) as (x & z & [ | | ] & He); subst e; reflexivity.
  - apply Hspots. exact Hin.
Qed.

Lemma spawn_wave_places_enemies_witness :
  exists news g' s',
    Game.spawn_wave Game.init quiet_env = Some (g', s')
    /\ g' = Game.set_enemies_per_wave (Game.enemies_per_wave Game.init + 2)
              (Game.set_enemies (Game.enemies Game.init ++ news)
                 (Game.add_kill_feed
                    ("Wave " ++ str (Game.wave Game.init) ++ " Starting!") Game.init))
    /\ List.length news = Z.to_nat (Game.enemies_per_wave Game.init)
    /\ Forall (fun e => fresh e /\ Enemy.alive e = true
                        /\ Enemy.health e = Enemy.max_health e
                        /\ spawn_spot (Enemy.position e)) news
    /\ unit_draws s'.
Proof.
  apply (spawn_wave_places_enemies Game.init quiet_env). intro n. simpl. lra.
Defined.

Lemma spawn_targets_enemies (g : Game.t) :
  Game.enemies (Game.spawn_targets g)
  = Game.enemies g ++ map (fun pos => Enemy.new pos Normal) Game.target_positions.
Proof.
  unfold Game.spawn_targets, Game.target_positions. simpl.
  repeat rewrite <- app_assoc. reflexivity.
Qed.

(** X9: after a tick of a running game every enemy of the list is alive.
    While an enemy is alive the tick removes the dead ones and spawns
    nothing; when none is, target practice puts the 8 targets back and
    survival starts the next wave with [enemies_per_wave] enemies. *)
Theorem tick_clears_and_restocks :
  forall (dt : R) (g : Game.t) (s : Env),
    Game.state g = PLAYING ->
    exists g' s',
      Game.update dt g s = Some (g', s')
      /\ Forall (fun e => Enemy.alive e = true) (Game.enemies g')
      /\ ((existsb Enemy.alive (Game.enemies g) = true
           /\ List.length (Game.enemies g')
              = List.length (filter Enemy.alive (Game.enemies g))
           /\ Game.wave g' = Game.wave g
           /\ Game.enemies_per_wave g' = Game.enemies_per_wave g
           /\ spawned 0 s s')
          \/ (existsb Enemy.alive (Game.enemies g) = false
              /\ match Game.game_mode g with
                 | Some Target =>
                     Game.enemies g'
                     = map (fun pos => Enemy.new pos Normal) Game.target_positions
                     /\ Game.wave g' = Game.wave g
                     /\ Game.enemies_per_wave g' = Game.enemies_per_wave g
                     /\ spawned 0 s s'
                 | Some Survival =>
                     List.length (Game.enemies g')
                     = Z.to_nat (Game.enemies_per_wave g)
                     /\ Game.wave g' = (Game.wave g + 1)%Z
                     /\ Game.enemies_per_wave g' = (Game.enemies_per_wave g + 2)%Z
                     /\ spawned 1 s s'
                 | None => Game.enemies g' = [] /\ spawned 0 s s'
                 end)).
Proof.
  intros dt g s Hstate.
  destruct (update_playing dt g s Hstate) as (es & s1 & Hmap & Hs1 & Hupd).
  destruct (settled_fields dt es g)
    as (Hes & _ & _ & _ & Hmode & Hwave & Hepw & _).
  destruct (filter_by_flags Enemy.alive (Game.enemies g) es
              (mapM_update_flags dt _ _ s es s1 Hmap)) as [Hlen Hex].
  rewrite Hupd. unfold replenish. rewrite Hmode, Hes.
  destruct (existsb Enemy.alive (Game.enemies g)) eqn:Hany.
  - (* an enemy is alive: nothing is spawned *)
    pose proof (filter_some Enemy.alive es Hex) as Hleft.
    exists (settled dt es g), s1.
    split.
    { destruct (Game.game_mode g) as [[ | ] | ];
        destruct (filter Enemy.alive es); try reflexivity; contradiction. }
    rewrite Hes. split; [apply filter_all_true | left].
    split; [reflexivity | split; [exact Hlen | auto]].
  - pose proof (filter_none Enemy.alive es Hex) as Hnone. rewrite Hnone.
    destruct (Game.game_mode g) as [[ | ] | ].
    + (* target practice *)
      eexists _, _. unfold ret. split; [reflexivity | ].
      rewrite spawn_targets_enemies, Hes, Hnone. cbn [app].
      split; [ | right; split; [reflexivity | ]].
      * apply Forall_forall. intros e Hin. apply in_map_iff in Hin.
        destruct Hin as (pos & He & _). subst e. reflexivity.
      * rewrite (spawn_targets_frame (settled dt es g)). simpl.
        split; [reflexivity | auto].
    + (* survival *)
      destruct (spawn_wave_fresh
                  (Game.set_wave (Game.wave (settled dt es g) + 1) (settled dt es g)) s1)
        as (news & s2 & Hrun & Hnews & Hall & _ & Hs2).
      eexists _, _. split; [exact Hrun | ]. simpl. rewrite Hes, Hnone. cbn [app].
      split; [ | right; split; [reflexivity | ]].
      * apply Forall_forall. intros e Hin. apply fresh_alive, grounded_fresh.
        rewrite Forall_forall in Hall. apply Hall. exact Hin.
      * rewrite Hnews. simpl. rewrite Hepw, Hwave.
        split; [reflexivity | split; [reflexivity | split; [reflexivity | ]]].
        apply (spawned_trans 0 1 s s1 s2); assumption.
    + exists (settled dt es g), s1. unfold ret. split; [reflexivity | ].
      rewrite Hes, Hnone. split; [constructor | right; auto].
Qed.

Lemma tick_clears_and_restocks_witness :
  exists g' s',
    Game.update 1 cleared_game quiet_env = Some (g', s')
    /\ Forall (fun e => Enemy.alive e = true) (Game.enemies g')
    /\ ((existsb Enemy.alive (Game.enemies cleared_game) = true
         /\ List.length (Game.enemies g')
            = List.length (filter Enemy.alive (Game.enemies cleared_game))
         /\ Game.wave g' = Game.wave cleared_game
         /\ Game.enemies_per_wave g' = Game.enemies_per_wave cleared_game
         /\ spawned 0 quiet_env s')
        \/ (existsb Enemy.alive (Game.enemies cleared_game) = false
            /\ match Game.game_mode cleared_game with
               | Some Target =>
                   Game.enemies g'
                   = map (fun pos => Enemy.new pos Normal) Game.target_positions
                   /\ Game.wave g' = Game.wave cleared_game
                   /\ Game.enemies_per_wave g' = Game.enemies_per_wave cleared_game
                   /\ spawned 0 quiet_env s'
               | Some Survival =>
                   List.length (Game.enemies g')
                   = Z.to_nat (Game.enemies_per_wave cleared_game)
                   /\ Game.wave g' = (Game.wave cleared_game + 1)%Z
                   /\ Game.enemies_per_wave g' = (Game.enemies_per_wave cleared_game + 2)%Z
                   /\ spawned 1 quiet_env s'
               | None => Game.enemies g' = [] /\ spawned 0 quiet_env s'
               end)).
Proof.
  apply (tick_clears_and_restocks 1 cleared_game quiet_env). reflexivity.
Defined.

(** ** Rounds are never created *)

Lemma set_weapon_stock (k : WeaponKind) (d : WeaponData) (g : Game.t) :
  within_stock g ->
  (ammo d + reserve d <= 4 * max_ammo (WEAPONS k))%Z ->
  within_stock (Game.set_weapon k d g).
Proof.
  intros Hg Hd k'. unfold Game.set_weapon. simpl. rewrite lookup_store.
  destruct (WeaponKind_eq_dec k' k) as [-> | _]; [exact Hd | apply Hg].
Qed.

Lemma reload_stock (g : Game.t) : within_stock g -> within_stock (Game.reload g).
Proof.
  intro Hg. unfold Game.reload. control_cases; try exact Hg.
  apply set_weapon_stock; [exact Hg | simpl; apply Hg].
Qed.

Lemma finish_reload_stock (g : Game.t) :
  within_stock g -> within_stock (Game.finish_reload g).
Proof.
  intro Hg. unfold Game.finish_reload.
  pose proof (Hg (Game.current_weapon g)) as Hk.
  apply set_weapon_stock; [exact Hg | cbn [ammo reserve]; lia].
Qed.

Lemma tick_weapon_stock (dt : R) (k : WeaponKind) (g : Game.t) :
  within_stock g -> within_stock (Game.tick_weapon dt g k).
Proof.
  intro Hg. unfold Game.tick_weapon. cbv zeta.
  set (g1 := if Rgt_dec (cooldown (lookup (Game.weapons g) k)) 0 then _ else g).
  assert (H1 : within_stock g1).
  { subst g1. destruct (Rgt_dec _ 0); [ | exact Hg].
    apply set_weapon_stock; [exact Hg | simpl; apply Hg]. }
  clearbody g1.
  destruct (Rgt_dec _ 0); [ | exact H1].
  match goal with
  | |- within_stock (if _ then _ else ?g2) =>
      assert (H2 : within_stock g2)
        by (apply set_weapon_stock; [exact H1 | simpl; apply H1])
  end.
  destruct (Rle_dec _ 0); [apply finish_reload_stock | ]; exact H2.
Qed.

Lemma fired_stock (g : Game.t) : within_stock g -> within_stock (fired g).
Proof.
  intro Hg. unfold fired.
  destruct (Rgt_dec _ 0); [exact Hg | ].
  destruct (Rgt_dec _ 0); [exact Hg | ].
  destruct (_ <=? 0)%Z; [exact Hg | ].
  pose proof (Hg (Game.current_weapon g)) as Hk.
  unfold Game.screen_shake. intro k'. simpl.
  apply (set_weapon_stock (Game.current_weapon g) _ g Hg). cbn [ammo reserve]. lia.
Qed.

Lemma initial_weapons_stock (g : Game.t) :
  Game.weapons g = initial_weapons -> within_stock g.
Proof. intros H k. rewrite H. destruct k; simpl; lia. Qed.

Lemma control_step_stock (i : Input) (g : Game.t) :
  within_stock g -> within_stock (control_step i g).
Proof.
  intro Hg. destruct i as [key | key | button mx my | dx dy | dt]; simpl;
    try exact Hg.
  - unfold on_keydown; simpl.
    destruct (Game.state g); try exact Hg; destruct key; simpl; try exact Hg.
    apply reload_stock, Hg.
  - destruct (Game.state g); try exact Hg.
    + destruct (_ && _)%bool; [apply initial_weapons_stock; reflexivity | ].
      destruct (_ && _)%bool; [apply initial_weapons_stock; reflexivity | exact Hg].
    + destruct (button =? 1)%Z; [apply fired_stock, Hg | exact Hg].
  - destruct (Game.state g); try exact Hg.
    unfold Game.auto_reload.
    set (g3 := Game.tick_weapon dt _ Shotgun).
    assert (H3 : within_stock g3) by (subst g3; repeat apply tick_weapon_stock; exact Hg).
    clearbody g3. control_cases; try exact H3. apply reload_stock, H3.
Qed.

Lemma control_run_stock (inputs : list Input) (g : Game.t) :
  within_stock g -> within_stock (control_run inputs g).
Proof.
  revert g. induction inputs as [ | i rest IH]; intros g Hg; [exact Hg | ].
  apply (IH (control_step i g)), control_step_stock, Hg.
Qed.

(** X10: whatever the inputs handled by the loop of [main] from the start
    of the program, no weapon ever holds more rounds, magazine and reserve
    together, than the four magazines a session starts with (48, 120 and
    32): reloading moves rounds, firing spends them, nothing adds any but
    the start of a session. *)
Theorem rounds_never_created :
  forall (inputs : list Input) (s : Env),
  exists l' s',
    run inputs main_init s = Some (l', s')
    /\ forall k : WeaponKind,
         (ammo (lookup (Game.weapons (game l')) k)
          + reserve (lookup (Game.weapons (game l')) k)
          <= 4 * max_ammo (WEAPONS k))%Z.
Proof.
  intros inputs s.
  destruct (run_returns inputs main_init Game.init (same_control_refl _) s)
    as (l' & s' & Hrun & (_ & _ & Hw) & _).
  exists l', s'. split; [exact Hrun | ]. rewrite Hw.
  apply (control_run_stock inputs Game.init).
  apply initial_weapons_stock. reflexivity.
Qed.

(** ** The selected weapon after a tick *)

Lemma max_ammo_positive (k : WeaponKind) : (0 < max_ammo (WEAPONS k))%Z.
Proof. destruct k; simpl; lia. Qed.

Lemma auto_reload_current (g : Game.t) :
  Game.current_weapon (Game.auto_reload g) = Game.current_weapon g.
Proof.
  unfold Game.auto_reload, Game.reload. control_cases; reflexivity.
Qed.

(** After the check that follows the loop over the weapons, the selected
    weapon is not idle with an empty magazine and a reserve. *)
Lemma auto_reload_selected (g : Game.t) :
  ammo (selected (Game.auto_reload g)) = 0%Z ->
  (0 < reserve (selected (Game.auto_reload g)))%Z ->
  (reloading (selected g) = 0
   /\ reloading (selected (Game.auto_reload g))
      = reload_time (WEAPONS (Game.current_weapon g)))
  \/ (reloading (selected g) <> 0 /\ Game.auto_reload g = g).
Proof.
  unfold selected. rewrite auto_reload_current. unfold Game.auto_reload.
  cbv zeta.
  destruct (ammo (lookup (Game.weapons g) (Game.current_weapon g)) =? 0)%Z eqn:Ha.
  - apply Z.eqb_eq in Ha.
    destruct (Req_dec_T (reloading (lookup (Game.weapons g) (Game.current_weapon g))) 0)
      as [Hr | Hr]; [ | intros _ _; right; auto].
    destruct (reserve (lookup (Game.weapons g) (Game.current_weapon g)) >? 0)%Z eqn:Hres.
    + intros _ _. left. split; [exact Hr | ].
      unfold Game.reload. cbv zeta. rewrite Hr, Ha.
      destruct (Rgt_dec 0 0) as [Habs | _]; [lra | ].
      pose proof (max_ammo_positive (Game.current_weapon g)) as Hmax.
      destruct (0 =? max_ammo (WEAPONS (Game.current_weapon g)))%Z eqn:Hfull;
        [apply Z.eqb_eq in Hfull; lia | ].
      apply Z.gtb_lt in Hres.
      destruct (reserve (lookup (Game.weapons g) (Game.current_weapon g)) <=? 0)%Z
               eqn:Hnone; [apply Z.leb_le in Hnone; lia | ].
      rewrite lookup_set_weapon. reflexivity.
    + intros _ Hpos. rewrite Z.gtb_ltb in Hres. apply Z.ltb_ge in Hres. lia.
  - intros Hzero _. apply Z.eqb_neq in Ha. contradiction.
Qed.

(** X11: after a tick of a running game the selected weapon is never left
    with an empty magazine, rounds in reserve and a reload timer of 0:
    the tick has started its reload, with the reload time of the weapon
    on the timer, unless the timer was not 0 before the check. *)
Theorem tick_reloads_empty_weapon :
  forall (dt : R) (g : Game.t) (s : Env),
    Game.state g = PLAYING ->
    exists g' s',
      Game.update dt g s = Some (g', s')
      /\ Game.current_weapon g' = Game.current_weapon g
      /\ (ammo (selected g') = 0%Z -> (0 < reserve (selected g'))%Z ->
          reloading (selected g') <> 0)
      /\ (ammo (selected g') = 0%Z -> (0 < reserve (selected g'))%Z ->
          reloading (selected (fold_left (Game.tick_weapon dt) weapon_keys g)) = 0 ->
          reloading (selected g') = reload_time (WEAPONS (Game.current_weapon g))).
Proof.
  intros dt g s Hstate.
  destruct (update_returns dt g s) as (g' & s' & Hrun & (_ & Hcur & Hw) & _).
  exists g', s'. split; [exact Hrun | ].
  unfold control_step in Hcur, Hw. rewrite Hstate in Hcur, Hw.
  set (gw := fold_left (Game.tick_weapon dt) weapon_keys g) in *.
  assert (Hsel : selected g' = selected (Game.auto_reload gw))
    by (unfold selected; rewrite Hcur, Hw; reflexivity).
  assert (Hkeep : Game.current_weapon gw = Game.current_weapon g).
  { pose proof (weapon_phase_fields dt g) as H. cbv zeta in H. fold gw in H.
    rewrite <- auto_reload_current. apply H. }
  rewrite Hsel, Hcur, auto_reload_current.
  split; [exact Hkeep | split].
  - intros Ha Hres.
    destruct (auto_reload_selected gw Ha Hres) as [[_ Htime] | [Hnot Hsame]].
    + rewrite Htime. pose proof (reload_time_positive (Game.current_weapon gw)). lra.
    + rewrite Hsame. exact Hnot.
  - intros Ha Hres Hidle.
    destruct (auto_reload_selected gw Ha Hres) as [[_ Htime] | [Hnot _]].
    + rewrite Htime, Hkeep. reflexivity.
    + contradiction.
Qed.

Lemma tick_reloads_empty_weapon_witness :
  exists g' s',
    Game.update 1 dry_game quiet_env = Some (g', s')
    /\ Game.current_weapon g' = Game.current_weapon dry_game
    /\ (ammo (selected g') = 0%Z -> (0 < reserve (selected g'))%Z ->
        reloading (selected g') <> 0)
    /\ (ammo (selected g') = 0%Z -> (0 < reserve (selected g'))%Z ->
        reloading (selected (fold_left (Game.tick_weapon 1) weapon_keys dry_game)) = 0 ->
        reloading (selected g') = reload_time (WEAPONS (Game.current_weapon dry_game))).
Proof.
  apply (tick_reloads_empty_weapon 1 dry_game quiet_env). reflexivity.
Defined.

(** ** The fire rate *)

Lemma finish_reload_cooldown (g : Game.t) (k : WeaponKind) :
  cooldown (lookup (Game.weapons (Game.finish_reload g)) k)
  = cooldown (lookup (Game.weapons g) k).
Proof.
  unfold Game.finish_reload, Game.set_weapon. simpl. rewrite lookup_store.
  destruct (WeaponKind_eq_dec k (Game.current_weapon g)) as [-> | _]; reflexivity.
Qed.

Lemma reload_cooldown (g : Game.t) (k : WeaponKind) :
  cooldown (lookup (Game.weapons (Game.reload g)) k)
  = cooldown (lookup (Game.weapons g) k).
Proof.
  unfold Game.reload. control_cases; try reflexivity.
  unfold Game.set_weapon. simpl. rewrite lookup_store.
  destruct (WeaponKind_eq_dec k (Game.current_weapon g)) as [-> | _]; reflexivity.
Qed.

Lemma auto_reload_cooldown (g : Game.t) (k : WeaponKind) :
  cooldown (lookup (Game.weapons (Game.auto_reload g)) k)
  = cooldown (lookup (Game.weapons g) k).
Proof.
  unfold Game.auto_reload. control_cases; try reflexivity. apply reload_cooldown.
Qed.

(** The turn of weapon [j] in the loop of [update] runs the cooldown of
    [j], when it is positive, and no other cooldown. *)
Lemma tick_weapon_cooldown (dt : R) (g : Game.t) (j k : WeaponKind) :
  cooldown (lookup (Game.weapons (Game.tick_weapon dt g j)) k)
  = if WeaponKind_eq_dec k j
    then if Rgt_dec (cooldown (lookup (Game.weapons g) k)) 0
         then cooldown (lookup (Game.weapons g) k) - dt
         else cooldown (lookup (Game.weapons g) k)
    else cooldown (lookup (Game.weapons g) k).
Proof.
  unfold Game.tick_weapon. cbv zeta.
  set (g1 := if Rgt_dec (cooldown (lookup (Game.weapons g) j)) 0 then _ else g).
  assert (H1 : cooldown (lookup (Game.weapons g1) k)
               = if WeaponKind_eq_dec k j
                 then if Rgt_dec (cooldown (lookup (Game.weapons g) k)) 0
                      then cooldown (lookup (Game.weapons g) k) - dt
                      else cooldown (lookup (Game.weapons g) k)
                 else cooldown (lookup (Game.weapons g) k)).
  { subst g1. destruct (WeaponKind_eq_dec k j) as [-> | Hkj].
    - destruct (Rgt_dec _ 0); [ | reflexivity].
      rewrite lookup_set_weapon. reflexivity.
    - destruct (Rgt_dec _ 0); [ | reflexivity].
      unfold Game.set_weapon. simpl. rewrite lookup_store.
      destruct (WeaponKind_eq_dec k j); [contradiction | reflexivity]. }
  rewrite <- H1. clearbody g1. clear H1.
  destruct (Rgt_dec _ 0); [ | reflexivity].
  match goal with
  | |- cooldown (lookup (Game.weapons (if _ then _ else ?g2)) k) = _ =>
      assert (H2 : cooldown (lookup (Game.weapons g2) k)
                   = cooldown (lookup (Game.weapons g1) k))
  end.
  { unfold Game.set_weapon. simpl. rewrite lookup_store.
    destruct (WeaponKind_eq_dec k j) as [-> | _]; reflexivity. }
  destruct (Rle_dec _ 0); [rewrite finish_reload_cooldown | ]; exact H2.
Qed.

(** A tick of a running game runs every positive cooldown, and changes
    neither the state nor the selection. *)
Lemma control_tick_cooldown (dt : R) (g : Game.t) (k : WeaponKind) :
  Game.state g = PLAYING ->
  cooldown (lookup (Game.weapons (control_step (TICK dt) g)) k)
  = (if Rgt_dec (cooldown (lookup (Game.weapons g) k)) 0
     then cooldown (lookup (Game.weapons g) k) - dt
     else cooldown (lookup (Game.weapons g) k))
  /\ Game.state (control_step (TICK dt) g) = PLAYING
  /\ Game.current_weapon (control_step (TICK dt) g) = Game.current_weapon g.
Proof.
  intro Hstate. rewrite (control_tick_playing dt g Hstate).
  destruct (weapon_phase_fields dt g) as (_ & _ & _ & _ & _ & _ & _ & _ & _ & _ & _ & Hst & Hcur).
  cbn [fold_left weapon_keys] in Hst, Hcur.
  split; [ | split; [rewrite Hst; exact Hstate | exact Hcur]].
  rewrite auto_reload_cooldown.
  rewrite !tick_weapon_cooldown.
  destruct k;
    repeat match goal with
      | |- context [WeaponKind_eq_dec ?a ?b] =>
          destruct (WeaponKind_eq_dec a b); try discriminate; try contradiction
      end; reflexivity.
Qed.

Lemma ticks_cooldown (dts : list R) :
  forall (g : Game.t) (k : WeaponKind),
    Game.state g = PLAYING ->
    Forall (fun dt => 0 <= dt) dts ->
    elapsed dts < cooldown (lookup (Game.weapons g) k) ->
    cooldown (lookup (Game.weapons (control_run (map TICK dts) g)) k)
    = cooldown (lookup (Game.weapons g) k) - elapsed dts
    /\ Game.state (control_run (map TICK dts) g) = PLAYING
    /\ Game.current_weapon (control_run (map TICK dts) g) = Game.current_weapon g.
Proof.
  induction dts as [ | dt dts IH]; intros g k Hstate Hdts Hsum.
  - simpl. split; [lra | auto].
  - inversion Hdts as [ | ? ? Hdt Hrest]. subst.
    assert (Hnonneg : 0 <= elapsed dts).
    { clear -Hrest. induction Hrest; simpl; lra. }
    cbn [elapsed fold_right] in Hsum. fold (elapsed dts) in Hsum.
    destruct (control_tick_cooldown dt g k Hstate) as (Hcool & Hst & Hcur).
    destruct (Rgt_dec (cooldown (lookup (Game.weapons g) k)) 0) as [_ | Hnot];
      [ | lra].
    cbn [map control_run fold_left].
    change (fold_left (fun h i => control_step i h) (map TICK dts)
                      (control_step (TICK dt) g))
      with (control_run (map TICK dts) (control_step (TICK dt) g)).
    destruct (IH (control_step (TICK dt) g) k Hst Hrest) as (Hc & Hs & Hw).
    { rewrite Hcool. lra. }
    rewrite Hc, Hcool, Hw, Hcur. cbn [elapsed fold_right]. fold (elapsed dts).
    split; [lra | auto].
Qed.

(** X12: the fire rate is a limit. After a shot of a ready weapon, and
    whatever ticks follow, as long as they take less than the fire rate
    of the weapon ([dt >= 0] each), the cooldown of the weapon is the
    fire rate less the time elapsed, and a further click fires nothing:
    it changes neither the game nor the oracle. *)
Theorem fire_rate_limit :
  forall (l : Loop) (dts : list R) (mx my : Z) (s : Env),
    Game.state (game l) = PLAYING ->
    ready (game l) ->
    Forall (fun dt => 0 <= dt) dts ->
    elapsed dts < fire_rate (WEAPONS (Game.current_weapon (game l))) ->
    exists l' s',
      run (MOUSEBUTTONDOWN 1 mx my :: map TICK dts) l s = Some (l', s')
      /\ Game.current_weapon (game l') = Game.current_weapon (game l)
      /\ cooldown (selected (game l'))
         = fire_rate (WEAPONS (Game.current_weapon (game l))) - elapsed dts
      /\ ~ ready (game l')
      /\ step (MOUSEBUTTONDOWN 1 mx my) l' s' = Some (l', s').
Proof.
  intros l dts mx my s Hstate Hready Hdts Hsum.
  destruct (run_returns (MOUSEBUTTONDOWN 1 mx my :: map TICK dts) l (game l)
                        (same_control_refl _) s)
    as (l' & s' & Hrun & (Hst & Hcur & Hw) & _).
  exists l', s'. split; [exact Hrun | ].
  unfold control_run in Hst, Hcur, Hw. cbn [fold_left] in Hst, Hcur, Hw.
  rewrite (control_fire_playing mx my (game l) Hstate) in Hst, Hcur, Hw.
  change (fold_left (fun h i => control_step i h) (map TICK dts) (fired (game l)))
    with (control_run (map TICK dts) (fired (game l))) in Hst, Hcur, Hw.
  assert (Hfired : Game.state (fired (game l)) = PLAYING
                   /\ Game.current_weapon (fired (game l))
                      = Game.current_weapon (game l)
                   /\ cooldown (lookup (Game.weapons (fired (game l)))
                                       (Game.current_weapon (game l)))
                      = fire_rate (WEAPONS (Game.current_weapon (game l)))).
  { rewrite (fired_ready (game l) Hready). unfold Game.screen_shake.
    cbn [Game.state Game.set_shake Game.set_weapon Game.set_weapons
         Game.current_weapon Game.weapons].
    split; [exact Hstate | split; [reflexivity | ]].
    rewrite lookup_store.
    destruct (WeaponKind_eq_dec _ _); [reflexivity | contradiction]. }
  destruct Hfired as (Hfs & Hfc & Hfr).
  destruct (ticks_cooldown dts (fired (game l)) (Game.current_weapon (game l))
                           Hfs Hdts) as (Hc & Hs & Hk).
  { rewrite Hfr. exact Hsum. }
  assert (Hsel : cooldown (selected (game l'))
                 = fire_rate (WEAPONS (Game.current_weapon (game l))) - elapsed dts).
  { unfold selected. rewrite Hcur, Hw, Hk, Hfc, Hc, Hfr. reflexivity. }
  assert (Hnot : ~ ready (game l')).
  { unfold ready. fold (selected (game l')). rewrite Hsel. intros (Hcool & _).
    apply Hcool. lra. }
  split; [rewrite Hcur, Hk, Hfc; reflexivity | ].
  split; [exact Hsel | split; [exact Hnot | ]].
  unfold step, on_mousebuttondown. rewrite Hst, Hs. cbn [Z.eqb Pos.eqb].
  unfold bind. rewrite (shoot_rejected (game l') s' Hnot). unfold ret.
  destruct l'; reflexivity.
Qed.

Lemma fire_rate_limit_witness :
  exists l' s',
    run (MOUSEBUTTONDOWN 1 0 0 :: map TICK [1 / 10; 1 / 10])
        (mkLoop practice_game true []) quiet_env = Some (l', s')
    /\ Game.current_weapon (game l')
       = Game.current_weapon (game (mkLoop practice_game true []))
    /\ cooldown (selected (game l'))
       = fire_rate (WEAPONS (Game.current_weapon (game (mkLoop practice_game true []))))
         - elapsed [1 / 10; 1 / 10]
    /\ ~ ready (game l')
    /\ step (MOUSEBUTTONDOWN 1 0 0) l' s' = Some (l', s').
Proof.
  apply (fire_rate_limit (mkLoop practice_game true []) [1 / 10; 1 / 10] 0 0 quiet_env).
  - reflexivity.
  - unfold ready. simpl. split; [lra | split; [lra | lia]].
  - repeat constructor; lra.
  - simpl. lra.
Defined.

(** ** The movement of the player *)

Lemma right_of_flat (c : Camera.t) :
  exists r, Camera.get_right c = Some r /\ Vector3.y r = 0.
Proof.
  unfold Camera.get_right. rewrite get_forward_eq, normalize_some.
  eexists. split; [reflexivity | ].
  apply unit_of_flat. cbn [Vector3.x Vector3.y Vector3.z]. ring.
Qed.

(** [move_player] leaves the game as it is, or moves the eye along a
    horizontal vector of positive length, normalized. *)
Lemma move_player_cases (dt : R) (keys : list Key) (g : Game.t) (s : Env) :
  move_player dt keys g s = Some (g, s)
  \/ (Game.state g = PLAYING
      /\ exists move,
           Vector3.y move = 0 /\ Vector3.length move > 0
           /\ move_player dt keys g s
              = Some (Game.set_camera
                        (Camera.set_position
                           (Vector3.add (Camera.position (Game.camera g))
                              (Vector3.mul (Vector3.mul (unit_of move) MOVE_SPEED) dt))
                           (Game.camera g)) g, s)).
Proof.
  unfold move_player.
  destruct (Game.state g); try (left; reflexivity).
  unfold bind, lift. rewrite get_forward_eq.
  destruct (right_of_flat (Game.camera g)) as (r & -> & Hr).
  cbv zeta.
  set (move := if holds K_d keys then _ else _).
  assert (Hflat : Vector3.y move = 0).
  { subst move.
    destruct (holds K_w keys), (holds K_s keys), (holds K_a keys), (holds K_d keys);
      cbn [Vector3.add Vector3.sub Vector3.x Vector3.y Vector3.z];
      try rewrite Hr; ring. }
  clearbody move.
  destruct (Rgt_dec (Vector3.length move) 0) as [Hpos | _]; [ | left; reflexivity].
  right. split; [reflexivity | ]. exists move.
  split; [exact Hflat | split; [exact Hpos | ]].
  rewrite normalize_some. reflexivity.
Qed.

(** X13: the movement of the player at the end of a pass of the loop
    raises nothing, draws nothing and changes nothing but the position of
    the camera, whose height it keeps: the eye stays where it is or moves
    by exactly [MOVE_SPEED * |dt|], whatever keys are held, so that moving
    diagonally is not faster; outside a running session nothing moves. *)
Theorem player_moves_at_move_speed :
  forall (dt : R) (keys : list Key) (g : Game.t) (s : Env),
  exists g',
    move_player dt keys g s = Some (g', s)
    /\ g' = Game.set_camera
              (Camera.set_position (Camera.position (Game.camera g')) (Game.camera g)) g
    /\ Vector3.y (Camera.position (Game.camera g'))
       = Vector3.y (Camera.position (Game.camera g))
    /\ (Camera.position (Game.camera g') = Camera.position (Game.camera g)
        \/ Vector3.length (Vector3.sub (Camera.position (Game.camera g'))
                                       (Camera.position (Game.camera g)))
           = MOVE_SPEED * Rabs dt)
    /\ (Game.state g <> PLAYING -> g' = g).
Proof.
  intros dt keys g s.
  destruct (move_player_cases dt keys g s)
    as [Hstay | (Hstate & move & Hflat & Hpos & Hmove)].
  - exists g. split; [exact Hstay | ].
    split; [destruct g as [? [? ? ?]]; reflexivity | ].
    split; [reflexivity | split; [left; reflexivity | reflexivity]].
  - eexists. split; [exact Hmove | ].
    cbn [Game.camera Game.set_camera Camera.position Camera.set_position].
    split; [reflexivity | split; [ | split]].
    + unfold Vector3.add, Vector3.mul. cbn [Vector3.x Vector3.y Vector3.z].
      rewrite (unit_of_flat move Hflat). ring.
    + right. rewrite sub_add_cancel, !length_mul, (length_unit_of move Hpos).
      unfold MOVE_SPEED. rewrite (Rabs_right 5) by lra. ring.
    + intro Hnot. contradiction.
Qed.

(** ** What the loop keeps true of the player *)

Lemma returns_run (P : Loop -> Prop) :
  (forall i l, P l -> returns (step i l) (fun _ l' _ => P l')) ->
  forall inputs l, P l -> returns (run inputs l) (fun _ l' _ => P l').
Proof.
  intros Hstep inputs. induction inputs as [ | i rest IH]; intros l Hl; cbn [run].
  - apply returns_ret. intros _. exact Hl.
  - eapply returns_bind; [apply (Hstep i l Hl) | ].
    intros s l1 s1 Hl1. destruct (IH l1 Hl1 s1) as (l2 & s2 & Hrun & Hl2).
    exists l2, s2. auto.
Qed.

Lemma fired_keeps (g : Game.t) :
  Game.camera (fired g) = Game.camera g
  /\ Game.player_health (fired g) = Game.player_health g
  /\ Game.state (fired g) = Game.state g.
Proof.
  destruct (ready_dec g) as [Hready | Hnot].
  - rewrite (fired_ready g Hready). simpl. auto.
  - rewrite (fired_rejected g Hnot). auto.
Qed.

Lemma update_keeps (dt : R) (g : Game.t) :
  returns (Game.update dt g)
          (fun _ g' _ =>
             Game.camera g' = Game.camera g
             /\ Game.player_health g' = Game.player_health g
             /\ Game.state g' = Game.state g
             /\ Game.score g' = Game.score g
             /\ Game.kills g' = Game.kills g
             /\ Game.game_mode g' = Game.game_mode g).
Proof.
  intro s. destruct (Game.state g) eqn:Hstate;
    try (exists g, s; split;
         [apply update_idle; rewrite Hstate; discriminate | rewrite Hstate; auto 7]).
  destruct (update_playing dt g s Hstate) as (es & s1 & _ & _ & Hupd).
  destruct (replenish_keeps (settled dt es g) s1)
    as (g' & s' & Hrun & _ & Hcam & Hsc & Hk & Hph & Hst & Hgm).
  destruct (settled_fields dt es g)
    as (_ & _ & _ & Hcam' & Hgm' & _ & _ & Hsc' & Hk' & Hph' & Hst').
  exists g', s'. rewrite Hupd. split; [exact Hrun | ].
  rewrite Hcam, Hsc, Hk, Hph, Hst, Hgm, Hcam', Hsc', Hk', Hph', Hst', Hgm'.
  rewrite Hstate. auto 7.
Qed.

Ltac steady_goal Hmouse :=
  repeat split;
  first [ assumption | discriminate | lra | apply Hmouse
        | (intros _; reflexivity) | (intro; discriminate) ].

Lemma step_steady (i : Input) (l : Loop) :
  steady l -> returns (step i l) (fun _ l' _ => steady l').
Proof.
  intros (Hhealth & Hover & Hy & Hpitch & Hmouse).
  destruct i as [key | key | button mx my | dx dy | dt]; unfold step.
  - apply returns_ret. intros _. unfold on_keydown, steady.
    pose proof (reload_only (game l)) as Honly. unfold only_weapons in Honly.
    destruct (Game.state (game l)) eqn:Hstate.
    + simpl. rewrite Hstate. steady_goal Hmouse.
    + destruct key; simpl; try rewrite Honly; simpl; try rewrite Hstate;
        steady_goal Hmouse.
    + destruct key; simpl; try rewrite Hstate; steady_goal Hmouse.
    + contradiction.
  - apply returns_ret. intros _. unfold steady. simpl. auto.
  - unfold on_mousebuttondown.
    destruct (Game.state (game l)) eqn:Hstate.
    + assert (Hreset : forall mode g' keys,
                 session_reset mode g' -> steady (mkLoop g' true keys)).
      { intros mode g' keys (Hst & _ & _ & _ & Hph & _ & _ & _ & Hcam).
        unfold steady. simpl. rewrite Hst, Hph, Hcam. simpl.
        repeat split; try discriminate; try reflexivity; lra. }
      destruct (_ && _)%bool.
      { eapply returns_bind; [apply start_game_target | ].
        intros s g' s' (Hr & _). eexists _, _. split; [reflexivity | ].
        apply (Hreset Target), Hr. }
      destruct (_ && _)%bool.
      { eapply returns_bind; [apply start_game_survival | ].
        intros s g' s' (Hr & _). eexists _, _. split; [reflexivity | ].
        apply (Hreset Survival), Hr. }
      apply returns_ret. intros _. unfold steady. rewrite Hstate. auto.
    + destruct (button =? 1)%Z.
      * eapply returns_bind; [apply shoot_returns | ].
        intros s g' s' [Hframe _]. eexists _, _. split; [reflexivity | ].
        destruct (fired_keeps (game l)) as (Hcam & Hph & Hst).
        unfold combat_frame in Hframe. unfold steady. rewrite Hframe. simpl.
        rewrite Hcam, Hph, Hst, Hstate. auto.
      * apply returns_ret. intros _. unfold steady. rewrite Hstate. auto.
    + apply returns_ret. intros _. unfold steady. rewrite Hstate. auto.
    + apply returns_ret. intros _. unfold steady. rewrite Hstate. auto.
  - apply returns_ret. intros _. unfold on_mousemotion, steady.
    destruct (mouse_locked l) eqn:Hlocked; [ | rewrite Hlocked; auto].
    simpl. split; [exact Hhealth | split; [exact Hover | split; [exact Hy | ]]].
    split; [ | exact Hmouse]. split.
    + apply Rmax_l.
    + apply Rmax_lub; [lra | apply Rmin_l].
  - eapply returns_bind; [apply update_keeps | ].
    intros s g1 s1 (Hcam & Hph & Hst & _).
    unfold bind, ret.
    destruct (move_player_cases dt (keys_down l) g1 s1)
      as [Hstay | (_ & move & Hflat & _ & Hmove)].
    + rewrite Hstay. eexists _, _. split; [reflexivity | ].
      unfold steady. simpl. rewrite Hcam, Hph, Hst. auto.
    + rewrite Hmove. eexists _, _. split; [reflexivity | ].
      unfold steady. simpl. rewrite Hcam, Hph, Hst.
      split; [exact Hhealth | split; [exact Hover | split; [ | auto]]].
      rewrite (unit_of_flat move Hflat), <- Hy. ring.
Qed.

Lemma steady_init : steady main_init.
Proof.
  unfold steady. simpl. repeat split; try discriminate; try lra.
Qed.

Lemma run_steady (inputs : list Input) (s : Env) :
  exists l' s', run inputs main_init s = Some (l', s') /\ steady l'.
Proof.
  apply (returns_run steady step_steady inputs main_init steady_init s).
Qed.

(** X14: the game never hurts the player. Whatever the inputs handled by
    the loop of [main] from the start of the program, the health of the
    player is 100 and the state of the game is never [GAME_OVER]. *)
Theorem player_is_never_hurt :
  forall (inputs : list Input) (s : Env),
  exists l' s',
    run inputs main_init s = Some (l', s')
    /\ Game.player_health (game l') = 100%Z
    /\ Game.state (game l') <> GAME_OVER.
Proof.
  intros inputs s.
  destruct (run_steady inputs s) as (l' & s' & Hrun & Hhealth & Hover & _).
  exists l', s'. auto.
Qed.

(** X15: the eye of the player never leaves the height of 2 and its
    pitch never leaves [-89, 89], whatever the inputs handled by the loop
    of [main] from the start of the program: the player neither jumps nor
    falls, and cannot look straight up or down. *)
Theorem camera_stays_level :
  forall (inputs : list Input) (s : Env),
  exists l' s',
    run inputs main_init s = Some (l', s')
    /\ Vector3.y (Camera.position (Game.camera (game l'))) = 2
    /\ -89 <= Camera.pitch (Game.camera (game l')) <= 89.
Proof.
  intros inputs s.
  destruct (run_steady inputs s) as (l' & s' & Hrun & _ & _ & Hy & Hpitch & _).
  exists l', s'. auto.
Qed.

(** X16: the mouse is captured exactly while a session is running,
    whatever the inputs handled by the loop of [main] from the start of
    the program; so the mouse turns the camera in no other state. *)
Theorem mouse_captured_while_playing :
  forall (inputs : list Input) (s : Env),
  exists l' s',
    run inputs main_init s = Some (l', s')
    /\ (mouse_locked l' = true <-> Game.state (game l') = PLAYING)
    /\ forall dx dy,
         Game.state (game l') <> PLAYING ->
         step (MOUSEMOTION dx dy) l' s' = Some (l', s').
Proof.
  intros inputs s.
  destruct (run_steady inputs s) as (l' & s' & Hrun & _ & _ & _ & _ & Hmouse).
  exists l', s'. split; [exact Hrun | split; [exact Hmouse | ]].
  intros dx dy Hnot. unfold step, on_mousemotion, ret.
  destruct (mouse_locked l'); [ | reflexivity].
  exfalso. apply Hnot, Hmouse. reflexivity.
Qed.

(** ** Pause *)






(** ** Explosions and the books of a shot *)

Lemma spawn_particle_spark (p : Vector3.t) (g : Game.t) (s : Env) :
  exists q s',
    Game.spawn_particle p g s
    = Some (Game.set_particles (Game.particles g ++ [q]) g, s')
    /\ spark p q
    /\ (unit_draws s -> spark_ranges q)
    /\ spawned 0 s s'.
Proof.
  unfold Game.spawn_particle, bind, uniform, choice, ret.
  eexists _, _. split; [reflexivity | split; [ | split]].
  - unfold spark, Particle.new. cbn [Particle.position Particle.alive
      Particle.lifetime Particle.max_lifetime Particle.color].
    repeat split. apply nth_In. apply Nat.mod_upper_bound. discriminate.
  - intro Hs. unfold spark_ranges, Particle.new.
    cbn [Particle.lifetime Particle.velocity Vector3.x Vector3.y Vector3.z].
    assert (H0 : 0 <= floats s (cursor s) <= 1) by apply Hs.
    assert (H1 : 0 <= floats (advance s) (cursor (advance s)) <= 1)
      by (apply (Hs (cursor (advance s)))).
    assert (H2 : 0 <= floats (advance (advance s)) (cursor (advance (advance s))) <= 1)
      by (apply (Hs (cursor (advance (advance s))))).
    assert (H4 : 0 <= floats (advance (advance (advance (advance s))))
                        (cursor (advance (advance (advance (advance s))))) <= 1)
      by (apply (Hs (cursor (advance (advance (advance (advance s))))))).
    repeat split; lra.
  - unfold spawned; simpl. auto with arith.
Qed.

Lemma explosion_sparks (p : Vector3.t) (n : nat) :
  forall (g : Game.t) (s : Env),
    exists sparks s',
      repeatM n (Game.spawn_particle p) g s
      = Some (Game.set_particles (Game.particles g ++ sparks) g, s')
      /\ List.length sparks = n
      /\ Forall (spark p) sparks
      /\ (unit_draws s -> Forall spark_ranges sparks)
      /\ spawned 0 s s'.
Proof.
  induction n as [ | n IH]; intros g s; simpl.
  - exists [], s. unfold ret. rewrite app_nil_r.
    split; [destruct g; reflexivity | ].
    split; [reflexivity | split; [constructor | split; [constructor | ]]].
    apply spawned_refl.
  - destruct (spawn_particle_spark p g s) as (q & s1 & Hrun & Hq & Hrange & Hs1).
    unfold bind. rewrite Hrun.
    destruct (IH (Game.set_particles (Game.particles g ++ [q]) g) s1)
      as (sparks & s2 & Hrun' & Hlen & Hall & Hranges & Hs2).
    exists (q :: sparks), s2. rewrite Hrun'. split; [ | split; [ | split; [ | split]]].
    + simpl. rewrite <- app_assoc. reflexivity.
    + simpl. rewrite Hlen. reflexivity.
    + constructor; assumption.
    + intro Hs. constructor; [apply Hrange; exact Hs | ].
      apply Hranges. apply (unit_draws_spawned 0 s s1); assumption.
    + apply (spawned_trans 0 0 s s1 s2); assumption.
Qed.

(** X18: with draws of [random()] in [0, 1], [create_explosion] raises
    nothing and changes nothing but the particles, to which it appends
    exactly 15: each at the position given, alive, with its full lifetime
    left, between 0.3 and 0.7, one of the three colors, and a velocity
    within [-3, 3] sideways and [0, 3] upwards. *)
Theorem create_explosion_sparks :
  forall (p : Vector3.t) (g : Game.t) (s : Env),
    unit_draws s ->
    exists sparks g' s',
      Game.create_explosion p g s = Some (g', s')
      /\ g' = Game.set_particles (Game.particles g ++ sparks) g
      /\ List.length sparks = 15%nat
      /\ Forall (fun q => spark p q /\ spark_ranges q) sparks
      /\ unit_draws s'.
Proof.
  intros p g s Hs. unfold Game.create_explosion.
  destruct (explosion_sparks p 15 g s) as (sparks & s' & Hrun & Hlen & Hall & Hranges & Hs').
  exists sparks. eexists _, s'.
  split; [exact Hrun | split; [reflexivity | split; [exact Hlen | split]]].
  - specialize (Hranges Hs). rewrite Forall_forall in *. intros q Hin. auto.
  - apply (unit_draws_spawned 0 s s'); assumption.
Qed.

Lemma create_explosion_sparks_witness :
  exists sparks g' s',
    Game.create_explosion eye Game.init quiet_env = Some (g', s')
    /\ g' = Game.set_particles (Game.particles Game.init ++ sparks) Game.init
    /\ List.length sparks = 15%nat
    /\ Forall (fun q => spark eye q /\ spark_ranges q) sparks
    /\ unit_draws s'.
Proof.
  apply (create_explosion_sparks eye Game.init quiet_env). intro n. simpl. lra.
Defined.

Lemma length_set_nth {A : Type} (i : nat) (v : A) (l : list A) :
  List.length (set_nth i v l) = List.length l.
Proof.
  revert i. induction l as [ | a l IH]; intros [ | i]; simpl; auto.
Qed.

Lemma Forall_set_nth {A : Type} (P : A -> Prop) (i : nat) (v : A) (l : list A) :
  Forall P l -> P v -> Forall P (set_nth i v l).
Proof.
  intros Hl Hv. revert i. induction Hl as [ | a l Ha Hl IH]; intros [ | i]; simpl;
    constructor; auto.
Qed.

Lemma alive_count_set_nth (es : list Enemy.t) (i : nat) (e e' : Enemy.t) :
  nth_error es i = Some e -> Enemy.alive e = true ->
  (alive_count (set_nth i e' es) + (if Enemy.alive e' then 0 else 1))%nat
  = alive_count es.
Proof.
  unfold alive_count. revert i.
  induction es as [ | a es IH]; intros [ | i] Hi Halive; simpl in Hi;
    try discriminate.
  - inversion Hi. subst a. simpl. rewrite Halive.
    destruct (Enemy.alive e'); simpl; lia.
  - simpl. specialize (IH i Hi Halive).
    destruct (Enemy.alive a); simpl; lia.
Qed.

(** The three ways of a pellet: it misses, it wounds the enemy it hits,
    or it kills it and sets off an explosion of 15 sparks. *)
Lemma shoot_pellet_cases (config : WeaponConfig) (g : Game.t) (s : Env) :
  exists g' s',
    Game.shoot_pellet config g s = Some (g', s')
    /\ spawned 0 s s'
    /\ (g' = g
        \/ exists i e,
             nth_error (Game.enemies g) i = Some e
             /\ Enemy.alive e = true
             /\ ((snd (Enemy.hit (damage config) e) = false
                  /\ g' = after_hit config i e g)
                 \/ (snd (Enemy.hit (damage config) e) = true
                     /\ exists sparks,
                          List.length sparks = 15%nat
                          /\ g' = Game.set_particles
                                    (Game.particles (after_hit config i e g) ++ sparks)
                                    (after_hit config i e g)))).
Proof.
  rewrite shoot_pellet_eq.
  assert (Hs : spawned 0 s (advance (advance s))).
  { unfold spawned; simpl. auto with arith. }
  destruct (Game.raycast g (Camera.position (Game.camera g))
                         (pellet_direction config (Game.camera g) s))
    as [[i e] | ] eqn:Hr.
  - destruct (raycast_returns_in_reach _ _ _ _ _ Hr) as [Hi (Halive & _)].
    destruct (snd (Enemy.hit (damage config) e)) eqn:Hkilled.
    + unfold Game.create_explosion.
      destruct (explosion_sparks (Enemy.position (fst (Enemy.hit (damage config) e))) 15
                                 (after_hit config i e g) (advance (advance s)))
        as (sparks & s' & Hrun & Hlen & _ & _ & Hs').
      eexists _, s'. split; [exact Hrun | split].
      * apply (spawned_trans 0 0 s (advance (advance s)) s'); assumption.
      * right. exists i, e. split; [exact Hi | split; [exact Halive | right]].
        split; [exact Hkilled | ]. exists sparks. auto.
    + eexists _, _. split; [reflexivity | split; [exact Hs | ]].
      right. exists i, e. split; [exact Hi | split; [exact Halive | left]]. auto.
  - eexists _, _. split; [reflexivity | split; [exact Hs | left; reflexivity]].
Qed.

Lemma hit_cases (dmg : Z) (e : Enemy.t) :
  (snd (Enemy.hit dmg e) = true /\ Enemy.alive (fst (Enemy.hit dmg e)) = false
   /\ (Enemy.health e - dmg <= 0)%Z)
  \/ (snd (Enemy.hit dmg e) = false
      /\ Enemy.alive (fst (Enemy.hit dmg e)) = Enemy.alive e
      /\ (0 < Enemy.health e - dmg)%Z).
Proof.
  unfold Enemy.hit.
  destruct (Enemy.health e - dmg <=? 0)%Z eqn:Hle; simpl.
  - apply Z.leb_le in Hle. left. auto.
  - apply Z.leb_gt in Hle. right. auto.
Qed.

Lemma tally_refl (g : Game.t) : tally g g.
Proof. unfold tally. rewrite Z.sub_diag. simpl. repeat split; lia. Qed.

Lemma tally_trans (a b c : Game.t) : tally a b -> tally b c -> tally a c.
Proof. unfold tally. intros (? & ? & ? & ? & ?) (? & ? & ? & ? & ?). repeat split; lia. Qed.

Lemma pellet_tally (config : WeaponConfig) (g : Game.t) :
  returns (Game.shoot_pellet config g)
          (fun s g' s' => tally g g' /\ spawned 0 s s').
Proof.
  intro s.
  destruct (shoot_pellet_cases config g s)
    as (g' & s' & Hrun & Hs & [-> | (i & e & Hi & Halive & Hcase)]).
  { exists g, s'. split; [exact Hrun | split; [apply tally_refl | exact Hs]]. }
  exists g', s'. split; [exact Hrun | split; [ | exact Hs]].
  pose proof (alive_count_set_nth (Game.enemies g) i e
                (fst (Enemy.hit (damage config) e)) Hi Halive) as Hcount.
  pose proof (length_set_nth i (fst (Enemy.hit (damage config) e)) (Game.enemies g))
    as Hlen.
  destruct (hit_cases (damage config) e) as [(Hk & Hdead & _) | (Hk & Hsame & _)];
    destruct Hcase as [[Hk' Hg'] | (Hk' & sparks & Hsparks & Hg')];
    try congruence; subst g'; unfold after_hit, tally; rewrite Hk.
  - rewrite Hdead in Hcount.
    cbn [Game.kills Game.enemies Game.particles Game.kill_feed Game.set_particles
         Game.add_kill_feed Game.set_kill_feed Game.set_kills Game.set_score
         Game.set_enemies].
    rewrite !length_app, Hlen, Hsparks. cbn [List.length].
    replace (Game.kills g + 1 - Game.kills g)%Z with 1%Z by lia.
    change (Z.to_nat 1) with 1%nat. repeat split; lia.
  - rewrite Hsame, Halive in Hcount.
    cbn [Game.kills Game.enemies Game.particles Game.kill_feed Game.set_enemies].
    rewrite Hlen, Z.sub_diag. change (Z.to_nat 0) with 0%nat. repeat split; lia.
Qed.

(** The books of a whole shot. *)
Lemma shoot_tally (g : Game.t) :
  returns (Game.shoot g) (fun _ g' _ => tally g g').
Proof.
  intro s. destruct (ready_dec g) as [Hready | Hnot].
  - destruct (returns_repeatM (Game.shoot_pellet (WEAPONS (Game.current_weapon g)))
                (fun _ a b => tally a b) (fired g) (tally_refl _)
                (fun k b Hab =>
                   returns_weaken _ _ _ (pellet_tally _ b)
                     (fun s0 c s1 H => conj (tally_trans _ _ _ Hab (proj1 H)) (proj2 H)))
                (Z.to_nat (pellets (WEAPONS (Game.current_weapon g)))) s)
      as (g' & s' & Hrun & Htally & _).
    exists g', s'. rewrite (shoot_ready_eq g s Hready). split; [exact Hrun | ].
    assert (Hfired : tally g (fired g)).
    { rewrite (fired_ready g Hready). unfold tally. simpl.
      rewrite Z.sub_diag. simpl. repeat split; lia. }
    apply (tally_trans g (fired g) g' Hfired Htally).
  - exists g, s. split; [apply shoot_rejected, Hnot | apply tally_refl].
Qed.

(** X19: the books of a shot balance. Whatever the weapon and wherever
    its pellets go, [shoot] raises nothing and, with [k] the number of
    kills it counts, removes no enemy from the list, leaves exactly [k]
    fewer alive, and adds exactly 15 particles and one line of the kill
    feed for each kill. *)
Theorem shot_books_balance :
  forall (g : Game.t) (s : Env),
  exists g' s',
    Game.shoot g s = Some (g', s')
    /\ (Game.kills g <= Game.kills g')%Z
    /\ List.length (Game.enemies g') = List.length (Game.enemies g)
    /\ (alive_count (Game.enemies g') + Z.to_nat (Game.kills g' - Game.kills g))%nat
       = alive_count (Game.enemies g)
    /\ List.length (Game.particles g')
       = (List.length (Game.particles g)
          + 15 * Z.to_nat (Game.kills g' - Game.kills g))%nat
    /\ List.length (Game.kill_feed g')
       = (List.length (Game.kill_feed g) + Z.to_nat (Game.kills g' - Game.kills g))%nat.
Proof.
  intros g s. destruct (shoot_tally g s) as (g' & s' & Hrun & Htally).
  exists g', s'. split; [exact Hrun | exact Htally].
Qed.

(** ** The arena stays in good order *)

Lemma grounded_sound (e : Enemy.t) : grounded e -> sound e.
Proof.
  intros (x & z & ty & ->). unfold sound, kind_stats.
  destruct ty; simpl; repeat split; try lia; reflexivity.
Qed.

Lemma targets_sound :
  Forall (fun e => sound e /\ Enemy.enemy_type e = Normal)
         (map (fun pos => Enemy.new pos Normal) Game.target_positions).
Proof.
  apply Forall_forall. intros e Hin. apply in_map_iff in Hin.
  destruct Hin as (pos & <- & Hpos). split; [ | reflexivity].
  apply grounded_sound. unfold Game.target_positions in Hpos. simpl in Hpos.
  repeat (destruct Hpos as [<- | Hpos]; [eexists _, _, _; reflexivity | ]).
  contradiction.
Qed.

(** What [update] makes of an enemy: the same enemy elsewhere at the same
    height, with another timer and target. *)
Lemma enemy_update_shape (dt : R) (p : Vector3.t) (e : Enemy.t) (s : Env) :
  forall e' s',
    Enemy.update dt p e s = Some (e', s') ->
    exists pos tm tg,
      e' = Enemy.set_timer tm tg (Enemy.set_position pos e)
      /\ Vector3.y pos = Vector3.y (Enemy.position e).
Proof.
  intros e' s'. destruct e as [pos0 ty al h mh sp sz col sc tm0 tg0].
  unfold Enemy.update. cbn [Enemy.alive].
  destruct (negb al).
  { unfold ret. intro H. inversion H. subst. eexists _, _, _.
    split; reflexivity. }
  unfold bind, uniform, ret, lift.
  cbn [Enemy.move_timer Enemy.move_target Enemy.set_timer Enemy.position
       Enemy.enemy_type Enemy.alive Enemy.health Enemy.max_health Enemy.speed
       Enemy.size Enemy.color Enemy.score Enemy.set_position].
  destruct (Rgt_dec _ 2);
    cbn [Enemy.move_timer Enemy.move_target Enemy.set_timer Enemy.position
         Enemy.enemy_type Enemy.alive Enemy.health Enemy.max_health Enemy.speed
         Enemy.size Enemy.color Enemy.score Enemy.set_position].
  - destruct (Rgt_dec _ (5 / 10)).
    + rewrite normalize_some. intro H. inversion H. subst.
      eexists _, _, _. split; [reflexivity | ].
      unfold Vector3.add, Vector3.mul. cbn [Enemy.position Vector3.x Vector3.y Vector3.z].
      rewrite unit_of_flat by reflexivity. ring.
    + intro H. inversion H. subst. eexists _, _, _. split; reflexivity.
  - destruct tg0 as [target | ].
    + destruct (Rgt_dec _ (5 / 10)).
      * rewrite normalize_some. intro H. inversion H. subst.
        eexists _, _, _. split; [reflexivity | ].
      unfold Vector3.add, Vector3.mul. cbn [Enemy.position Vector3.x Vector3.y Vector3.z].
      rewrite unit_of_flat by reflexivity. ring.
      * intro H. inversion H. subst. eexists _, _, _. split; reflexivity.
    + intro H. inversion H. subst. eexists _, _, _. split; reflexivity.
Qed.

Lemma mapM_update_Forall (P : Enemy.t -> Prop) (dt : R) (p : Vector3.t) :
  (forall e pos tm tg,
      P e -> Vector3.y pos = Vector3.y (Enemy.position e) ->
      P (Enemy.set_timer tm tg (Enemy.set_position pos e))) ->
  forall (es : list Enemy.t) (s : Env) es' s',
    mapM (Enemy.update dt p) es s = Some (es', s') ->
    Forall P es -> Forall P es'.
Proof.
  intros HP es. induction es as [ | e es IH]; intros s es' s' Hrun Hall;
    simpl in Hrun.
  - unfold ret in Hrun. inversion Hrun. constructor.
  - unfold bind at 1 in Hrun.
    destruct (Enemy.update dt p e s) as [[e1 s1] | ] eqn:He; [ | discriminate].
    unfold bind at 1 in Hrun.
    destruct (mapM (Enemy.update dt p) es s1) as [[es1 s2] | ] eqn:Hes;
      [ | discriminate].
    unfold ret in Hrun. inversion Hrun. subst.
    inversion Hall as [ | ? ? Pe Pes]. subst.
    destruct (enemy_update_shape dt p e s e1 s1 He) as (pos & tm & tg & -> & Hy).
    constructor; [apply HP; assumption | apply (IH s1 es1 s' Hes Pes)].
Qed.

Lemma sound_moved (e : Enemy.t) (pos : Vector3.t) (tm : R) (tg : option Vector3.t) :
  sound e -> Vector3.y pos = Vector3.y (Enemy.position e) ->
  sound (Enemy.set_timer tm tg (Enemy.set_position pos e)).
Proof.
  destruct e as [pos0 ty al h mh sp sz col sc tm0 tg0].
  unfold sound, kind_stats. simpl. intros (Hy & Hstats & Hh & Hal) Hpos.
  split; [rewrite Hpos; exact Hy | split; [ | auto]].
  destruct ty; exact Hstats.
Qed.

Lemma hit_sound (dmg : Z) (e : Enemy.t) :
  (0 < dmg)%Z -> sound e ->
  sound (fst (Enemy.hit dmg e))
  /\ Enemy.enemy_type (fst (Enemy.hit dmg e)) = Enemy.enemy_type e
  /\ Enemy.score (fst (Enemy.hit dmg e)) = Enemy.score e.
Proof.
  intros Hdmg (Hy & Hstats & Hh & Hal). unfold Enemy.hit.
  destruct (Enemy.health e - dmg <=? 0)%Z eqn:Hle; simpl;
    (split; [ | split; reflexivity]); unfold sound, kind_stats; simpl.
  - apply Z.leb_le in Hle.
    split; [exact Hy | split; [exact Hstats | split; [lia | ]]].
    split; [discriminate | lia].
  - apply Z.leb_gt in Hle.
    split; [exact Hy | split; [exact Hstats | split; [lia | ]]].
    split; [intros _; exact Hle | intros _; apply Hal; lia].
Qed.

Lemma sound_score (e : Enemy.t) :
  sound e ->
  (5 <= Enemy.score e <= 15)%Z
  /\ (Enemy.enemy_type e = Normal -> Enemy.score e = 10%Z).
Proof.
  intros (_ & (_ & _ & _ & _ & Hscore) & _). rewrite Hscore.
  destruct (Enemy.enemy_type e); simpl; split; try lia; try discriminate; reflexivity.
Qed.

Lemma Forall_filter_keeps {A : Type} (P : A -> Prop) (f : A -> bool) (l : list A) :
  Forall P l -> Forall P (filter f l).
Proof.
  intro Hl. induction Hl as [ | a l Ha Hl IH]; simpl; [constructor | ].
  destruct (f a); [constructor; assumption | exact IH].
Qed.

Lemma pellet_arena (config : WeaponConfig) (g : Game.t) :
  (0 < damage config)%Z -> arena g ->
  returns (Game.shoot_pellet config g)
          (fun s g' s' => arena g' /\ spawned 0 s s').
Proof.
  intros Hdmg (Hsound & Hscore & Htarget) s.
  destruct (shoot_pellet_cases config g s)
    as (g' & s' & Hrun & Hs & [-> | (i & e & Hi & Halive & Hcase)]).
  { exists g, s'. split; [exact Hrun | split; [ | exact Hs]].
    unfold arena, arena_of. auto. }
  exists g', s'. split; [exact Hrun | split; [ | exact Hs]].
  assert (He : sound e).
  { rewrite Forall_forall in Hsound. apply Hsound. eapply nth_error_In, Hi. }
  destruct (hit_sound (damage config) e Hdmg He) as (He' & Hty & Hsc).
  destruct (sound_score e He) as [Hrange Hnormal].
  assert (Hes : Forall sound
                  (set_nth i (fst (Enemy.hit (damage config) e)) (Game.enemies g)))
    by (apply Forall_set_nth; assumption).
  assert (Hnormals : Game.game_mode g = Some Target ->
                     Forall (fun e => Enemy.enemy_type e = Normal)
                            (set_nth i (fst (Enemy.hit (damage config) e))
                                     (Game.enemies g))
                     /\ Enemy.enemy_type e = Normal).
  { intro Hmode. destruct (Htarget Hmode) as [Hall _].
    assert (Hn : Enemy.enemy_type e = Normal).
    { rewrite Forall_forall in Hall. apply Hall. eapply nth_error_In, Hi. }
    split; [ | exact Hn]. apply Forall_set_nth; [exact Hall | congruence]. }
  destruct Hcase as [[Hk Hg'] | (Hk & sparks & _ & Hg')];
    subst g'; unfold after_hit, arena, arena_of; rewrite Hk;
    cbn [Game.kills Game.score Game.enemies Game.game_mode Game.set_particles
         Game.add_kill_feed Game.set_kill_feed Game.set_kills Game.set_score
         Game.set_enemies].
  - split; [exact Hes | split; [exact Hscore | ]].
    intro Hmode. split; [apply Hnormals, Hmode | apply Htarget, Hmode].
  - rewrite Hsc. split; [exact Hes | split; [lia | ]].
    intro Hmode. destruct (Hnormals Hmode) as [Hall Hn].
    split; [exact Hall | ]. destruct (Htarget Hmode) as [_ Hten].
    rewrite (Hnormal Hn). lia.
Qed.

Lemma damage_positive (k : WeaponKind) : (0 < damage (WEAPONS k))%Z.
Proof. destruct k; simpl; lia. Qed.

Lemma shoot_arena (g : Game.t) :
  arena g -> returns (Game.shoot g) (fun _ g' _ => arena g').
Proof.
  intros Hg s. destruct (ready_dec g) as [Hready | Hnot].
  - rewrite (shoot_ready_eq g s Hready).
    assert (Hfired : arena (fired g)).
    { rewrite (fired_ready g Hready). exact Hg. }
    destruct (returns_repeatM (Game.shoot_pellet (WEAPONS (Game.current_weapon g)))
                (fun _ _ b => arena b) (fired g) Hfired
                (fun k b Hb =>
                   pellet_arena _ b (damage_positive (Game.current_weapon g)) Hb)
                (Z.to_nat (pellets (WEAPONS (Game.current_weapon g)))) s)
      as (g' & s' & Hrun & Harena & _).
    exists g', s'. auto.
  - exists g, s. split; [apply shoot_rejected, Hnot | exact Hg].
Qed.

Lemma start_game_arena (mode : Mode) (g : Game.t) :
  returns (Game.start_game mode g) (fun _ g' _ => arena g').
Proof.
  destruct mode.
  - eapply returns_weaken; [apply start_game_target | ].
    intros s g' s' ((_ & Hmode & Hscore & Hkills & _) & _ & Hes & _).
    unfold arena, arena_of. rewrite Hes, Hscore, Hkills.
    pose proof targets_sound as Hall. rewrite Forall_forall in Hall.
    split; [apply Forall_forall; intros e Hin; apply Hall, Hin | ].
    split; [lia | intros _].
    split; [apply Forall_forall; intros e Hin; apply Hall, Hin | lia].
  - intro s. unfold Game.start_game. cbv zeta.
    match goal with
    | |- exists a s', Game.spawn_wave ?G s = _ /\ _ =>
        destruct (spawn_wave_fresh G s) as (news & s' & Hrun & _ & Hall & _)
    end.
    eexists _, s'. split; [exact Hrun | ].
    unfold arena, arena_of. simpl.
    split; [ | split; [lia | discriminate]].
    apply Forall_forall. intros e Hin. apply grounded_sound.
    rewrite Forall_forall in Hall. apply Hall, Hin.
Qed.

Lemma update_arena (dt : R) (g : Game.t) :
  arena g -> returns (Game.update dt g) (fun _ g' _ => arena g').
Proof.
  intros (Hsound & Hscore & Htarget) s.
  destruct (Game.state g) eqn:Hstate;
    try (exists g, s; split;
         [apply update_idle; rewrite Hstate; discriminate
         | unfold arena, arena_of; auto]).
  destruct (update_playing dt g s Hstate) as (es & s1 & Hmap & _ & Hupd).
  destruct (settled_fields dt es g)
    as (Hes & _ & _ & _ & Hmode & _ & _ & Hsc & Hk & _).
  assert (Hes_sound : Forall sound (filter Enemy.alive es)).
  { apply Forall_filter_keeps.
    apply (mapM_update_Forall sound dt _ sound_moved _ s es s1 Hmap Hsound). }
  assert (Hes_normal : Game.game_mode g = Some Target ->
                       Forall (fun e => Enemy.enemy_type e = Normal)
                              (filter Enemy.alive es)).
  { intro Hm. apply Forall_filter_keeps.
    apply (mapM_update_Forall (fun e => Enemy.enemy_type e = Normal) dt _
             (fun e pos tm tg H _ => H) _ s es s1 Hmap).
    apply Htarget, Hm. }
  rewrite Hupd. unfold replenish. rewrite Hmode, Hes.
  assert (Hsame : arena (settled dt es g)).
  { unfold arena, arena_of. rewrite Hes, Hsc, Hk, Hmode.
    split; [exact Hes_sound | split; [exact Hscore | ]].
    intro Hm. split; [apply Hes_normal, Hm | apply Htarget, Hm]. }
  destruct (Game.game_mode g) as [[ | ] | ] eqn:Hgm;
    destruct (filter Enemy.alive es) as [ | e0 rest] eqn:Hleft;
    try (exists (settled dt es g), s1; split; [reflexivity | exact Hsame]).
  - eexists _, _. unfold ret. split; [reflexivity | ].
    unfold arena, arena_of.
    rewrite spawn_targets_enemies, (spawn_targets_frame (settled dt es g)).
    cbn [Game.score Game.kills Game.game_mode Game.set_enemies].
    rewrite Hes, Hsc, Hk, Hmode. cbn [app].
    pose proof targets_sound as Hall. rewrite Forall_forall in Hall.
    split; [apply Forall_forall; intros e Hin; apply Hall, Hin | ].
    split; [exact Hscore | intros _].
    split; [apply Forall_forall; intros e Hin; apply Hall, Hin | ].
    apply Htarget. reflexivity.
  - destruct (spawn_wave_fresh
                (Game.set_wave (Game.wave (settled dt es g) + 1) (settled dt es g)) s1)
      as (news & s2 & Hrun & _ & Hall & _).
    eexists _, _. split; [exact Hrun | ].
    unfold arena, arena_of. simpl. rewrite Hes, Hsc, Hk, Hmode. cbn [app].
    split; [ | split; [exact Hscore | discriminate]].
    apply Forall_forall. intros e Hin. apply grounded_sound.
    rewrite Forall_forall in Hall. apply Hall, Hin.
Qed.

Lemma step_arena (i : Input) (l : Loop) :
  arena (game l) -> returns (step i l) (fun _ l' _ => arena (game l')).
Proof.
  intro Hl. destruct i as [key | key | button mx my | dx dy | dt]; unfold step.
  - apply returns_ret. intros _. unfold on_keydown.
    pose proof (reload_only (game l)) as Honly. unfold only_weapons in Honly.
    destruct (Game.state (game l)); try exact Hl;
      destruct key; try exact Hl.
    unfold arena. cbn [game]. rewrite Honly. exact Hl.
  - apply returns_ret. intros _. exact Hl.
  - unfold on_mousebuttondown.
    destruct (Game.state (game l)); try (apply returns_ret; intros _; exact Hl).
    + destruct (_ && _)%bool.
      { eapply returns_bind; [apply start_game_arena | ].
        intros s g' s' Hg'. eexists _, _. split; [reflexivity | exact Hg']. }
      destruct (_ && _)%bool.
      { eapply returns_bind; [apply start_game_arena | ].
        intros s g' s' Hg'. eexists _, _. split; [reflexivity | exact Hg']. }
      apply returns_ret. intros _. exact Hl.
    + destruct (button =? 1)%Z; [ | apply returns_ret; intros _; exact Hl].
      eapply returns_bind; [apply (shoot_arena (game l) Hl) | ].
      intros s g' s' Hg'. eexists _, _. split; [reflexivity | exact Hg'].
  - apply returns_ret. intros _. unfold on_mousemotion.
    destruct (mouse_locked l); exact Hl.
  - eapply returns_bind; [apply (update_arena dt (game l) Hl) | ].
    intros s g1 s1 Hg1. unfold bind, ret.
    destruct (move_player_returns dt (keys_down l) g1 s1) as (g2 & s2 & Hrun & Hg2 & _).
    rewrite Hrun. eexists _, _. split; [reflexivity | ].
    cbn [game]. unfold arena. rewrite Hg2. exact Hg1.
Qed.

Lemma arena_init : arena (game main_init).
Proof.
  unfold arena, arena_of. simpl. split; [constructor | split; [lia | discriminate]].
Qed.

Lemma run_arena (inputs : list Input) (s : Env) :
  exists l' s', run inputs main_init s = Some (l', s') /\ arena (game l').
Proof.
  apply (returns_run (fun l => arena (game l)) step_arena inputs main_init arena_init s).
Qed.

(** X20: every enemy of the arena is in good order, whatever the inputs
    handled by the loop of [main] from the start of the program: it stands
    at height 1, has the maximal health, speed, size, color and score that
    the constructor gives its type, no more health than that maximum, and
    is alive exactly while its health is positive. So the health bar of
    an enemy alive is a fraction in (0, 1] of a non-zero maximum. *)
Theorem enemies_stay_in_good_order :
  forall (inputs : list Input) (s : Env),
  exists l' s',
    run inputs main_init s = Some (l', s')
    /\ Forall sound (Game.enemies (game l'))
    /\ forall e, In e (Game.enemies (game l')) ->
                 (0 < Enemy.max_health e)%Z
                 /\ (Enemy.alive e = true ->
                     (0 < Enemy.health e <= Enemy.max_health e)%Z).
Proof.
  intros inputs s.
  destruct (run_arena inputs s) as (l' & s' & Hrun & Hsound & _).
  exists l', s'. split; [exact Hrun | split; [exact Hsound | ]].
  intros e Hin. rewrite Forall_forall in Hsound.
  destruct (Hsound e Hin) as (_ & (Hmax & _) & Hh & Hal).
  split; [rewrite Hmax; destruct (Enemy.enemy_type e); simpl; lia | ].
  intro Halive. split; [apply Hal, Halive | exact Hh].
Qed.

(** X21: the score follows the kills, whatever the inputs handled by the
    loop of [main] from the start of the program: it is between 5 and 15
    points for every kill counted, and in target practice, where every
    enemy is a normal one, exactly 10 points a kill. *)
Theorem score_follows_kills :
  forall (inputs : list Input) (s : Env),
  exists l' s',
    run inputs main_init s = Some (l', s')
    /\ (0 <= Game.kills (game l'))%Z
    /\ (5 * Game.kills (game l') <= Game.score (game l')
        <= 15 * Game.kills (game l'))%Z
    /\ (Game.game_mode (game l') = Some Target ->
        Forall (fun e => Enemy.enemy_type e = Normal) (Game.enemies (game l'))
        /\ Game.score (game l') = (10 * Game.kills (game l'))%Z).
Proof.
  intros inputs s.
  destruct (run_arena inputs s) as (l' & s' & Hrun & _ & Hscore & Htarget).
  exists l', s'. split; [exact Hrun | split; [lia | split; [exact Hscore | ]]].
  exact Htarget.
Qed.

(** ** The end of a reload *)

Lemma set_weapon_other (j k : WeaponKind) (d : WeaponData) (g : Game.t) :
  j <> k -> lookup (Game.weapons (Game.set_weapon j d g)) k = lookup (Game.weapons g) k.
Proof.
  intro Hjk. unfold Game.set_weapon. simpl. rewrite lookup_store.
  destruct (WeaponKind_eq_dec k j); [congruence | reflexivity].
Qed.

(** [finish_reload] refills the selected weapon, and a second call changes
    nothing more. *)
Lemma finish_reload_refills (k : WeaponKind) (a r : Z) (g : Game.t) :
  (0 <= a <= max_ammo (WEAPONS k))%Z -> (0 <= r)%Z ->
  holds_stock k a r g \/ holds_stock k (refilled k a r) (a + r - refilled k a r) g ->
  reload_over k a r (Game.finish_reload g).
Proof.
  intros Ha Hr Hg.
  assert (Hcur : Game.current_weapon g = k) by (destruct Hg as [H | H]; apply H).
  unfold reload_over, holds_stock, Game.finish_reload. cbv zeta. rewrite Hcur.
  rewrite lookup_set_weapon. cbn [ammo reserve reloading].
  split; [ | reflexivity]. split; [exact Hcur | ].
  unfold refilled in *.
  destruct Hg as [(_ & -> & ->) | (_ & -> & ->)]; split; lia.
Qed.

(** One turn of the weapon loop, seen from the selected weapon [k] whose
    reload ends within this tick. *)
Lemma tick_weapon_reload (k : WeaponKind) (a r : Z) (dt : R) (j : WeaponKind)
      (g : Game.t) :
  (0 <= a <= max_ammo (WEAPONS k))%Z -> (0 <= r)%Z ->
  reload_pending k a r dt g \/ reload_over k a r g ->
  (reload_pending k a r dt (Game.tick_weapon dt g j)
   \/ reload_over k a r (Game.tick_weapon dt g j))
  /\ (reload_over k a r g -> reload_over k a r (Game.tick_weapon dt g j))
  /\ (j = k -> reload_over k a r (Game.tick_weapon dt g j)).
Proof.
  intros Ha Hr Hg. unfold Game.tick_weapon. cbv zeta.
  set (g2 := if Rgt_dec (cooldown (lookup (Game.weapons g) j)) 0 then _ else g).
  assert (H2 : Game.current_weapon g2 = Game.current_weapon g
               /\ ammo (lookup (Game.weapons g2) k) = ammo (lookup (Game.weapons g) k)
               /\ reserve (lookup (Game.weapons g2) k)
                  = reserve (lookup (Game.weapons g) k)
               /\ reloading (lookup (Game.weapons g2) k)
                  = reloading (lookup (Game.weapons g) k)).
  { subst g2. destruct (Rgt_dec _ 0); [ | auto].
    destruct (WeaponKind_eq_dec j k) as [-> | Hjk].
    - rewrite lookup_set_weapon. simpl. auto.
    - rewrite (set_weapon_other j k _ g Hjk). simpl. auto. }
  destruct H2 as (Hcur2 & Ha2 & Hr2 & Ht2).
  assert (Hg2 : (reload_pending k a r dt g -> reload_pending k a r dt g2)
                /\ (reload_over k a r g -> reload_over k a r g2)).
  { unfold reload_pending, reload_over, holds_stock.
    rewrite Hcur2, Ha2, Hr2, Ht2. auto. }
  destruct Hg2 as [Hpend2 Hover2]. clearbody g2.
  set (g3 := Game.set_weapon j _ g2).
  assert (H3 : Game.current_weapon g3 = Game.current_weapon g2
               /\ ammo (lookup (Game.weapons g3) k) = ammo (lookup (Game.weapons g2) k)
               /\ reserve (lookup (Game.weapons g3) k)
                  = reserve (lookup (Game.weapons g2) k)
               /\ (j <> k -> reloading (lookup (Game.weapons g3) k)
                             = reloading (lookup (Game.weapons g2) k))).
  { subst g3. destruct (WeaponKind_eq_dec j k) as [-> | Hjk].
    - rewrite lookup_set_weapon. simpl. split; [reflexivity | ].
      split; [reflexivity | split; [reflexivity | congruence]].
    - rewrite (set_weapon_other j k _ g2 Hjk). simpl. auto. }
  destruct H3 as (Hcur3 & Ha3 & Hr3 & Ht3).
  assert (Hstock3 : holds_stock k a r g2
                    \/ holds_stock k (refilled k a r) (a + r - refilled k a r) g2 ->
                    reload_over k a r (Game.finish_reload g3)).
  { intro H. apply finish_reload_refills; try assumption.
    unfold holds_stock. rewrite Hcur3, Ha3, Hr3. exact H. }
  assert (Hkeep3 : j <> k ->
                   (reload_pending k a r dt g2 -> reload_pending k a r dt g3)
                   /\ (reload_over k a r g2 -> reload_over k a r g3)).
  { intro Hjk. unfold reload_pending, reload_over, holds_stock.
    rewrite Hcur3, Ha3, Hr3, (Ht3 Hjk). auto. }
  destruct (WeaponKind_eq_dec j k) as [-> | Hjk].
  - (* the turn of the selected weapon *)
    assert (Hdone : reload_over k a r
                      (if Rgt_dec (reloading (lookup (Game.weapons g2) k)) 0
                       then if Rle_dec (reloading (lookup (Game.weapons g3) k)) 0
                            then Game.finish_reload g3 else g3
                       else g2)).
    { destruct Hg as [Hp | Ho].
      - destruct (Hpend2 Hp) as [Hs [Hpos Hle]].
        destruct (Rgt_dec _ 0) as [_ | Hn]; [ | contradiction].
        subst g3. rewrite lookup_set_weapon. cbn [reloading].
        destruct (Rle_dec _ 0) as [_ | Hn]; [ | lra].
        apply Hstock3. left. exact Hs.
      - destruct (Hover2 Ho) as [Hs Hzero].
        rewrite Hzero. destruct (Rgt_dec 0 0) as [Habs | _]; [lra | ].
        split; assumption. }
    split; [right; exact Hdone | split; [intros _; exact Hdone | intros _; exact Hdone]].
  - (* the turn of another weapon *)
    destruct (Hkeep3 Hjk) as [Hpend3 Hover3].
    split; [ | split; [ | intro Heq; contradiction]].
    + destruct (Rgt_dec _ 0); [ | destruct Hg; [left | right]; auto].
      destruct (Rle_dec _ 0).
      * right. apply Hstock3. destruct Hg as [Hp | Ho];
          [left; apply (Hpend2 Hp) | right; apply (Hover2 Ho)].
      * destruct Hg; [left | right]; auto.
    + intro Ho. destruct (Rgt_dec _ 0); [ | auto].
      destruct (Rle_dec _ 0); [ | auto].
      apply Hstock3. right. apply (Hover2 Ho).
Qed.

Lemma auto_reload_over (k : WeaponKind) (a r : Z) (g : Game.t) :
  (0 <= a <= max_ammo (WEAPONS k))%Z -> (0 <= r)%Z ->
  reload_over k a r g -> Game.auto_reload g = g.
Proof.
  intros Ha Hr ((Hcur & Hammo & Hres) & Hzero).
  unfold Game.auto_reload. cbv zeta. rewrite Hcur, Hammo, Hres.
  pose proof (max_ammo_positive k) as Hmax. unfold refilled in *.
  destruct (Z.eqb_spec (Z.min (max_ammo (WEAPONS k)) (a + r)) 0) as [H0 | _];
    [ | reflexivity].
  destruct (Req_dec_T _ 0); [ | reflexivity].
  destruct (Z.gtb_spec (a + r - Z.min (max_ammo (WEAPONS k)) (a + r)) 0);
    [lia | reflexivity].
Qed.

(** X22: the tick on which the reload timer of the selected weapon runs
    out ([0 < reloading <= dt]) completes the reload, whatever the other
    weapons do: the magazine is filled up from the reserve as far as the
    reserve goes, no round is lost or made, and the timer is 0 again. *)
Theorem reload_completes :
  forall (dt : R) (g : Game.t) (s : Env),
    Game.state g = PLAYING ->
    ammo_in_range g ->
    0 < reloading (selected g) <= dt ->
    exists g' s',
      Game.update dt g s = Some (g', s')
      /\ Game.current_weapon g' = Game.current_weapon g
      /\ ammo (selected g')
         = Z.min (max_ammo (WEAPONS (Game.current_weapon g)))
                 (ammo (selected g) + reserve (selected g))
      /\ (ammo (selected g') + reserve (selected g')
          = ammo (selected g) + reserve (selected g))%Z
      /\ reloading (selected g') = 0.
Proof.
  intros dt g s Hstate Hrange Htimer.
  destruct (update_returns dt g s) as (g' & s' & Hrun & (_ & Hcur & Hw) & _).
  exists g', s'. split; [exact Hrun | ].
  rewrite (control_tick_playing dt g Hstate) in Hcur, Hw.
  set (k := Game.current_weapon g) in *.
  set (a := ammo (selected g)). set (r := reserve (selected g)).
  destruct (Hrange k) as [Ha Hr]. fold (selected g) in Ha, Hr. fold a in Ha. fold r in Hr.
  assert (H0 : reload_pending k a r dt g \/ reload_over k a r g).
  { left. unfold reload_pending, holds_stock. auto. }
  destruct (tick_weapon_reload k a r dt Pistol g Ha Hr H0) as (H1 & _ & D1).
  set (g1 := Game.tick_weapon dt g Pistol) in *.
  destruct (tick_weapon_reload k a r dt Rifle g1 Ha Hr H1) as (H2 & K2 & D2).
  set (g2 := Game.tick_weapon dt g1 Rifle) in *.
  destruct (tick_weapon_reload k a r dt Shotgun g2 Ha Hr H2) as (_ & K3 & D3).
  set (g3 := Game.tick_weapon dt g2 Shotgun) in *.
  assert (Hover : reload_over k a r g3).
  { destruct k; [apply K3, K2, D1 | apply K3, D2 | apply D3]; reflexivity. }
  rewrite (auto_reload_over k a r g3 Ha Hr Hover) in Hcur, Hw.
  destruct Hover as ((Hk & Hammo & Hres) & Hzero).
  unfold selected. rewrite Hcur, Hw, Hk, Hammo, Hres, Hzero.
  unfold refilled. split; [reflexivity | split; [reflexivity | split; [lia | reflexivity]]].
Qed.

Lemma reload_completes_witness :
  exists g' s',
    Game.update 2 reloading_game quiet_env = Some (g', s')
    /\ Game.current_weapon g' = Game.current_weapon reloading_game
    /\ ammo (selected g')
       = Z.min (max_ammo (WEAPONS (Game.current_weapon reloading_game)))
               (ammo (selected reloading_game) + reserve (selected reloading_game))
    /\ (ammo (selected g') + reserve (selected g')
        = ammo (selected reloading_game) + reserve (selected reloading_game))%Z
    /\ reloading (selected g') = 0.
Proof.
  apply (reload_completes 2 reloading_game quiet_env).
  - reflexivity.
  - intro k. destruct k; simpl; lia.
  - simpl. lra.
Defined.

(** ** Ties of the ray cast *)

Lemma in_reach_ahead : in_reach eye ahead enemy_ahead.
Proof.
  destruct (on_axis eye ahead enemy_ahead 5 length_ahead) as [Hproj Hdist].
  { unfold enemy_ahead, eye, ahead, Vector3.add, Vector3.mul. simpl. f_equal; ring. }
  unfold in_reach. rewrite Hproj, Hdist. simpl. split; [reflexivity | lra].
Qed.

Lemma raycast_twins : Game.raycast twins eye ahead = Some (0%nat, enemy_ahead).
Proof.
  apply (raycast_first_alive twins eye ahead [] [enemy_ahead] enemy_ahead).
  - reflexivity.
  - constructor.
  - apply in_reach_ahead.
  - intros e' [<- | []]. lra.
Qed.

(** X23: of the enemies that pass the test of the ray cast with the same,
    least, projection, the ray cast returns the first of the list: a later
    one replaces the closest only when it is strictly closer. *)
Theorem raycast_keeps_first_of_equals :
  forall (g : Game.t) (origin direction : Vector3.t) (j : nat) (e : Enemy.t),
    Game.raycast g origin direction = Some (j, e) ->
    nth_error (Game.enemies g) j = Some e
    /\ forall (k : nat) (e' : Enemy.t),
         nth_error (Game.enemies g) k = Some e' ->
         in_reach origin direction e' ->
         projection origin direction e <= projection origin direction e'
         /\ (projection origin direction e' = projection origin direction e ->
             (j <= k)%nat).
Proof.
  intros g origin direction j e Hr.
  pose proof (raycast_best origin direction g) as Hbest.
  rewrite Hr in Hbest. simpl in Hbest. destruct Hbest as (Hj & _ & Hmin).
  split; [exact Hj | ]. intros k e' Hk Hreach.
  destruct (Hmin k e' Hk Hreach) as [Hle Hstrict].
  split; [exact Hle | ]. intro Heq.
  destruct (Nat.le_gt_cases j k) as [Hjk | Hkj]; [exact Hjk | ].
  specialize (Hstrict Hkj). lra.
Qed.

Lemma raycast_keeps_first_of_equals_witness :
  nth_error (Game.enemies twins) 0 = Some enemy_ahead
  /\ forall (k : nat) (e' : Enemy.t),
       nth_error (Game.enemies twins) k = Some e' ->
       in_reach eye ahead e' ->
       projection eye ahead enemy_ahead <= projection eye ahead e'
       /\ (projection eye ahead e' = projection eye ahead enemy_ahead ->
           (0 <= k)%nat).
Proof.
  apply (raycast_keeps_first_of_equals twins eye ahead 0 enemy_ahead).
  exact raycast_twins.
Defined.

(** ** The way of an enemy and of a particle *)

Lemma unit_of_positive (v : Vector3.t) :
  Vector3.length v > 0 ->
  unit_of v = Vector3.mk (Vector3.x v / Vector3.length v)
                         (Vector3.y v / Vector3.length v)
                         (Vector3.z v / Vector3.length v).
Proof.
  intro Hpos. unfold unit_of. destruct (Rgt_dec _ 0); [reflexivity | contradiction].
Qed.

(** X24: an enemy alive that has a target more than 0.5 away on the
    ground, and whose timer does not pass 2 on this update, walks straight
    towards it: the update draws nothing, keeps the target, and leaves the
    enemy at [|d - speed * dt|] from it on the ground, [d] being the
    distance before. *)
Theorem enemy_heads_for_target :
  forall (dt : R) (player_pos : Vector3.t) (e : Enemy.t) (target : Vector3.t) (s : Env),
    Enemy.alive e = true ->
    Enemy.move_timer e + dt <= 2 ->
    Enemy.move_target e = Some target ->
    ground_distance target (Enemy.position e) > 5 / 10 ->
    exists e',
      Enemy.update dt player_pos e s = Some (e', s)
      /\ Enemy.move_target e' = Some target
      /\ Enemy.move_timer e' = Enemy.move_timer e + dt
      /\ ground_distance target (Enemy.position e')
         = Rabs (ground_distance target (Enemy.position e) - Enemy.speed e * dt).
Proof.
  intros dt player_pos e target s Halive Htimer Htarget Hfar.
  unfold Enemy.update. rewrite Halive. cbn [negb]. cbv zeta.
  unfold bind at 1. cbn [Enemy.move_timer Enemy.set_timer].
  destruct (Rgt_dec (Enemy.move_timer e + dt) 2) as [Habs | _]; [lra | ].
  unfold ret at 1. rewrite Htarget.
  cbn [Enemy.move_target Enemy.set_timer Enemy.position Enemy.speed].
  unfold ground_distance in *.
  set (dir := Vector3.mk (Vector3.x (Vector3.sub target (Enemy.position e))) 0
                         (Vector3.z (Vector3.sub target (Enemy.position e)))) in *.
  destruct (Rgt_dec (Vector3.length dir) (5 / 10)) as [_ | Hn]; [ | contradiction].
  unfold bind, lift, ret. rewrite normalize_some.
  eexists. split; [reflexivity | ].
  cbn [Enemy.move_target Enemy.move_timer Enemy.set_position Enemy.position].
  split; [reflexivity | split; [reflexivity | ]].
  assert (Hpos : Vector3.length dir > 0) by lra.
  rewrite (unit_of_positive dir Hpos).
  set (d := Vector3.length dir) in *.
  replace (Vector3.mk
             (Vector3.x (Vector3.sub target
                (Vector3.add (Enemy.position e)
                   (Vector3.mul
                      (Vector3.mul
                         (Vector3.mk (Vector3.x dir / d) (Vector3.y dir / d)
                                     (Vector3.z dir / d))
                         (Enemy.speed e)) dt)))) 0
             (Vector3.z (Vector3.sub target
                (Vector3.add (Enemy.position e)
                   (Vector3.mul
                      (Vector3.mul
                         (Vector3.mk (Vector3.x dir / d) (Vector3.y dir / d)
                                     (Vector3.z dir / d))
                         (Enemy.speed e)) dt)))))
    with (Vector3.mul dir ((d - Enemy.speed e * dt) / d)).
  - rewrite length_mul. fold d. unfold Rdiv. rewrite Rabs_mult.
    rewrite (Rabs_right (/ d)) by (left; apply Rinv_0_lt_compat; lra).
    field. lra.
  - subst dir. unfold Vector3.mul, Vector3.sub, Vector3.add.
    cbn [Vector3.x Vector3.y Vector3.z]. f_equal; field; lra.
Qed.

Lemma marching_distance :
  ground_distance (Vector3.mk 0 1 (-1)) (Enemy.position marching) = 4.
Proof.
  unfold ground_distance, marching, enemy_ahead, Vector3.sub, Vector3.length.
  cbn [Enemy.position Enemy.set_timer Enemy.new Vector3.x Vector3.y Vector3.z].
  match goal with |- sqrt ?a = 4 => replace a with (4 * 4) by ring end.
  apply sqrt_square. lra.
Qed.

Lemma enemy_heads_for_target_witness :
  exists e',
    Enemy.update 1 eye marching quiet_env = Some (e', quiet_env)
    /\ Enemy.move_target e' = Some (Vector3.mk 0 1 (-1))
    /\ Enemy.move_timer e' = Enemy.move_timer marching + 1
    /\ ground_distance (Vector3.mk 0 1 (-1)) (Enemy.position e')
       = Rabs (ground_distance (Vector3.mk 0 1 (-1)) (Enemy.position marching)
               - Enemy.speed marching * 1).
Proof.
  apply (enemy_heads_for_target 1 eye marching (Vector3.mk 0 1 (-1)) quiet_env).
  - reflexivity.
  - simpl. lra.
  - reflexivity.
  - rewrite marching_distance. lra.
Defined.

(** X25: while it lives, a particle flies a parabola. After [n] updates
    of [dt >= 0] that leave it a positive lifetime, the lifetime has
    lost [n * dt]; the velocity has lost [10 * n * dt] upwards and
    nothing sideways; and the position is the one of the start plus
    [n * dt] times the velocity of the start, less [5 * dt^2 * n * (n - 1)]
    in height. *)
Theorem particle_flight :
  forall (n : nat) (dt : R) (p : Particle.t),
    0 <= dt ->
    Particle.lifetime p - INR n * dt > 0 ->
    Particle.lifetime (flown n dt p) = Particle.lifetime p - INR n * dt
    /\ Particle.alive (flown n dt p) = Particle.alive p
    /\ Particle.max_lifetime (flown n dt p) = Particle.max_lifetime p
    /\ Particle.color (flown n dt p) = Particle.color p
    /\ Particle.velocity (flown n dt p)
       = Vector3.mk (Vector3.x (Particle.velocity p))
                    (Vector3.y (Particle.velocity p) - 10 * INR n * dt)
                    (Vector3.z (Particle.velocity p))
    /\ Particle.position (flown n dt p)
       = Vector3.mk
           (Vector3.x (Particle.position p)
            + INR n * dt * Vector3.x (Particle.velocity p))
           (Vector3.y (Particle.position p)
            + INR n * dt * Vector3.y (Particle.velocity p)
            - 5 * dt * dt * INR n * (INR n - 1))
           (Vector3.z (Particle.position p)
            + INR n * dt * Vector3.z (Particle.velocity p)).
Proof.
  intros n dt p Hdt. induction n as [ | n IH]; intro Hlife.
  - cbn [flown INR]. destruct p as [[px py pz] [vx vy vz] col life mlife al].
    cbn [Particle.lifetime Particle.alive Particle.max_lifetime Particle.color
         Particle.velocity Particle.position Vector3.x Vector3.y Vector3.z].
    repeat split; first [reflexivity | ring | (f_equal; ring)].
  - rewrite S_INR in *. pose proof (pos_INR n) as Hn.
    destruct IH as (Hl & Ha & Hm & Hc & Hv & Hp); [nra | ].
    cbn [flown]. unfold Particle.update. cbv zeta.
    destruct (Rle_dec (Particle.lifetime (flown n dt p) - dt) 0) as [Hle | _];
      [rewrite Hl in Hle; lra | ].
    cbn [Particle.lifetime Particle.alive Particle.max_lifetime Particle.color
         Particle.velocity Particle.position].
    rewrite Hl, Ha, Hm, Hc, Hv, Hp. unfold Vector3.add, Vector3.mul.
    cbn [Vector3.x Vector3.y Vector3.z].
    repeat split; first [reflexivity | ring | (f_equal; ring)].
Qed.

Lemma particle_flight_witness :
  Particle.lifetime (flown 2 (1 / 10) rising_spark)
  = Particle.lifetime rising_spark - INR 2 * (1 / 10)
  /\ Particle.alive (flown 2 (1 / 10) rising_spark) = Particle.alive rising_spark
  /\ Particle.max_lifetime (flown 2 (1 / 10) rising_spark)
     = Particle.max_lifetime rising_spark
  /\ Particle.color (flown 2 (1 / 10) rising_spark) = Particle.color rising_spark
  /\ Particle.velocity (flown 2 (1 / 10) rising_spark)
     = Vector3.mk (Vector3.x (Particle.velocity rising_spark))
                  (Vector3.y (Particle.velocity rising_spark) - 10 * INR 2 * (1 / 10))
                  (Vector3.z (Particle.velocity rising_spark))
  /\ Particle.position (flown 2 (1 / 10) rising_spark)
     = Vector3.mk
         (Vector3.x (Particle.position rising_spark)
          + INR 2 * (1 / 10) * Vector3.x (Particle.velocity rising_spark))
         (Vector3.y (Particle.position rising_spark)
          + INR 2 * (1 / 10) * Vector3.y (Particle.velocity rising_spark)
          - 5 * (1 / 10) * (1 / 10) * INR 2 * (INR 2 - 1))
         (Vector3.z (Particle.position rising_spark)
          + INR 2 * (1 / 10) * Vector3.z (Particle.velocity rising_spark)).
Proof.
  apply (particle_flight 2 (1 / 10) rising_spark).
  - lra.
  - simpl. lra.
Defined.

(** ** The time of a reload *)

(** A turn of the weapon loop on which no reload ends moves no round and
    runs the reload timer of its weapon only. *)
Lemma tick_weapon_quiet (dt : R) (g : Game.t) (j : WeaponKind) :
  (reloading (lookup (Game.weapons g) j) > 0 ->
   reloading (lookup (Game.weapons g) j) - dt > 0) ->
  Game.state (Game.tick_weapon dt g j) = Game.state g
  /\ Game.current_weapon (Game.tick_weapon dt g j) = Game.current_weapon g
  /\ forall k,
       ammo (lookup (Game.weapons (Game.tick_weapon dt g j)) k)
       = ammo (lookup (Game.weapons g) k)
       /\ reserve (lookup (Game.weapons (Game.tick_weapon dt g j)) k)
          = reserve (lookup (Game.weapons g) k)
       /\ reloading (lookup (Game.weapons (Game.tick_weapon dt g j)) k)
          = if WeaponKind_eq_dec k j
            then if Rgt_dec (reloading (lookup (Game.weapons g) k)) 0
                 then reloading (lookup (Game.weapons g) k) - dt
                 else reloading (lookup (Game.weapons g) k)
            else reloading (lookup (Game.weapons g) k).
Proof.
  intro Hquiet. unfold Game.tick_weapon. cbv zeta.
  set (g2 := if Rgt_dec (cooldown (lookup (Game.weapons g) j)) 0 then _ else g).
  assert (H2 : Game.state g2 = Game.state g
               /\ Game.current_weapon g2 = Game.current_weapon g
               /\ forall k,
                    ammo (lookup (Game.weapons g2) k) = ammo (lookup (Game.weapons g) k)
                    /\ reserve (lookup (Game.weapons g2) k)
                       = reserve (lookup (Game.weapons g) k)
                    /\ reloading (lookup (Game.weapons g2) k)
                       = reloading (lookup (Game.weapons g) k)).
  { subst g2. destruct (Rgt_dec _ 0); [ | auto].
    split; [reflexivity | split; [reflexivity | ]]. intro k.
    unfold Game.set_weapon. cbn [Game.weapons Game.set_weapons]. rewrite lookup_store.
    destruct (WeaponKind_eq_dec k j) as [-> | _]; auto. }
  destruct H2 as (Hst & Hcur & Hdata). clearbody g2.
  destruct (Hdata j) as (_ & _ & Hrj).
  destruct (Rgt_dec (reloading (lookup (Game.weapons g2) j)) 0) as [Hpos | Hnot].
  - rewrite lookup_set_weapon. cbn [reloading].
    destruct (Rle_dec (reloading (lookup (Game.weapons g2) j) - dt) 0) as [Hle | _].
    { exfalso. rewrite Hrj in Hpos, Hle. specialize (Hquiet Hpos). lra. }
    split; [exact Hst | split; [exact Hcur | ]]. intro k.
    unfold Game.set_weapon. cbn [Game.weapons Game.set_weapons]. rewrite lookup_store.
    destruct (Hdata k) as (Hak & Hrk & Htk).
    destruct (WeaponKind_eq_dec k j) as [-> | _].
    + cbn [ammo reserve reloading]. rewrite <- Htk.
      destruct (Rgt_dec _ 0); [auto | contradiction].
    + auto.
  - split; [exact Hst | split; [exact Hcur | ]]. intro k.
    destruct (Hdata k) as (Hak & Hrk & Htk).
    split; [exact Hak | split; [exact Hrk | ]].
    destruct (WeaponKind_eq_dec k j) as [-> | _]; [ | exact Htk].
    rewrite <- Htk. destruct (Rgt_dec _ 0); [contradiction | reflexivity].
Qed.

(** The turn of the selected weapon [k], alone in reloading, runs its
    timer; the turn of another weapon changes nothing of it. *)
Lemma tick_weapon_alone_same (k : WeaponKind) (a r : Z) (t dt : R) (g : Game.t) :
  0 < t -> 0 < t - dt ->
  reloading_alone k a r t g ->
  reloading_alone k a r (t - dt) (Game.tick_weapon dt g k).
Proof.
  intros Ht Hleft (Hst & (Hcur & Ha & Hr) & Ht0 & Hothers).
  destruct (tick_weapon_quiet dt g k) as (Hst' & Hcur' & Hdata).
  { intros _. rewrite Ht0. exact Hleft. }
  unfold reloading_alone, holds_stock. rewrite Hst', Hcur'.
  destruct (Hdata k) as (Hak & Hrk & Htk). rewrite Hak, Hrk, Htk.
  split; [exact Hst | split; [auto | split]].
  - destruct (WeaponKind_eq_dec k k) as [_ | Hkk]; [ | contradiction].
    rewrite Ht0. destruct (Rgt_dec t 0); [reflexivity | lra].
  - intros i Hik. destruct (Hdata i) as (_ & _ & Hti). rewrite Hti.
    destruct (WeaponKind_eq_dec i k); [contradiction | apply Hothers, Hik].
Qed.

Lemma tick_weapon_alone_other (k : WeaponKind) (a r : Z) (t dt : R) (j : WeaponKind)
      (g : Game.t) :
  j <> k ->
  reloading_alone k a r t g ->
  reloading_alone k a r t (Game.tick_weapon dt g j).
Proof.
  intros Hjk (Hst & (Hcur & Ha & Hr) & Ht0 & Hothers).
  destruct (tick_weapon_quiet dt g j) as (Hst' & Hcur' & Hdata).
  { intro Hpos. exfalso. apply (Hothers j Hjk Hpos). }
  unfold reloading_alone, holds_stock. rewrite Hst', Hcur'.
  destruct (Hdata k) as (Hak & Hrk & Htk). rewrite Hak, Hrk, Htk.
  split; [exact Hst | split; [auto | split]].
  - destruct (WeaponKind_eq_dec k j) as [Hkj | _]; [congruence | exact Ht0].
  - intros i Hik. destruct (Hdata i) as (_ & _ & Hti). rewrite Hti.
    pose proof (Hothers i Hik) as Hidle.
    destruct (WeaponKind_eq_dec i j); [ | exact Hidle].
    destruct (Rgt_dec (reloading (lookup (Game.weapons g) i)) 0);
      [contradiction | exact Hidle].
Qed.

(** A tick during the reload of the selected weapon, alone in reloading,
    runs its timer and moves no round. *)
Lemma control_tick_alone (k : WeaponKind) (a r : Z) (t dt : R) (g : Game.t) :
  0 < t -> 0 < t - dt ->
  reloading_alone k a r t g ->
  reloading_alone k a r (t - dt) (control_step (TICK dt) g).
Proof.
  intros Ht Hleft Hg.
  rewrite (control_tick_playing dt g (proj1 Hg)).
  assert (H3 : reloading_alone k a r (t - dt)
                 (Game.tick_weapon dt
                    (Game.tick_weapon dt (Game.tick_weapon dt g Pistol) Rifle) Shotgun)).
  { destruct k.
    - apply tick_weapon_alone_other; [discriminate | ].
      apply tick_weapon_alone_other; [discriminate | ].
      apply tick_weapon_alone_same; assumption.
    - apply tick_weapon_alone_other; [discriminate | ].
      apply tick_weapon_alone_same; try assumption.
      apply tick_weapon_alone_other; [discriminate | exact Hg].
    - apply tick_weapon_alone_same; try assumption.
      apply tick_weapon_alone_other; [discriminate | ].
      apply tick_weapon_alone_other; [discriminate | exact Hg]. }
  set (g3 := Game.tick_weapon dt _ Shotgun) in *. clearbody g3.
  assert (Hsame : Game.auto_reload g3 = g3).
  { destruct H3 as (_ & (Hcur & _) & Ht3 & _).
    unfold Game.auto_reload. cbv zeta. rewrite Hcur, Ht3.
    destruct (_ =? 0)%Z; [ | reflexivity].
    destruct (Req_dec_T (t - dt) 0); [lra | reflexivity]. }
  rewrite Hsame. exact H3.
Qed.

Lemma elapsed_nonneg (dts : list R) :
  Forall (fun dt => 0 <= dt) dts -> 0 <= elapsed dts.
Proof. intro H. induction H; simpl; lra. Qed.

Lemma ticks_alone (k : WeaponKind) (a r : Z) (dts : list R) :
  forall (t : R) (g : Game.t),
    Forall (fun dt => 0 <= dt) dts ->
    elapsed dts < t ->
    reloading_alone k a r t g ->
    reloading_alone k a r (t - elapsed dts) (control_run (map TICK dts) g).
Proof.
  induction dts as [ | dt dts IH]; intros t g Hdts Hsum Hg.
  - simpl. replace (t - 0) with t by ring. exact Hg.
  - inversion Hdts as [ | ? ? Hdt Hrest]. subst.
    pose proof (elapsed_nonneg dts Hrest) as Hnonneg.
    cbn [elapsed fold_right] in *. fold (elapsed dts) in *.
    cbn [map control_run fold_left].
    change (fold_left (fun h i => control_step i h) (map TICK dts)
                      (control_step (TICK dt) g))
      with (control_run (map TICK dts) (control_step (TICK dt) g)).
    replace (t - (dt + elapsed dts)) with (t - dt - elapsed dts) by ring.
    apply IH; [exact Hrest | lra | ].
    apply control_tick_alone; [lra | lra | exact Hg].
Qed.

(** X26: a reload takes its time. In a running session in which no weapon
    is reloading, the key R on a weapon whose magazine is not full and
    that has rounds in reserve starts the reload; whatever ticks follow,
    as long as they take less than the reload time of the weapon in all
    ([dt >= 0] each), no round has moved yet, the timer shows the reload
    time less the time elapsed, and the weapon cannot fire. *)
Theorem reload_takes_its_time :
  forall (l : Loop) (dts : list R) (s : Env),
    Game.state (game l) = PLAYING ->
    (forall j, ~ reloading (lookup (Game.weapons (game l)) j) > 0) ->
    ammo (selected (game l)) <> max_ammo (WEAPONS (Game.current_weapon (game l))) ->
    (0 < reserve (selected (game l)))%Z ->
    Forall (fun dt => 0 <= dt) dts ->
    elapsed dts < reload_time (WEAPONS (Game.current_weapon (game l))) ->
    exists l' s',
      run (KEYDOWN K_r :: map TICK dts) l s = Some (l', s')
      /\ Game.current_weapon (game l') = Game.current_weapon (game l)
      /\ ammo (selected (game l')) = ammo (selected (game l))
      /\ reserve (selected (game l')) = reserve (selected (game l))
      /\ reloading (selected (game l'))
         = reload_time (WEAPONS (Game.current_weapon (game l))) - elapsed dts
      /\ ~ ready (game l').
Proof.
  intros l dts s Hstate Hidle Hroom Hres Hdts Hsum.
  destruct (run_returns (KEYDOWN K_r :: map TICK dts) l (game l)
                        (same_control_refl _) s)
    as (l' & s' & Hrun & (_ & Hcur & Hw) & _).
  exists l', s'. split; [exact Hrun | ].
  unfold control_run in Hcur, Hw. cbn [fold_left] in Hcur, Hw.
  rewrite (control_key_r (game l) Hstate) in Hcur, Hw.
  change (fold_left (fun h i => control_step i h) (map TICK dts) (Game.reload (game l)))
    with (control_run (map TICK dts) (Game.reload (game l))) in Hcur, Hw.
  set (k := Game.current_weapon (game l)) in *.
  assert (Hstart : reloading_alone k (ammo (selected (game l)))
                     (reserve (selected (game l))) (reload_time (WEAPONS k))
                     (Game.reload (game l))).
  { rewrite (reload_starts (game l) (Hidle _) Hroom Hres). fold k.
    unfold reloading_alone, holds_stock. rewrite lookup_set_weapon.
    cbn [ammo reserve reloading Game.state Game.current_weapon Game.set_weapon
         Game.set_weapons].
    split; [exact Hstate | split; [auto | split; [reflexivity | ]]].
    intros j Hjk. rewrite (set_weapon_other k j _ (game l)) by congruence.
    apply Hidle. }
  destruct (ticks_alone k _ _ dts _ _ Hdts Hsum Hstart)
    as (_ & (Hk & Ha & Hr) & Ht & _).
  assert (Htimer : reloading (selected (game l'))
                   = reload_time (WEAPONS k) - elapsed dts).
  { unfold selected. rewrite Hcur, Hw, Hk. exact Ht. }
  split; [rewrite Hcur; exact Hk | ].
  split; [unfold selected at 1; rewrite Hcur, Hw, Hk; exact Ha | ].
  split; [unfold selected at 1; rewrite Hcur, Hw, Hk; exact Hr | ].
  split; [exact Htimer | ].
  unfold ready. fold (selected (game l')). rewrite Htimer.
  intros (_ & Hnot & _). apply Hnot. lra.
Qed.

Lemma reload_takes_its_time_witness :
  exists l' s',
    run (KEYDOWN K_r :: map TICK [1 / 2; 1 / 2])
        (mkLoop half_loaded_game true []) quiet_env = Some (l', s')
    /\ Game.current_weapon (game l')
       = Game.current_weapon (game (mkLoop half_loaded_game true []))
    /\ ammo (selected (game l'))
       = ammo (selected (game (mkLoop half_loaded_game true [])))
    /\ reserve (selected (game l'))
       = reserve (selected (game (mkLoop half_loaded_game true [])))
    /\ reloading (selected (game l'))
       = reload_time (WEAPONS (Game.current_weapon
                                 (game (mkLoop half_loaded_game true []))))
         - elapsed [1 / 2; 1 / 2]
    /\ ~ ready (game l').
Proof.
  apply (reload_takes_its_time (mkLoop half_loaded_game true []) [1 / 2; 1 / 2]
                               quiet_env).
  - reflexivity.
  - intro j. destruct j; simpl; lra.
  - simpl. lia.
  - simpl. lia.
  - repeat constructor; lra.
  - simpl. lra.
Defined.

(** ** The arena is never empty *)

Lemma targets_not_empty :
  map (fun pos => Enemy.new pos Normal) Game.target_positions <> [].
Proof. discriminate. Qed.

Lemma wave_not_empty (news : list Enemy.t) (n : Z) :
  (5 <= n)%Z -> List.length news = Z.to_nat n -> news <> [].
Proof. intros Hn Hlen ->. simpl in Hlen. lia. Qed.

Lemma start_game_stocked (mode : Mode) (g : Game.t) :
  (5 <= Game.enemies_per_wave g)%Z ->
  returns (Game.start_game mode g) (fun _ g' _ => stocked g').
Proof.
  intro Hepw. destruct mode.
  - eapply returns_weaken; [apply start_game_target | ].
    intros s g' s' ((_ & Hmode & _) & _ & Hes & _ & Hepw' & _).
    unfold stocked. rewrite Hepw', Hmode, Hes.
    split; [exact Hepw | intros _].
    split; [discriminate | apply targets_not_empty].
  - eapply returns_weaken; [apply start_game_survival | ].
    intros s g' s' ((_ & Hmode & _) & _ & Hlen & _ & Hepw' & _).
    unfold stocked. rewrite Hepw', Hmode.
    split; [lia | intros _].
    split; [discriminate | apply (wave_not_empty _ _ Hepw Hlen)].
Qed.

Lemma update_stocked (dt : R) (g : Game.t) :
  stocked g -> returns (Game.update dt g) (fun _ g' _ => stocked g').
Proof.
  intros (Hepw & Hout) s.
  destruct (Game.state g) eqn:Hstate;
    try (exists g, s; split;
         [apply update_idle; rewrite Hstate; discriminate
         | unfold stocked; rewrite Hstate; auto]).
  destruct Hout as [Hmode _]; [discriminate | ].
  destruct (update_playing dt g s Hstate) as (es & s1 & _ & _ & Hupd).
  destruct (settled_fields dt es g)
    as (Hes & _ & _ & _ & Hgm & _ & Hepw' & _ & _ & _ & Hst).
  rewrite Hupd. unfold replenish. rewrite Hgm, Hes.
  assert (Hsame : filter Enemy.alive es <> [] -> stocked (settled dt es g)).
  { intro Hleft. unfold stocked. rewrite Hepw', Hgm, Hes. auto. }
  destruct (Game.game_mode g) as [[ | ] | ] eqn:Hgmode; [ | | contradiction];
    destruct (filter Enemy.alive es) as [ | e0 rest] eqn:Hleft;
    try (exists (settled dt es g), s1; split;
         [reflexivity | apply Hsame; discriminate]).
  - eexists _, _. unfold ret. split; [reflexivity | ].
    unfold stocked.
    rewrite spawn_targets_enemies, (spawn_targets_frame (settled dt es g)).
    cbn [Game.enemies_per_wave Game.state Game.game_mode Game.set_enemies].
    rewrite Hes, Hepw', Hgm. cbn [app].
    split; [exact Hepw | intros _].
    split; [discriminate | apply targets_not_empty].
  - destruct (spawn_wave_fresh
                (Game.set_wave (Game.wave (settled dt es g) + 1) (settled dt es g)) s1)
      as (news & s2 & Hrun & Hlen & _).
    eexists _, _. split; [exact Hrun | ].
    unfold stocked. simpl. simpl in Hlen. rewrite Hes, Hepw', Hgm. cbn [app].
    rewrite Hepw' in Hlen.
    split; [lia | intros _].
    split; [discriminate | apply (wave_not_empty _ _ Hepw Hlen)].
Qed.

Lemma shoot_stocked (g : Game.t) :
  stocked g -> returns (Game.shoot g) (fun _ g' _ => stocked g').
Proof.
  intros (Hepw & Hout) s.
  destruct (shoot_tally g s) as (g' & s' & Hrun & (_ & Hlen & _)).
  destruct (shoot_returns g s) as (g2 & s2 & Hrun2 & Hframe & _).
  rewrite Hrun in Hrun2. inversion Hrun2. subst g2 s2.
  exists g', s'. split; [exact Hrun | ].
  destruct (combat_frame_control _ _ Hframe) as [(Hst & _) Hwaves].
  assert (Hmode : Game.game_mode g' = Game.game_mode g).
  { unfold combat_frame in Hframe. rewrite Hframe. simpl.
    destruct (ready_dec g) as [Hready | Hnot].
    - rewrite (fired_ready g Hready). reflexivity.
    - rewrite (fired_rejected g Hnot). reflexivity. }
  destruct (fired_keeps g) as (_ & _ & Hfst).
  unfold stocked. rewrite Hwaves, fired_waves, Hmode, Hst, Hfst.
  split; [exact Hepw | ]. intro Hnot. destruct (Hout Hnot) as [Hm Hes].
  split; [exact Hm | ]. intro Hempty. apply Hes.
  rewrite Hempty in Hlen. simpl in Hlen.
  destruct (Game.enemies g); [reflexivity | discriminate].
Qed.

Lemma step_stocked (i : Input) (l : Loop) :
  stocked (game l) -> returns (step i l) (fun _ l' _ => stocked (game l')).
Proof.
  intro Hl. pose proof Hl as (Hepw & Hout).
  destruct i as [key | key | button mx my | dx dy | dt]; unfold step.
  - apply returns_ret. intros _. unfold on_keydown.
    pose proof (reload_only (game l)) as Honly. unfold only_weapons in Honly.
    destruct (Game.state (game l)) eqn:Hstate; try exact Hl;
      destruct key; try exact Hl; unfold stocked; cbn [game];
      try (rewrite Honly); simpl; try rewrite Hstate;
      (split; [exact Hepw | ]); intros _; try (apply Hout; discriminate);
      contradiction.
  - apply returns_ret. intros _. exact Hl.
  - unfold on_mousebuttondown.
    destruct (Game.state (game l)); try (apply returns_ret; intros _; exact Hl).
    + destruct (_ && _)%bool.
      { eapply returns_bind; [apply (start_game_stocked Target _ Hepw) | ].
        intros s g' s' Hg'. eexists _, _. split; [reflexivity | exact Hg']. }
      destruct (_ && _)%bool.
      { eapply returns_bind; [apply (start_game_stocked Survival _ Hepw) | ].
        intros s g' s' Hg'. eexists _, _. split; [reflexivity | exact Hg']. }
      apply returns_ret. intros _. exact Hl.
    + destruct (button =? 1)%Z; [ | apply returns_ret; intros _; exact Hl].
      eapply returns_bind; [apply (shoot_stocked (game l) Hl) | ].
      intros s g' s' Hg'. eexists _, _. split; [reflexivity | exact Hg'].
  - apply returns_ret. intros _. unfold on_mousemotion.
    destruct (mouse_locked l); exact Hl.
  - eapply returns_bind; [apply (update_stocked dt (game l) Hl) | ].
    intros s g1 s1 Hg1. unfold bind, ret.
    destruct (move_player_returns dt (keys_down l) g1 s1) as (g2 & s2 & Hrun & Hg2 & _).
    rewrite Hrun. eexists _, _. split; [reflexivity | ].
    cbn [game]. unfold stocked. rewrite Hg2. exact Hg1.
Qed.

Lemma stocked_init : stocked (game main_init).
Proof.
  unfold stocked. simpl. split; [lia | intro H; contradiction].
Qed.

(** X27: the arena is never empty. Whatever the inputs handled by the
    loop of [main] from the start of the program, out of the menu a mode
    is set and the list of enemies holds at least one enemy; and the size
    of the next wave is never below 5. *)
Theorem arena_is_never_empty :
  forall (inputs : list Input) (s : Env),
  exists l' s',
    run inputs main_init s = Some (l', s')
    /\ (5 <= Game.enemies_per_wave (game l'))%Z
    /\ (Game.state (game l') <> MENU ->
        Game.game_mode (game l') <> None /\ Game.enemies (game l') <> []).
Proof.
  intros inputs s.
  apply (returns_run (fun l => stocked (game l)) step_stocked inputs main_init
                     stocked_init s).
Qed.
